(** * lqg: the simulation-and-filtering core of [lqg/model.py]

    A shallow embedding of [System.simulate], [System.conditional_moments],
    [System.conditional_distribution] and [System.log_likelihood], together
    with the array operations of [jax.numpy] they are written with.

    Numbers are exact rationals ([Qc]) in place of floats.  Arrays are
    nested lists; an operation that [jax.numpy] rejects because the shapes
    of its operands do not fit returns [Raise ShapeMismatch]. *)

From Stdlib Require Import List Arith Bool Lia ZArith QArith Qcanon.
Import ListNotations.

Open Scope Qc_scope.

(** ** Exceptions *)

(** The one exception the array library raises in this code: operands whose
    shapes do not fit ([TypeError] / [ValueError] in [jax.numpy]). *)
Inductive exn : Type :=
| ShapeMismatch.

Inductive result (A : Type) : Type :=
| Ok (a : A)
| Raise (e : exn).

Arguments Ok {A} a.
Arguments Raise {A} e.

Definition bind {A B : Type} (m : result A) (k : A -> result B) : result B :=
  match m with
  | Ok a => k a
  | Raise e => Raise e
  end.

Notation "x <- m ;; k" := (bind m (fun x => k))
  (at level 61, m at next level, right associativity).
Notation "' p <- m ;; k" := (bind m (fun x => match x with p => k end))
  (at level 61, p pattern, m at next level, right associativity).

Definition rmap {A B : Type} (g : A -> B) (m : result A) : result B :=
  x <- m ;; Ok (g x).

Definition is_ok {A : Type} (m : result A) : bool :=
  match m with Ok _ => true | Raise _ => false end.

Fixpoint mapM {A B : Type} (g : A -> result B) (l : list A) : result (list B) :=
  match l with
  | [] => Ok []
  | a :: l' => b <- g a ;; bs <- mapM g l' ;; Ok (b :: bs)
  end.

(** ** Arrays *)

Abbreviation vec := (list Qc).                (* shape (k,)      *)
Abbreviation mat := (list (list Qc)).         (* shape (r, c)    *)
Abbreviation arr3 := (list (list (list Qc))). (* shape (T, r, c) *)

Definition nrows (A : mat) : nat := length A.
Definition ncols (A : mat) : nat := length (hd [] A).

(** [jnp.zeros(k)], [jnp.zeros((r, c))] *)
Definition zeros (k : nat) : vec := repeat 0 k.
Definition zeros2 (r c : nat) : mat := repeat (zeros c) r.

Fixpoint map2 {A B C : Type} (g : A -> B -> C) (u : list A) (v : list B) : list C :=
  match u, v with
  | a :: u', b :: v' => g a b :: map2 g u' v'
  | _, _ => []
  end.

(** Elementwise operations follow NumPy broadcasting: two axes fit when their
    lengths are equal or one of them is 1, and the axis of length 1 is
    repeated. *)
Definition broadcast_len (a b : nat) : nat := if a =? 1 then b else a.

Definition broadcast_to {A : Type} (k : nat) (l : list A) : option (list A) :=
  if length l =? k then Some l
  else match l with
       | [a] => Some (repeat a k)
       | _ => None
       end.

Definition vneg (u : vec) : vec := map Qcopp u.
Definition vadd_raw (u v : vec) : vec := map2 Qcplus u v.
Definition vsub_raw (u v : vec) : vec := map2 Qcminus u v.
Definition mneg (A : mat) : mat := map vneg A.
Definition madd_raw (A B : mat) : mat := map2 vadd_raw A B.
Definition msub_raw (A B : mat) : mat := map2 vsub_raw A B.

Definition vzip (g : Qc -> Qc -> Qc) (u v : vec) : result vec :=
  let k := broadcast_len (length u) (length v) in
  match broadcast_to k u, broadcast_to k v with
  | Some u', Some v' => Ok (map2 g u' v')
  | _, _ => Raise ShapeMismatch
  end.

Definition mzip (g : Qc -> Qc -> Qc) (A B : mat) : result mat :=
  let r := broadcast_len (length A) (length B) in
  match broadcast_to r A, broadcast_to r B with
  | Some A', Some B' => mapM (fun p => vzip g (fst p) (snd p)) (combine A' B')
  | _, _ => Raise ShapeMismatch
  end.

Definition vadd (u v : vec) : result vec := vzip Qcplus u v.
Definition vsub (u v : vec) : result vec := vzip Qcminus u v.
Definition madd (A B : mat) : result mat := mzip Qcplus A B.
Definition msub (A B : mat) : result mat := mzip Qcminus A B.

(** Products.  [dot] is the contraction of two vectors of equal length. *)
Definition dot (u v : vec) : Qc := fold_right Qcplus 0 (map2 Qcmult u v).
Definition col (j : nat) (A : mat) : vec := map (fun r => nth j r 0) A.

(** [A.T] *)
Definition transpose (A : mat) : mat := map (fun j => col j A) (seq 0 (ncols A)).

(** [A @ x] for a matrix and a vector, [A @ B] for two matrices. *)
Definition matvec_raw (A : mat) (x : vec) : vec := map (fun r => dot r x) A.
Definition matmul_raw (A B : mat) : mat :=
  map (fun r => map (fun j => dot r (col j B)) (seq 0 (ncols B))) A.

Definition matvec (A : mat) (x : vec) : result vec :=
  if forallb (fun r => length r =? length x) A
  then Ok (matvec_raw A x) else Raise ShapeMismatch.
Definition matmul (A B : mat) : result mat :=
  if forallb (fun r => length r =? nrows B) A
  then Ok (matmul_raw A B) else Raise ShapeMismatch.

(** Slices never fail: [A[:d, :]], [A[:, :d]], [A[:d, :d]]. *)
Definition rows_upto (d : nat) (A : mat) : mat := firstn d A.
Definition cols_upto (d : nat) (A : mat) : mat := map (firstn d) A.
Definition block_upto (d : nat) (A : mat) : mat := cols_upto d (rows_upto d A).

(** [jnp.hstack([A, B])] and [jnp.vstack([A, B])] of two matrices. *)
Definition hstack (A B : mat) : result mat :=
  if length A =? length B then Ok (map2 (@app Qc) A B) else Raise ShapeMismatch.
Definition vstack (A B : mat) : result mat :=
  if forallb (fun r => length r =? ncols (A ++ B)) (A ++ B)
  then Ok (A ++ B) else Raise ShapeMismatch.

(** [jnp.vstack([v, M])] of a vector and a matrix: the vector becomes the
    first row. *)
Definition vstack_row (v : vec) (M : mat) : result mat := vstack [v] M.

(** [a[t]] along the first axis; an index past the end is clamped, as
    [jax.numpy] does. *)
Definition row_at (t : nat) (a : mat) : vec := nth (Nat.min t (length a - 1)) a [].

(** [jnp.arange(lo, hi)] *)
Definition arange (lo hi : nat) : list nat := seq lo (hi - lo).

(** Stacking per-trial results along axis 1 ([vmap(..., out_axes=1)]): from
    trials of shape (T, w) to an array of shape (T, n, w). *)
Definition stack_axis1 (trials : list mat) : arr3 :=
  map (fun t => map (fun tr => nth t tr []) trials) (seq 0 (nrows (hd [] trials))).

(** [a.transpose((1, 0, 2))] *)
Definition swap_axes01 (a : arr3) : arr3 := stack_axis1 a.

(** [jax.lax.scan].  The body is first traced once on the initial carry
    (this is when shape errors are raised, also for an empty sequence; [x_abs]
    stands for the abstract element when [xs] is empty), then folded over
    [xs], collecting the per-step outputs. *)
Fixpoint scan_from {C X Y : Type} (body : C -> X -> result (C * Y)) (c : C) (xs : list X)
  : result (C * list Y) :=
  match xs with
  | [] => Ok (c, [])
  | x :: xs' =>
      '(c', y) <- body c x ;;
      '(c'', ys) <- scan_from body c' xs' ;;
      Ok (c'', y :: ys)
  end.

Definition scan {C X Y : Type} (body : C -> X -> result (C * Y)) (init : C) (xs : list X)
  (x_abs : X) : result (C * list Y) :=
  _ <- body init (hd x_abs xs) ;;
  scan_from body init xs.

(** ** The data model *)

Module Dynamics.
Record t : Type := Build { A : mat; B : mat; C : mat; V : mat; W : mat }.
End Dynamics.

Module Actor.
Record t : Type := Build
  { A : mat; B : mat; C : mat; V : mat; W : mat; Q : mat; R : mat }.

(** The two gain routines of [lqg.lqr] and [lqg.kalman], called with the
    matrices of the internal model and the horizon [T]. *)
Section Gains.

Variable control_law : mat -> mat -> mat -> mat -> nat -> result mat.
Variable kalman_gain : mat -> mat -> mat -> mat -> nat -> result mat.

Definition L (self : t) (T : nat) : result mat :=
  control_law (A self) (B self) (Q self) (R self) T.

Definition K (self : t) (T : nat) : result mat :=
  VVt <- matmul (V self) (transpose (V self)) ;;
  WWt <- matmul (W self) (transpose (W self)) ;;
  kalman_gain (A self) (C self) VVt WWt T.

End Gains.
End Actor.

Record System : Type := Build_System_
  { actor : Actor.t; dynamics : Dynamics.t }.

(** [System.__init__] stores its two arguments; it performs no check. *)
Definition System_init (actor : Actor.t) (dynamics : Dynamics.t) : result System :=
  Ok (Build_System_ actor dynamics).

(** [LQG.__init__] *)
Definition LQG_init (A B C V W Q R : mat) : result System :=
  let dynamics := Dynamics.Build A B C V W in
  let actor := Actor.Build A B C V W Q R in
  System_init actor dynamics.

Definition xdim (self : System) : nat := nrows (Dynamics.A (dynamics self)).
Definition bdim (self : System) : nat := nrows (Actor.A (actor self)).
Definition udim (self : System) : nat := ncols (Dynamics.B (dynamics self)).

(** [jnp.zeros_like(M)] *)
Definition zeros_like (M : mat) : mat := map (map (fun _ => 0)) M.

(** The four stacked outputs of the simulation loop. *)
Definition outs_x (outs : list (vec * vec * vec * vec)) : mat :=
  map (fun o => fst (fst (fst o))) outs.
Definition outs_x_hat (outs : list (vec * vec * vec * vec)) : mat :=
  map (fun o => snd (fst (fst o))) outs.
Definition outs_y (outs : list (vec * vec * vec * vec)) : mat :=
  map (fun o => snd (fst o)) outs.
Definition outs_u (outs : list (vec * vec * vec * vec)) : mat :=
  map (fun o => snd o) outs.

(** What [simulate] returns: all four arrays when [return_all], the states
    otherwise. *)
Inductive sim_result : Type :=
| AllOutputs (x x_hat y u : arr3)
| StatesOnly (x : arr3).

Definition states_of (r : sim_result) : arr3 :=
  match r with AllOutputs x _ _ _ => x | StatesOnly x => x end.

(** [numpyro.distributions.MultivariateNormal(loc, covariance_matrix)] with
    [loc] of shape (n, T, d) and [covariance_matrix] of shape (T, d, d). *)
Record MultivariateNormal : Type := Build_MultivariateNormal
  { loc : arr3; covariance_matrix : arr3 }.

(** Shapes, for stating results. *)
Definition shape2 (A : mat) : nat * nat := (nrows A, ncols A).
Definition shape3 (a : arr3) : nat * nat * nat :=
  (length a, nrows (hd [] a), ncols (hd [] a)).

Section Model.

(** The collaborators of the module: the random-number library, the two gain
    routines of [lqg.lqr] and [lqg.kalman], the matrix inverse and the
    Gaussian log-density. *)
Variable key : Type.
Variable random_split : key -> key * key.             (* random.split(key)         *)
Variable random_split_num : key -> nat -> list key.   (* random.split(key, num=n)  *)
Variable random_normal : key -> nat -> nat -> mat.    (* random.normal(key, (r,c)) *)
Variable control_law : mat -> mat -> mat -> mat -> nat -> result mat.
Variable kalman_gain : mat -> mat -> mat -> mat -> nat -> result mat.
Variable linalg_inv : mat -> mat.                     (* jnp.linalg.inv            *)
Variable logp : Type.
Variable mvn_log_prob : vec -> mat -> vec -> logp.    (* log N(value; loc, cov)    *)

(** *** [System.simulate] *)

(** The body of the simulation loop; [L], [K], [epsilon] and [eta] are the
    variables it closes over. *)
Definition loop (self : System) (L K epsilon eta : mat) (carry : vec * vec) (t : nat)
  : result ((vec * vec) * (vec * vec * vec * vec)) :=
  let '(x, x_hat) := carry in
  (* u = - L @ x_hat *)
  u <- matvec (mneg L) x_hat ;;
  (* x = A @ x + B @ u + V @ epsilon[t] *)
  Ax <- matvec (Dynamics.A (dynamics self)) x ;;
  Bu <- matvec (Dynamics.B (dynamics self)) u ;;
  AxBu <- vadd Ax Bu ;;
  Ve <- matvec (Dynamics.V (dynamics self)) (row_at t epsilon) ;;
  x <- vadd AxBu Ve ;;
  (* y = C @ x + W @ eta[t] *)
  Cx <- matvec (Dynamics.C (dynamics self)) x ;;
  Wn <- matvec (Dynamics.W (dynamics self)) (row_at t eta) ;;
  y <- vadd Cx Wn ;;
  (* x_pred = A @ x_hat + B @ u *)
  Axh <- matvec (Actor.A (actor self)) x_hat ;;
  Bu' <- matvec (Actor.B (actor self)) u ;;
  x_pred <- vadd Axh Bu' ;;
  (* x_hat = x_pred + K @ (y - C @ x_pred) *)
  Cp <- matvec (Actor.C (actor self)) x_pred ;;
  innov <- vsub y Cp ;;
  Ki <- matvec K innov ;;
  x_hat <- vadd x_pred Ki ;;
  Ok ((x, x_hat), (x, x_hat, y, u)).

Definition simulate_trial (self : System) (L K : mat) (rng_key : key) (T : nat)
  (x0 xhat0 : option vec) : result (mat * mat * mat * mat) :=
  let x0 := match x0 with None => zeros (xdim self) | Some v => v end in
  let xhat0 := match xhat0 with None => zeros (bdim self) | Some v => v end in
  let '(rng_key, subkey) := random_split rng_key in
  let epsilon := random_normal subkey T (length x0) in
  let '(rng_key, subkey) := random_split rng_key in
  let eta := random_normal subkey T (length x0) in
  '(_, outs) <- scan (loop self L K epsilon eta) (x0, xhat0) (arange 1 T) 1%nat ;;
  xs <- vstack_row x0 (outs_x outs) ;;
  xhats <- vstack_row xhat0 (outs_x_hat outs) ;;
  Cx0 <- matvec (Dynamics.C (dynamics self)) x0 ;;
  Ve0 <- matvec (Dynamics.V (dynamics self)) (row_at 0 eta) ;;
  y0 <- vadd Cx0 Ve0 ;;
  Ok (xs, xhats, [y0], outs_u outs).

Definition simulate (self : System) (rng_key : key) (n T : nat) (x0 : option vec)
  (return_all : bool) : result sim_result :=
  L <- Actor.L control_law (actor self) T ;;
  K <- Actor.K kalman_gain (actor self) T ;;
  trials <- mapM (fun k => simulate_trial self L K k T x0 None)
                 (random_split_num rng_key n) ;;
  let x := stack_axis1 (map (fun r => fst (fst (fst r))) trials) in
  let x_hat := stack_axis1 (map (fun r => snd (fst (fst r))) trials) in
  let y := stack_axis1 (map (fun r => snd (fst r)) trials) in
  let u := stack_axis1 (map (fun r => snd r) trials) in
  Ok (if return_all then AllOutputs x x_hat y u else StatesOnly x).

(** *** [System.conditional_moments] *)

(** The body of the filtering recursion; [F], [G] and [d] are the variables
    it closes over. *)
Definition f (F G : mat) (d : nat) (carry : mat * mat) (xt : mat)
  : result ((mat * mat) * (mat * mat)) :=
  let '(mu, Sigma) := carry in
  (* mu = mu @ F.T + (xt - mu[:, :d]) @ inv(Sigma[:d, :d]).T @ (F @ Sigma)[:, :d].T *)
  muFt <- matmul mu (transpose F) ;;
  innov <- msub xt (cols_upto d mu) ;;
  iS <- matmul innov (transpose (linalg_inv (block_upto d Sigma))) ;;
  FS <- matmul F Sigma ;;
  corr <- matmul iS (transpose (cols_upto d FS)) ;;
  mu' <- madd muFt corr ;;
  (* Sigma = F @ Sigma @ F.T + G @ G.T
             - (F @ Sigma)[:, :d] @ inv(Sigma[:d, :d]) @ (Sigma @ F.T)[:d, :] *)
  FS1 <- matmul F Sigma ;;
  FSFt <- matmul FS1 (transpose F) ;;
  GGt <- matmul G (transpose G) ;;
  pred <- madd FSFt GGt ;;
  FS2 <- matmul F Sigma ;;
  gain <- matmul (cols_upto d FS2) (linalg_inv (block_upto d Sigma)) ;;
  SFt <- matmul Sigma (transpose F) ;;
  red <- matmul gain (rows_upto d SFt) ;;
  Sigma' <- msub pred red ;;
  Ok ((mu', Sigma'), (mu', Sigma')).

(** The transition matrix [F] and the noise matrix [G] of the joint process. *)
Definition build_F (self : System) (L K : mat) : result mat :=
  BL <- matmul (mneg (Dynamics.B (dynamics self))) L ;;
  top <- hstack (Dynamics.A (dynamics self)) BL ;;
  KC <- matmul K (Dynamics.C (dynamics self)) ;;
  KCA <- matmul KC (Dynamics.A (dynamics self)) ;;
  aBL <- matmul (Actor.B (actor self)) L ;;
  AmBL <- msub (Actor.A (actor self)) aBL ;;
  KaC <- matmul K (Actor.C (actor self)) ;;
  KaCaA <- matmul KaC (Actor.A (actor self)) ;;
  bb <- msub AmBL KaCaA ;;
  bottom <- hstack KCA bb ;;
  vstack top bottom.

Definition build_G (self : System) (K : mat) : result mat :=
  top <- hstack (Dynamics.V (dynamics self))
                (zeros_like (transpose (Dynamics.C (dynamics self)))) ;;
  KC <- matmul K (Dynamics.C (dynamics self)) ;;
  KCV <- matmul KC (Dynamics.V (dynamics self)) ;;
  KW <- matmul K (Dynamics.W (dynamics self)) ;;
  bottom <- hstack KCV KW ;;
  vstack top bottom.

Definition conditional_moments (self : System) (x : arr3) (mu0 : option mat)
  : result (arr3 * arr3) :=
  (* T, n, d = x.shape *)
  let T := length x in
  let n := nrows (hd [] x) in
  let d := ncols (hd [] x) in
  L <- Actor.L control_law (actor self) T ;;
  K <- Actor.K kalman_gain (actor self) T ;;
  F <- build_F self L K ;;
  G <- build_G self K ;;
  let mu := match mu0 with
            | None => zeros2 n (nrows (Dynamics.A (dynamics self))
                                + nrows (Actor.A (actor self)))
            | Some m => m
            end in
  Sigma <- matmul G (transpose G) ;;
  '(_, outs) <- scan (f F G d) (mu, Sigma) x (zeros2 n d) ;;
  Ok (map fst outs, map snd outs).

(** *** [System.conditional_distribution], [System.log_likelihood] *)

Definition conditional_distribution (self : System) (x : arr3)
  : result MultivariateNormal :=
  let d := ncols (hd [] x) in
  '(mu, Sigma) <- conditional_moments self x None ;;
  Ok (Build_MultivariateNormal (swap_axes01 (map (cols_upto d) mu))
                               (map (block_upto d) Sigma)).

(** [dist.log_prob(value)]: one log-density for each trial and time step,
    shape (n, T); the covariance of step [t] is shared by all trials. *)
Definition log_prob (dist : MultivariateNormal) (value : arr3) : list (list logp) :=
  map2 (fun loc_i value_i =>
          map2 (fun lv S => mvn_log_prob (fst lv) S (snd lv))
               (combine loc_i value_i) (covariance_matrix dist))
       (loc dist) value.

Definition log_likelihood (self : System) (x : arr3) : result (list (list logp)) :=
  dist <- conditional_distribution self (removelast x) ;;
  Ok (log_prob dist (swap_axes01 (tl x))).

End Model.

Arguments simulate_trial {key} random_split random_normal self L K rng_key T x0 xhat0.
Arguments simulate {key} random_split random_split_num random_normal control_law
  kalman_gain self rng_key n T x0 return_all.
Arguments log_prob {logp} mvn_log_prob dist value.
Arguments log_likelihood control_law kalman_gain linalg_inv {logp} mvn_log_prob self x.

(** ** The simulation as a program over the random-number library

    In [simulate] every random number comes from a call of [jax.random] on a
    key.  To state what the code does with its random source, the calls are
    made explicit: a program returns, raises, or issues a call and continues
    with what the call returns.  Besides the three keyed calls the code
    makes, a program can draw from the process-wide generator, without a key
    (as [numpy.random.normal(size=(r, c))] does). *)
Inductive prog (key A : Type) : Type :=
| Ret (a : A)
| Throw (e : exn)
| Split (k : key) (cont : key * key -> prog key A)             (* random.split(k)          *)
| SplitNum (k : key) (n : nat) (cont : list key -> prog key A) (* random.split(k, num=n)   *)
| Normal (k : key) (r c : nat) (cont : mat -> prog key A)      (* random.normal(k, (r, c)) *)
| GlobalNormal (r c : nat) (cont : mat -> prog key A).         (* a draw without a key     *)

Arguments Ret {key A} a.
Arguments Throw {key A} e.
Arguments Split {key A} k cont.
Arguments SplitNum {key A} k n cont.
Arguments Normal {key A} k r c cont.
Arguments GlobalNormal {key A} r c cont.

Fixpoint pbind {key A B : Type} (m : prog key A) (k : A -> prog key B) : prog key B :=
  match m with
  | Ret a => k a
  | Throw e => Throw e
  | Split k0 cont => Split k0 (fun r => pbind (cont r) k)
  | SplitNum k0 n cont => SplitNum k0 n (fun r => pbind (cont r) k)
  | Normal k0 r c cont => Normal k0 r c (fun M => pbind (cont M) k)
  | GlobalNormal r c cont => GlobalNormal r c (fun M => pbind (cont M) k)
  end.

Notation "x <~ m ;; k" := (pbind m (fun x => k))
  (at level 61, m at next level, right associativity).
Notation "' p <~ m ;; k" := (pbind m (fun x => match x with p => k end))
  (at level 61, p pattern, m at next level, right associativity).

(** A computation of the array library, which makes no call, as a program. *)
Definition lift {key A : Type} (r : result A) : prog key A :=
  match r with Ok a => Ret a | Raise e => Throw e end.

Fixpoint mapP {key A B : Type} (g : A -> prog key B) (l : list A) : prog key (list B) :=
  match l with
  | [] => Ret []
  | a :: l' => b <~ g a ;; bs <~ mapP g l' ;; Ret (b :: bs)
  end.

Section Programs.

Variable key : Type.
Variable control_law : mat -> mat -> mat -> mat -> nat -> result mat.
Variable kalman_gain : mat -> mat -> mat -> mat -> nat -> result mat.

(** [simulate_trial], call by call: two splits of the trial key, a draw at
    each of the two subkeys, then the scan and the stacking, which make no
    call. *)
Definition simulate_trial_prog (self : System) (L K : mat) (rng_key : key) (T : nat)
  (x0 xhat0 : option vec) : prog key (mat * mat * mat * mat) :=
  let x0 := match x0 with None => zeros (xdim self) | Some v => v end in
  let xhat0 := match xhat0 with None => zeros (bdim self) | Some v => v end in
  ' (rng_key, subkey) <~ Split rng_key Ret ;;
  epsilon <~ Normal subkey T (length x0) Ret ;;
  ' (rng_key, subkey) <~ Split rng_key Ret ;;
  eta <~ Normal subkey T (length x0) Ret ;;
  lift ('(_, outs) <- scan (loop self L K epsilon eta) (x0, xhat0) (arange 1 T) 1%nat ;;
        xs <- vstack_row x0 (outs_x outs) ;;
        xhats <- vstack_row xhat0 (outs_x_hat outs) ;;
        Cx0 <- matvec (Dynamics.C (dynamics self)) x0 ;;
        Ve0 <- matvec (Dynamics.V (dynamics self)) (row_at 0 eta) ;;
        y0 <- vadd Cx0 Ve0 ;;
        Ok (xs, xhats, [y0], outs_u outs)).

(** [simulate], call by call: the two gains, the split of [rng_key] into [n]
    trial keys, and one trial for each key. *)
Definition simulate_prog (self : System) (rng_key : key) (n T : nat) (x0 : option vec)
  (return_all : bool) : prog key sim_result :=
  L <~ lift (Actor.L control_law (actor self) T) ;;
  K <~ lift (Actor.K kalman_gain (actor self) T) ;;
  keys <~ SplitNum rng_key n Ret ;;
  trials <~ mapP (fun k => simulate_trial_prog self L K k T x0 None) keys ;;
  let x := stack_axis1 (map (fun r => fst (fst (fst r))) trials) in
  let x_hat := stack_axis1 (map (fun r => snd (fst (fst r))) trials) in
  let y := stack_axis1 (map (fun r => snd (fst r)) trials) in
  let u := stack_axis1 (map (fun r => snd r) trials) in
  Ret (if return_all then AllOutputs x x_hat y u else StatesOnly x).

End Programs.

Arguments simulate_trial_prog {key} self L K rng_key T x0 xhat0.
Arguments simulate_prog {key} control_law kalman_gain self rng_key n T x0 return_all.

(** What the calls return: a keyed call is a function of its arguments; a
    draw without a key reads and advances the state [world] of the
    process-wide generator. *)
Record sampler (key world : Type) : Type := Build_sampler
  { sample_split : key -> key * key;
    sample_split_num : key -> nat -> list key;
    sample_normal : key -> nat -> nat -> mat;
    sample_global : nat -> nat -> world -> mat * world }.

Arguments Build_sampler {key world} _ _ _ _.
Arguments sample_split {key world} s k.
Arguments sample_split_num {key world} s k n.
Arguments sample_normal {key world} s k r c.
Arguments sample_global {key world} s r c w.

(** A run of a program from a state of the process-wide generator: what the
    program returns or raises, and the state the run leaves. *)
Fixpoint run {key world A : Type} (h : sampler key world) (p : prog key A) (w : world)
  : result A * world :=
  match p with
  | Ret a => (Ok a, w)
  | Throw e => (Raise e, w)
  | Split k cont => run h (cont (sample_split h k)) w
  | SplitNum k n cont => run h (cont (sample_split_num h k n)) w
  | Normal k r c cont => run h (cont (sample_normal h k r c)) w
  | GlobalNormal r c cont =>
      let '(M, w') := sample_global h r c w in run h (cont M) w'
  end.

(** ** Reference formulations

    The two textbook operations on a joint Gaussian [(mu, Sigma)] whose first
    [d] coordinates are observed (rows of [mu] are trials), and the two orders
    in which a filtering step can compose them. *)

Section Gaussian.

Variable linalg_inv : mat -> mat.

(** Prediction through [z' = F z + G w]: [(mu F^T, F Sigma F^T + G G^T)]. *)
Definition predict (F G : mat) (carry : mat * mat) : result (mat * mat) :=
  let '(mu, Sigma) := carry in
  muFt <- matmul mu (transpose F) ;;
  FS <- matmul F Sigma ;;
  FSFt <- matmul FS (transpose F) ;;
  GGt <- matmul G (transpose G) ;;
  Sigma' <- madd FSFt GGt ;;
  Ok (muFt, Sigma').

(** Conditioning on the first [d] coordinates being [xt]: the innovation
    [xt - mu[:, :d]] scaled by the inverse of [Sigma[:d, :d]] corrects the
    mean, and the Schur complement corrects the covariance. *)
Definition condition (d : nat) (carry : mat * mat) (xt : mat) : result (mat * mat) :=
  let '(mu, Sigma) := carry in
  innov <- msub xt (cols_upto d mu) ;;
  iS <- matmul innov (transpose (linalg_inv (block_upto d Sigma))) ;;
  corr <- matmul iS (transpose (cols_upto d Sigma)) ;;
  mu' <- madd mu corr ;;
  gain <- matmul (cols_upto d Sigma) (linalg_inv (block_upto d Sigma)) ;;
  red <- matmul gain (rows_upto d Sigma) ;;
  Sigma' <- msub Sigma red ;;
  Ok (mu', Sigma').

(** A step that predicts first and then conditions on the observed block of
    the predicted moments. *)
Definition predict_then_condition (F G : mat) (d : nat) (carry : mat * mat) (xt : mat)
  : result (mat * mat) :=
  p <- predict F G carry ;; condition d p xt.

(** A step that conditions the carried moments first and then predicts. *)
Definition condition_then_predict (F G : mat) (d : nat) (carry : mat * mat) (xt : mat)
  : result (mat * mat) :=
  c <- condition d carry xt ;; predict F G c.

End Gaussian.

(** The simulation loop with horizon-indexed gain sequences [Ls], [Ks]: step
    [t] uses [Ls[t]] and [Ks[t]]. *)
Section IndexedGains.

Variable key : Type.
Variable random_split : key -> key * key.
Variable random_normal : key -> nat -> nat -> mat.

Definition loop_indexed (self : System) (Ls Ks : arr3) (epsilon eta : mat)
  (carry : vec * vec) (t : nat) : result ((vec * vec) * (vec * vec * vec * vec)) :=
  loop self (nth t Ls []) (nth t Ks []) epsilon eta carry t.

Definition simulate_trial_indexed (self : System) (Ls Ks : arr3) (rng_key : key) (T : nat)
  (x0 xhat0 : option vec) : result (mat * mat * mat * mat) :=
  let x0 := match x0 with None => zeros (xdim self) | Some v => v end in
  let xhat0 := match xhat0 with None => zeros (bdim self) | Some v => v end in
  let '(rng_key, subkey) := random_split rng_key in
  let epsilon := random_normal subkey T (length x0) in
  let '(rng_key, subkey) := random_split rng_key in
  let eta := random_normal subkey T (length x0) in
  '(_, outs) <- scan (loop_indexed self Ls Ks epsilon eta) (x0, xhat0) (arange 1 T) 1%nat ;;
  xs <- vstack_row x0 (outs_x outs) ;;
  xhats <- vstack_row xhat0 (outs_x_hat outs) ;;
  Cx0 <- matvec (Dynamics.C (dynamics self)) x0 ;;
  Ve0 <- matvec (Dynamics.V (dynamics self)) (row_at 0 eta) ;;
  y0 <- vadd Cx0 Ve0 ;;
  Ok (xs, xhats, [y0], outs_u outs).

End IndexedGains.

Arguments simulate_trial_indexed {key} random_split random_normal self Ls Ks rng_key T
  x0 xhat0.

(** ** Sample collaborators and models for worked examples *)

Module Sample.

Definition q (a : Z) (b : positive) : Qc := Q2Qc (a # b).

(** Readable values of results. *)
Definition vval (v : vec) : list Q := map this v.
Definition mval (A : mat) : list (list Q) := map vval A.
Definition aval (a : arr3) : list (list (list Q)) := map mval a.

(** A splittable key and a fixed table of noise values. *)
Definition key : Type := nat.
Definition random_split (k : key) : key * key := (2 * k + 1, 2 * k + 2)%nat.
Definition random_split_num (k : key) (n : nat) : list key :=
  map (fun i => (3 * k + i + 1)%nat) (seq 0 n).
Definition random_normal (k : key) (r c : nat) : mat :=
  map (fun i => map (fun j => q (Z.of_nat ((k + 3 * i + 5 * j) mod 7) - 3) 2) (seq 0 c))
      (seq 0 r).

(** Gain routines that return a given matrix. *)
Definition fixed_gain (M : mat) : mat -> mat -> mat -> mat -> nat -> result mat :=
  fun _ _ _ _ _ => Ok M.

(** The matrix inverse by cofactors; for a singular matrix every entry is
    divided by zero, which is zero in [Qc] (a float inverse would hold
    non-finite values there; like it, this raises nothing). *)
Definition drop_at {A : Type} (j : nat) (l : list A) : list A := firstn j l ++ skipn (S j) l.
Definition minor (i j : nat) (M : mat) : mat := map (drop_at j) (drop_at i M).
Definition sign (k : nat) : Qc := if Nat.even k then 1 else - (1).

Fixpoint det (fuel : nat) (M : mat) : Qc :=
  match fuel with
  | O => 1
  | S fuel' =>
      fold_right Qcplus 0
        (map (fun j => sign j * nth j (hd [] M) 0 * det fuel' (minor 0 j M))
             (seq 0 (length M)))
  end.

Definition linalg_inv (M : mat) : mat :=
  let k := length M in
  let dt := det k M in
  map (fun i => map (fun j => sign (i + j) * det (k - 1) (minor j i M) / dt) (seq 0 k))
      (seq 0 k).

(** Symbolic log-densities: which Gaussian is evaluated where. *)
Inductive density : Type :=
| LogDensity (loc : vec) (cov : mat) (value : vec).

Definition density_value (p : density) : list Q :=
  match p with LogDensity _ _ value => vval value end.

(** The tracking model of the module's demo: two states, one action. *)
Definition A2 : mat := [[1; 0]; [0; 1]].
Definition B2 : mat := [[0]; [q 1 60]].
Definition C2 : mat := [[1; 0]; [0; 1]].
Definition V2 : mat := [[1; 0]; [0; q 1 2]].
Definition W2 : mat := [[q 6 1; 0]; [0; q 3 1]].
Definition Q2 : mat := [[1; - (1)]; [- (1); 1]].
Definition R2 : mat := [[q 1 2]].

Definition lqg2 : System :=
  Build_System_ (Actor.Build A2 B2 C2 V2 W2 Q2 R2) (Dynamics.Build A2 B2 C2 V2 W2).

Definition L2 : mat := [[q 1 2; q 1 3]].
Definition K2 : mat := [[q 1 4; 0]; [0; q 1 5]].

(** The same model without any noise: [V = W = 0]. *)
Definition Z2 : mat := [[0; 0]; [0; 0]].
Definition lqg2_noiseless : System :=
  Build_System_ (Actor.Build A2 B2 C2 Z2 Z2 Q2 R2) (Dynamics.Build A2 B2 C2 Z2 Z2).

(** Three observed steps of one trial. *)
Definition xdata : arr3 := [[[1; q 1 2]]; [[q 1 3; q 1 4]]; [[q 1 5; 0]]].

(** A control matrix with three rows, for a plant with two states. *)
Definition B3 : mat := [[0]; [q 1 60]; [1]].

(** A joint Gaussian with one observed and one hidden coordinate. *)
Definition F_ex : mat := [[1; 1]; [0; 1]].
Definition G_ex : mat := [[1; 0]; [0; 1]].
Definition mu_ex : mat := [[0; 0]].
Definition Sigma_ex : mat := [[1; 0]; [0; 1]].
Definition xt_ex : mat := [[1]].

(** Gain sequences whose elements differ. *)
Definition Ls_ex : arr3 := [L2; L2; [[1; 1]]; [[q 2 1; 0]]].
Definition Ks_ex : arr3 := [K2; K2; [[q 1 2; 0]; [0; q 1 2]]; [[1; 0]; [0; 1]]].

End Sample.

(** ** Well-shaped arrays and models *)

(** [is_mat r c A]: [A] has [r] rows, each of length [c]. *)
Definition is_mat (r c : nat) (A : mat) : bool :=
  (length A =? r) && forallb (fun row => length row =? c) A.

(** [is_arr3 T r c a]: [T] matrices of shape [(r, c)]. *)
Definition is_arr3 (T r c : nat) (a : arr3) : bool :=
  (length a =? T) && forallb (is_mat r c) a.

(** The entry [A[i, j]]. *)
Definition ent (A : mat) (i j : nat) : Qc := nth j (nth i A []) 0.

(** Finite sums [g 0 + ... + g (n-1)]. *)
Fixpoint sum_n (n : nat) (g : nat -> Qc) : Qc :=
  match n with
  | O => 0
  | S n' => sum_n n' g + g n'
  end.

(** The shapes [simulate] needs: a plant with [x] states, [u] actions and [y]
    observations (its two noise matrices take a noise vector of length [x],
    the width of the drawn noise), an internal model with [b] belief states,
    and gains [L] of shape (u, b) and [K] of shape (b, y). *)
Definition simulate_shapes (x b u y : nat) (self : System) (L K : mat) : bool :=
  is_mat x x (Dynamics.A (dynamics self)) && is_mat x u (Dynamics.B (dynamics self))
  && is_mat y x (Dynamics.C (dynamics self)) && is_mat x x (Dynamics.V (dynamics self))
  && is_mat y x (Dynamics.W (dynamics self))
  && is_mat b b (Actor.A (actor self)) && is_mat b u (Actor.B (actor self))
  && is_mat y b (Actor.C (actor self))
  && is_mat u b L && is_mat b y K.

(** The shapes [conditional_moments] needs: as above, with process noise of
    width [v] and a square observation-noise matrix; all dimensions positive. *)
Definition filter_shapes (x b u y v : nat) (self : System) (L K : mat) : bool :=
  (0 <? x)%nat && (0 <? b)%nat && (0 <? u)%nat && (0 <? y)%nat && (0 <? v)%nat
  && is_mat x x (Dynamics.A (dynamics self)) && is_mat x u (Dynamics.B (dynamics self))
  && is_mat y x (Dynamics.C (dynamics self)) && is_mat x v (Dynamics.V (dynamics self))
  && is_mat y y (Dynamics.W (dynamics self))
  && is_mat b b (Actor.A (actor self)) && is_mat b u (Actor.B (actor self))
  && is_mat y b (Actor.C (actor self))
  && is_mat u b L && is_mat b y K.

(** One step of the simulation recursion on well-shaped data, without the
    shape checks. *)
Definition loop_raw (self : System) (L K epsilon eta : mat) (carry : vec * vec)
  (t : nat) : (vec * vec) * (vec * vec * vec * vec) :=
  let '(x, x_hat) := carry in
  let u := matvec_raw (mneg L) x_hat in
  let x' := vadd_raw (vadd_raw (matvec_raw (Dynamics.A (dynamics self)) x)
                               (matvec_raw (Dynamics.B (dynamics self)) u))
                     (matvec_raw (Dynamics.V (dynamics self)) (row_at t epsilon)) in
  let y := vadd_raw (matvec_raw (Dynamics.C (dynamics self)) x')
                    (matvec_raw (Dynamics.W (dynamics self)) (row_at t eta)) in
  let x_pred := vadd_raw (matvec_raw (Actor.A (actor self)) x_hat)
                         (matvec_raw (Actor.B (actor self)) u) in
  let x_hat' := vadd_raw x_pred
                  (matvec_raw K (vsub_raw y (matvec_raw (Actor.C (actor self)) x_pred))) in
  ((x', x_hat'), (x', x_hat', y, u)).

(** The equations step [t] of a trial satisfies, in terms of the returned
    rows: [xs[t]], [x_hat[t]] and the action [us[t - 1]] of that step. *)
Definition loop_equations (self : System) (L K epsilon eta xs x_hat us : mat) (t : nat)
  : Prop :=
  let u_t := nth (t - 1) us [] in
  let x_pred := vadd_raw (matvec_raw (Actor.A (actor self)) (nth (t - 1) x_hat []))
                         (matvec_raw (Actor.B (actor self)) u_t) in
  let y_t := vadd_raw (matvec_raw (Dynamics.C (dynamics self)) (nth t xs []))
                      (matvec_raw (Dynamics.W (dynamics self)) (row_at t eta)) in
  u_t = matvec_raw (mneg L) (nth (t - 1) x_hat [])
  /\ nth t xs []
     = vadd_raw (vadd_raw (matvec_raw (Dynamics.A (dynamics self)) (nth (t - 1) xs []))
                          (matvec_raw (Dynamics.B (dynamics self)) u_t))
                (matvec_raw (Dynamics.V (dynamics self)) (row_at t epsilon))
  /\ nth t x_hat []
     = vadd_raw x_pred
         (matvec_raw K (vsub_raw y_t (matvec_raw (Actor.C (actor self)) x_pred))).

(** The lengths of the four outputs of a loop step, and the carry an output
    records. *)
Definition step_lengths (x b u y : nat) (o : vec * vec * vec * vec) : Prop :=
  length (fst (fst (fst o))) = x /\ length (snd (fst (fst o))) = b
  /\ length (snd (fst o)) = y /\ length (snd o) = u.

Definition carry_of (o : vec * vec * vec * vec) : vec * vec :=
  (fst (fst (fst o)), snd (fst (fst o))).

(** ** The values the code computes on well-shaped data *)

(** The mean and the covariance a filtering step returns, operation by
    operation as [f] computes them, and the moments conditioned on [xt]. *)
Section StepValues.

Variable linalg_inv : mat -> mat.
Variables (d : nat) (F G mu Sigma xt : mat).

Definition f_mean : mat :=
  madd_raw (matmul_raw mu (transpose F))
           (matmul_raw (matmul_raw (msub_raw xt (cols_upto d mu))
                                   (transpose (linalg_inv (block_upto d Sigma))))
                       (transpose (cols_upto d (matmul_raw F Sigma)))).

Definition f_cov : mat :=
  msub_raw (madd_raw (matmul_raw (matmul_raw F Sigma) (transpose F))
                     (matmul_raw G (transpose G)))
           (matmul_raw (matmul_raw (cols_upto d (matmul_raw F Sigma))
                                   (linalg_inv (block_upto d Sigma)))
                       (rows_upto d (matmul_raw Sigma (transpose F)))).

Definition cond_mean : mat :=
  madd_raw mu (matmul_raw (matmul_raw (msub_raw xt (cols_upto d mu))
                                      (transpose (linalg_inv (block_upto d Sigma))))
                          (transpose (cols_upto d Sigma))).

Definition cond_cov : mat :=
  msub_raw Sigma (matmul_raw (matmul_raw (cols_upto d Sigma)
                                         (linalg_inv (block_upto d Sigma)))
                             (rows_upto d Sigma)).

End StepValues.

(** The arrays of a trial and of a whole simulation: the initial values
    followed by the outputs of the loop steps, stacked over the trials. *)
Section TrialValues.

Variable key : Type.
Variable random_split : key -> key * key.
Variable random_split_num : key -> nat -> list key.
Variable random_normal : key -> nat -> nat -> mat.
Variables (x : nat) (self : System) (L K : mat).

Definition trial_epsilon (rng_key : key) (T w : nat) : mat :=
  random_normal (snd (random_split rng_key)) T w.
Definition trial_eta (rng_key : key) (T w : nat) : mat :=
  random_normal (snd (random_split (fst (random_split rng_key)))) T w.

Definition initial_state (x0 : option vec) : vec :=
  match x0 with None => zeros (xdim self) | Some v => v end.

Definition trial_outs (rng_key : key) (T : nat) (x0 : option vec)
  : list (vec * vec * vec * vec) :=
  match scan_from (loop self L K (trial_epsilon rng_key T x) (trial_eta rng_key T x))
                  (initial_state x0, zeros (bdim self)) (arange 1 T) with
  | Ok (_, outs) => outs
  | Raise _ => []
  end.

Definition trial_x (rng_key : key) (T : nat) (x0 : option vec) : mat :=
  initial_state x0 :: outs_x (trial_outs rng_key T x0).
Definition trial_x_hat (rng_key : key) (T : nat) (x0 : option vec) : mat :=
  zeros (bdim self) :: outs_x_hat (trial_outs rng_key T x0).
Definition trial_y (rng_key : key) (T : nat) (x0 : option vec) : mat :=
  [vadd_raw (matvec_raw (Dynamics.C (dynamics self)) (initial_state x0))
            (matvec_raw (Dynamics.V (dynamics self)) (row_at 0 (trial_eta rng_key T x)))].
Definition trial_u (rng_key : key) (T : nat) (x0 : option vec) : mat :=
  outs_u (trial_outs rng_key T x0).

Definition sim_x (rng_key : key) (n T : nat) (x0 : option vec) : arr3 :=
  stack_axis1 (map (fun k => trial_x k T x0) (random_split_num rng_key n)).
Definition sim_x_hat (rng_key : key) (n T : nat) (x0 : option vec) : arr3 :=
  stack_axis1 (map (fun k => trial_x_hat k T x0) (random_split_num rng_key n)).
Definition sim_y (rng_key : key) (n T : nat) (x0 : option vec) : arr3 :=
  stack_axis1 (map (fun k => trial_y k T x0) (random_split_num rng_key n)).
Definition sim_u (rng_key : key) (n T : nat) (x0 : option vec) : arr3 :=
  stack_axis1 (map (fun k => trial_u k T x0) (random_split_num rng_key n)).

End TrialValues.

(** The carry of the filtering recursion (a mean for each of [n] trials and
    one covariance), the mean it starts from, and its per-step outputs over
    the data [xs]. *)
Section FilterValues.

Variable linalg_inv : mat -> mat.
Variables (x b n d : nat) (self : System) (F G : mat).

Definition carry_ok (c : mat * mat) : Prop :=
  is_mat n (x + b) (fst c) = true /\ is_mat (x + b) (x + b) (snd c) = true.

Definition initial_mean (mu0 : option mat) : mat :=
  match mu0 with
  | None => zeros2 n (nrows (Dynamics.A (dynamics self)) + nrows (Actor.A (actor self)))
  | Some m => m
  end.

Definition filter_outs (mu0 : option mat) (xs : arr3) : list (mat * mat) :=
  match scan_from (f linalg_inv F G d) (initial_mean mu0, matmul_raw G (transpose G)) xs with
  | Ok (_, outs) => outs
  | Raise _ => []
  end.

End FilterValues.

(** ** Further notions used in the properties *)

(** The row a product [r @ B] holds for the row [r] of the left factor. *)
Definition rowmul (r : vec) (B : mat) : vec :=
  map (fun j => dot r (col j B)) (seq 0 (ncols B)).

(** Variants of the demo model. *)
Module Variants.

(** Three observations of the two states. *)
Definition C3 : mat := [[1; 0]; [0; 1]; [1; 1]].
Definition W3 : mat := [[Sample.q 6 1; 0]; [0; Sample.q 3 1]; [0; 0]].
Definition K3 : mat := [[Sample.q 1 4; 0; 0]; [0; Sample.q 1 5; 0]].
Definition lqg_three_observations : System :=
  Build_System_
    (Actor.Build Sample.A2 Sample.B2 C3 Sample.V2 W3 Sample.Q2 Sample.R2)
    (Dynamics.Build Sample.A2 Sample.B2 C3 Sample.V2 W3).

(** Three sources of process noise for the two states. *)
Definition V23 : mat := [[1; 0; 0]; [0; Sample.q 1 2; 1]].
Definition lqg_three_noise_sources : System :=
  Build_System_
    (Actor.Build Sample.A2 Sample.B2 Sample.C2 V23 Sample.W2 Sample.Q2 Sample.R2)
    (Dynamics.Build Sample.A2 Sample.B2 Sample.C2 V23 Sample.W2).

(** Data of one trial with five coordinates, two trials of the demo's two
    coordinates, and the second of them alone. *)
Definition xdata_wide : arr3 := [[[1; 0; 0; 0; 0]]; [[0; 1; 0; 0; 0]]].
Definition xdata_pair : arr3 :=
  [[[1; Sample.q 1 2]; [0; 1]]; [[Sample.q 1 3; Sample.q 1 4]; [1; 1]];
   [[Sample.q 1 5; 0]; [Sample.q 1 2; 0]]].
Definition xdata_second : arr3 := [[[0; 1]]; [[1; 1]]; [[Sample.q 1 2; 0]]].

(** The demo's data with another last step. *)
Definition xdata_late : arr3 :=
  [[[1; Sample.q 1 2]]; [[Sample.q 1 3; Sample.q 1 4]]; [[1; 1]]].

(** The sample random-number library with a process-wide generator whose
    state is a counter. *)
Definition counting : sampler Sample.key nat :=
  Build_sampler Sample.random_split Sample.random_split_num Sample.random_normal
                (fun r c w => (Sample.random_normal w r c, S w)).

End Variants.

(** * Properties *)

(** ** The error monad *)

Lemma bind_Ok {A B : Type} (a : A) (k : A -> result B) : bind (Ok a) k = k a.
Proof. reflexivity. Qed.

Lemma bind_Raise {A B : Type} (e : exn) (k : A -> result B) : bind (Raise e) k = Raise e.
Proof. reflexivity. Qed.

Lemma Ok_inj {A : Type} (a a' : A) : Ok a = Ok a' -> a = a'.
Proof. now inversion 1. Qed.

Lemma bind_inv {A B : Type} (m : result A) (k : A -> result B) (b : B) :
  bind m k = Ok b -> exists a, m = Ok a /\ k a = Ok b.
Proof. destruct m as [a|e]; simpl; intros H; [eauto | discriminate]. Qed.

Lemma exn_unique (e : exn) : e = ShapeMismatch.
Proof. destruct e; reflexivity. Qed.

Lemma not_ok_raise {A : Type} (m : result A) : is_ok m = false -> m = Raise ShapeMismatch.
Proof. destruct m as [a|e]; simpl; intros H; [discriminate | now rewrite (exn_unique e)]. Qed.

Lemma mapM_ok {A B : Type} (g : A -> result B) (h : A -> B) (l : list A) :
  (forall a, In a l -> g a = Ok (h a)) -> mapM g l = Ok (map h l).
Proof.
  induction l as [|a l IH]; simpl; intros H; [reflexivity|].
  rewrite (H a) by now left. simpl. rewrite IH by (intros; apply H; now right).
  reflexivity.
Qed.

Lemma mapM_ext {A B : Type} (g g' : A -> result B) (l : list A) :
  (forall a, In a l -> g a = g' a) -> mapM g l = mapM g' l.
Proof.
  induction l as [|a l IH]; simpl; intros H; [reflexivity|].
  rewrite (H a) by now left. rewrite IH by (intros; apply H; now right).
  reflexivity.
Qed.

(** ** Sums *)

Lemma sum_n_ext n (g h : nat -> Qc) :
  (forall k, (k < n)%nat -> g k = h k) -> sum_n n g = sum_n n h.
Proof.
  induction n as [|n IH]; simpl; intros E; [reflexivity|].
  rewrite IH by (intros; apply E; lia). now rewrite E by lia.
Qed.

Lemma sum_n_add n (g h : nat -> Qc) :
  sum_n n (fun k => g k + h k) = sum_n n g + sum_n n h.
Proof. induction n as [|n IH]; simpl; [ring | rewrite IH; ring]. Qed.

Lemma sum_n_sub n (g h : nat -> Qc) :
  sum_n n (fun k => g k - h k) = sum_n n g - sum_n n h.
Proof. induction n as [|n IH]; simpl; [ring | rewrite IH; ring]. Qed.

Lemma sum_n_scal_l n (c : Qc) (g : nat -> Qc) :
  sum_n n (fun k => c * g k) = c * sum_n n g.
Proof. induction n as [|n IH]; simpl; [ring | rewrite IH; ring]. Qed.

Lemma sum_n_scal_r n (c : Qc) (g : nat -> Qc) :
  sum_n n (fun k => g k * c) = sum_n n g * c.
Proof. induction n as [|n IH]; simpl; [ring | rewrite IH; ring]. Qed.

Lemma sum_n_zero n : sum_n n (fun _ => 0) = 0.
Proof. induction n as [|n IH]; simpl; [reflexivity | rewrite IH; ring]. Qed.

Lemma sum_n_swap n m (g : nat -> nat -> Qc) :
  sum_n n (fun i => sum_n m (fun j => g i j)) = sum_n m (fun j => sum_n n (fun i => g i j)).
Proof.
  induction n as [|n IH]; simpl.
  - now rewrite sum_n_zero.
  - now rewrite IH, <- sum_n_add.
Qed.

Lemma sum_n_head n (g : nat -> Qc) :
  sum_n (S n) g = g O + sum_n n (fun k => g (S k)).
Proof.
  induction n as [|n IH]; [simpl; ring|].
  change (sum_n (S (S n)) g) with (sum_n (S n) g + g (S n)).
  rewrite IH. simpl. ring.
Qed.

Lemma dot_cons a b (u v : vec) : dot (a :: u) (b :: v) = a * b + dot u v.
Proof. reflexivity. Qed.

Lemma dot_sum n (u v : vec) :
  length u = n -> length v = n -> dot u v = sum_n n (fun k => nth k u 0 * nth k v 0).
Proof.
  revert u v. induction n as [|n IH]; intros [|a u] [|b v] Hu Hv; try discriminate.
  - reflexivity.
  - injection Hu as Hu. injection Hv as Hv.
    rewrite sum_n_head, dot_cons, (IH u v Hu Hv). reflexivity.
Qed.

(** ** Shapes and entries *)

Lemma nth_map_lt {A B : Type} (g : A -> B) (l : list A) {i : nat} (d : A) (d' : B) :
  (i < length l)%nat -> nth i (map g l) d' = g (nth i l d).
Proof.
  intros Hi. rewrite (nth_indep _ d' (g d)) by (rewrite length_map; exact Hi).
  apply map_nth.
Qed.

Lemma nth_map_seq {B : Type} (g : nat -> B) (n i : nat) (d' : B) :
  (i < n)%nat -> nth i (map g (seq 0 n)) d' = g i.
Proof.
  intros Hi. rewrite (nth_map_lt g (seq 0 n) O d') by (rewrite length_seq; exact Hi).
  now rewrite seq_nth by exact Hi.
Qed.

Lemma length_map2 {A B C : Type} (g : A -> B -> C) (u : list A) (v : list B) :
  length (map2 g u v) = Nat.min (length u) (length v).
Proof.
  revert v. induction u as [|a u IH]; intros [|b v]; simpl; try reflexivity.
  now rewrite IH.
Qed.

Lemma nth_map2 {A B C : Type} (g : A -> B -> C) (u : list A) (v : list B) {i} da db dc :
  (i < length u)%nat -> (i < length v)%nat ->
  nth i (map2 g u v) dc = g (nth i u da) (nth i v db).
Proof.
  revert v i. induction u as [|a u IH]; intros [|b v] [|i]; simpl; intros Hu Hv;
    try lia; try reflexivity.
  apply IH; lia.
Qed.

Lemma is_mat_iff r c (A : mat) :
  is_mat r c A = true <-> length A = r /\ (forall row, In row A -> length row = c).
Proof.
  unfold is_mat. rewrite andb_true_iff, Nat.eqb_eq, forallb_forall.
  split; intros [H1 H2]; split; auto; intros row Hin.
  - now apply Nat.eqb_eq, H2.
  - now apply Nat.eqb_eq, H2.
Qed.

Lemma is_mat_length {r c} {A : mat} : is_mat r c A = true -> length A = r.
Proof. intros H. now apply is_mat_iff in H. Qed.

Lemma is_mat_row {r c} {A : mat} {i} :
  is_mat r c A = true -> (i < r)%nat -> length (nth i A []) = c.
Proof.
  intros H Hi. apply is_mat_iff in H as [H1 H2]. apply H2, nth_In. lia.
Qed.

Lemma is_mat_ncols {r c} {A : mat} : is_mat r c A = true -> (0 < r)%nat -> ncols A = c.
Proof.
  intros H Hr. unfold ncols. rewrite <- (is_mat_row H Hr).
  now destruct A.
Qed.

Lemma is_mat_intro r c (A : mat) :
  length A = r -> (forall i, (i < r)%nat -> length (nth i A []) = c) -> is_mat r c A = true.
Proof.
  intros H1 H2. apply is_mat_iff. split; [exact H1|].
  intros row Hin. destruct (In_nth _ _ [] Hin) as (i & Hi & <-). apply H2. now rewrite <- H1.
Qed.

Lemma mat_ext r c (A B : mat) :
  is_mat r c A = true -> is_mat r c B = true ->
  (forall i j, (i < r)%nat -> (j < c)%nat -> ent A i j = ent B i j) -> A = B.
Proof.
  intros HA HB E.
  apply (nth_ext A B [] []).
  - now rewrite (is_mat_length HA), (is_mat_length HB).
  - intros i Hi. rewrite (is_mat_length HA) in Hi.
    apply (nth_ext _ _ 0 0).
    + now rewrite (is_mat_row HA Hi), (is_mat_row HB Hi).
    + intros j Hj. rewrite (is_mat_row HA Hi) in Hj. now apply E.
Qed.

Lemma col_length j (A : mat) : length (col j A) = length A.
Proof. apply length_map. Qed.

Lemma nth_col {r c} {A : mat} {i} j :
  is_mat r c A = true -> (i < r)%nat -> nth i (col j A) 0 = ent A i j.
Proof.
  intros HA Hi. unfold col, ent.
  now rewrite (nth_map_lt _ A [] 0) by (rewrite (is_mat_length HA); exact Hi).
Qed.

(** *** Products *)

Lemma matmul_raw_shape {r k c} {A B : mat} :
  is_mat r k A = true -> is_mat k c B = true -> (0 < k)%nat ->
  is_mat r c (matmul_raw A B) = true.
Proof.
  intros HA HB Hk. apply is_mat_intro.
  - unfold matmul_raw. now rewrite length_map, (is_mat_length HA).
  - intros i Hi. unfold matmul_raw.
    rewrite (nth_map_lt _ A [] []) by (rewrite (is_mat_length HA); exact Hi).
    now rewrite length_map, length_seq, (is_mat_ncols HB Hk).
Qed.

Lemma ent_matmul {r k c} {A B : mat} {i j} :
  is_mat r k A = true -> is_mat k c B = true -> (0 < k)%nat ->
  (i < r)%nat -> (j < c)%nat ->
  ent (matmul_raw A B) i j = sum_n k (fun l => ent A i l * ent B l j).
Proof.
  intros HA HB Hk Hi Hj. unfold ent at 1, matmul_raw.
  rewrite (nth_map_lt _ A [] []) by (rewrite (is_mat_length HA); exact Hi).
  rewrite (is_mat_ncols HB Hk), nth_map_seq by exact Hj.
  rewrite (dot_sum k).
  - apply sum_n_ext. intros l Hl. now rewrite (nth_col j HB Hl).
  - exact (is_mat_row HA Hi).
  - now rewrite col_length, (is_mat_length HB).
Qed.

Lemma matmul_ok {r k} {A B : mat} :
  is_mat r k A = true -> length B = k -> matmul A B = Ok (matmul_raw A B).
Proof.
  intros HA HB. unfold matmul.
  replace (forallb (fun r0 => length r0 =? nrows B) A) with true; [reflexivity|].
  symmetry. apply forallb_forall. intros row Hin. apply Nat.eqb_eq.
  apply is_mat_iff in HA as [_ HA]. unfold nrows. rewrite HB. now apply HA.
Qed.

Lemma transpose_shape {r c} {A : mat} :
  is_mat r c A = true -> (0 < r)%nat -> is_mat c r (transpose A) = true.
Proof.
  intros HA Hr. apply is_mat_intro.
  - unfold transpose. now rewrite length_map, length_seq, (is_mat_ncols HA Hr).
  - intros i Hi. unfold transpose.
    rewrite (is_mat_ncols HA Hr), nth_map_seq by exact Hi.
    now rewrite col_length, (is_mat_length HA).
Qed.

Lemma ent_transpose {r c} {A : mat} {i j} :
  is_mat r c A = true -> (i < c)%nat -> (j < r)%nat ->
  ent (transpose A) i j = ent A j i.
Proof.
  intros HA Hi Hj. unfold ent at 1, transpose.
  rewrite (is_mat_ncols HA) by lia. rewrite nth_map_seq by exact Hi.
  exact (nth_col i HA Hj).
Qed.

(** *** Elementwise operations *)

Lemma broadcast_to_same {A : Type} (k : nat) (l : list A) :
  length l = k -> broadcast_to k l = Some l.
Proof. intros H. unfold broadcast_to. now rewrite H, Nat.eqb_refl. Qed.

Lemma broadcast_len_same k : broadcast_len k k = k.
Proof. unfold broadcast_len. now destruct (k =? 1). Qed.

Lemma vzip_ok (g : Qc -> Qc -> Qc) {k} {u v : vec} :
  length u = k -> length v = k -> vzip g u v = Ok (map2 g u v).
Proof.
  intros Hu Hv. unfold vzip. rewrite Hu, Hv, broadcast_len_same.
  now rewrite (broadcast_to_same k u Hu), (broadcast_to_same k v Hv).
Qed.

Lemma map_combine_map2 {A B C : Type} (g : A -> B -> C) (u : list A) (v : list B) :
  map (fun p => g (fst p) (snd p)) (combine u v) = map2 g u v.
Proof.
  revert v. induction u as [|a u IH]; intros [|b v]; simpl; try reflexivity.
  now rewrite IH.
Qed.

Lemma mzip_ok (g : Qc -> Qc -> Qc) {r c} {A B : mat} :
  is_mat r c A = true -> is_mat r c B = true -> mzip g A B = Ok (map2 (map2 g) A B).
Proof.
  intros HA HB. unfold mzip.
  rewrite (is_mat_length HA), (is_mat_length HB), broadcast_len_same.
  rewrite (broadcast_to_same r A (is_mat_length HA)).
  rewrite (broadcast_to_same r B (is_mat_length HB)).
  rewrite <- map_combine_map2.
  apply mapM_ok. intros [u v] Hin. cbn [fst snd].
  apply is_mat_iff in HA as [_ HA]. apply is_mat_iff in HB as [_ HB].
  apply (@vzip_ok g c).
  - apply HA. eapply in_combine_l; eauto.
  - apply HB. eapply in_combine_r; eauto.
Qed.

Lemma madd_ok {r c} {A B : mat} :
  is_mat r c A = true -> is_mat r c B = true -> madd A B = Ok (madd_raw A B).
Proof. apply mzip_ok. Qed.

Lemma msub_ok {r c} {A B : mat} :
  is_mat r c A = true -> is_mat r c B = true -> msub A B = Ok (msub_raw A B).
Proof. apply mzip_ok. Qed.

Lemma map2_rows_shape (g : Qc -> Qc -> Qc) {r c} {A B : mat} :
  is_mat r c A = true -> is_mat r c B = true ->
  is_mat r c (map2 (map2 g) A B) = true.
Proof.
  intros HA HB. apply is_mat_intro.
  - rewrite length_map2, (is_mat_length HA), (is_mat_length HB). lia.
  - intros i Hi.
    rewrite (nth_map2 _ A B [] [] [])
      by (rewrite ?(is_mat_length HA), ?(is_mat_length HB); exact Hi).
    rewrite length_map2, (is_mat_row HA Hi), (is_mat_row HB Hi). lia.
Qed.

Lemma ent_map2_rows (g : Qc -> Qc -> Qc) {r c} {A B : mat} {i j} :
  is_mat r c A = true -> is_mat r c B = true -> (i < r)%nat -> (j < c)%nat ->
  ent (map2 (map2 g) A B) i j = g (ent A i j) (ent B i j).
Proof.
  intros HA HB Hi Hj. unfold ent.
  rewrite (nth_map2 _ A B [] [] [])
    by (rewrite ?(is_mat_length HA), ?(is_mat_length HB); exact Hi).
  apply nth_map2; rewrite ?(is_mat_row HA Hi), ?(is_mat_row HB Hi); exact Hj.
Qed.

Lemma madd_raw_shape {r c} {A B : mat} :
  is_mat r c A = true -> is_mat r c B = true -> is_mat r c (madd_raw A B) = true.
Proof. apply map2_rows_shape. Qed.

Lemma msub_raw_shape {r c} {A B : mat} :
  is_mat r c A = true -> is_mat r c B = true -> is_mat r c (msub_raw A B) = true.
Proof. apply map2_rows_shape. Qed.

Lemma ent_madd {r c} {A B : mat} {i j} :
  is_mat r c A = true -> is_mat r c B = true -> (i < r)%nat -> (j < c)%nat ->
  ent (madd_raw A B) i j = ent A i j + ent B i j.
Proof. apply ent_map2_rows. Qed.

Lemma ent_msub {r c} {A B : mat} {i j} :
  is_mat r c A = true -> is_mat r c B = true -> (i < r)%nat -> (j < c)%nat ->
  ent (msub_raw A B) i j = ent A i j - ent B i j.
Proof. apply ent_map2_rows. Qed.

(** *** Slices *)

Lemma in_firstn {A : Type} (d : nat) (l : list A) (a : A) : In a (firstn d l) -> In a l.
Proof.
  intros H. rewrite <- (firstn_skipn d l). apply in_or_app. now left.
Qed.

Lemma rows_upto_shape {r c d} {A : mat} :
  is_mat r c A = true -> (d <= r)%nat -> is_mat d c (rows_upto d A) = true.
Proof.
  intros HA Hd. apply is_mat_iff in HA as [H1 H2]. apply is_mat_iff. split.
  - unfold rows_upto. rewrite length_firstn. lia.
  - intros row Hin. apply H2. eapply in_firstn; eauto.
Qed.

Lemma cols_upto_shape {r c d} {A : mat} :
  is_mat r c A = true -> (d <= c)%nat -> is_mat r d (cols_upto d A) = true.
Proof.
  intros HA Hd. apply is_mat_iff in HA as [H1 H2]. apply is_mat_iff. split.
  - unfold cols_upto. now rewrite length_map.
  - intros row Hin. unfold cols_upto in Hin. apply in_map_iff in Hin as (row' & <- & Hin).
    rewrite length_firstn, (H2 _ Hin). lia.
Qed.

Lemma block_upto_shape {r c d} {A : mat} :
  is_mat r c A = true -> (d <= r)%nat -> (d <= c)%nat ->
  is_mat d d (block_upto d A) = true.
Proof.
  intros HA Hr Hc. unfold block_upto.
  apply (@cols_upto_shape d c); [now apply (@rows_upto_shape r)|exact Hc].
Qed.

Lemma nth_firstn_lt {A : Type} (l : list A) {d i : nat} (a : A) :
  (i < d)%nat -> nth i (firstn d l) a = nth i l a.
Proof.
  revert d i. induction l as [|b l IH]; intros [|d] [|i] H; simpl; try lia; try reflexivity.
  apply IH. lia.
Qed.

Lemma ent_rows_upto {d} (A : mat) {i} j :
  (i < d)%nat -> ent (rows_upto d A) i j = ent A i j.
Proof. intros Hi. unfold ent, rows_upto. now rewrite nth_firstn_lt. Qed.

Lemma ent_cols_upto {r c d} {A : mat} {i j} :
  is_mat r c A = true -> (i < r)%nat -> (j < d)%nat ->
  ent (cols_upto d A) i j = ent A i j.
Proof.
  intros HA Hi Hj. unfold ent, cols_upto.
  rewrite (nth_map_lt _ A [] []) by (rewrite (is_mat_length HA); exact Hi).
  now rewrite nth_firstn_lt.
Qed.

(** Shape goals are solved by following the structure of the expression. *)
Ltac shapes :=
  lazymatch goal with
  | |- is_mat _ _ (matmul_raw _ _) = true =>
      eapply matmul_raw_shape; [shapes | shapes | lia]
  | |- is_mat _ _ (transpose _) = true => apply transpose_shape; [shapes | lia]
  | |- is_mat _ _ (madd_raw _ _) = true => apply madd_raw_shape; shapes
  | |- is_mat _ _ (msub_raw _ _) = true => apply msub_raw_shape; shapes
  | |- is_mat _ _ (cols_upto _ _) = true => eapply cols_upto_shape; [shapes | lia]
  | |- is_mat _ _ (rows_upto _ _) = true => eapply rows_upto_shape; [shapes | lia]
  | |- is_mat _ _ (block_upto _ _) = true =>
      eapply block_upto_shape; [shapes | lia | lia]
  | |- _ => eassumption
  end.

(** ** Matrix algebra *)

Lemma matmul_assoc {r k l c} {A B C : mat} :
  is_mat r k A = true -> is_mat k l B = true -> is_mat l c C = true ->
  (0 < k)%nat -> (0 < l)%nat ->
  matmul_raw (matmul_raw A B) C = matmul_raw A (matmul_raw B C).
Proof.
  intros HA HB HC Hk Hl.
  assert (HAB : is_mat r l (matmul_raw A B) = true) by shapes.
  assert (HBC : is_mat k c (matmul_raw B C) = true) by shapes.
  apply (mat_ext r c); [shapes | shapes |]. intros i j Hi Hj.
  rewrite (ent_matmul HAB HC Hl Hi Hj), (ent_matmul HA HBC Hk Hi Hj).
  rewrite (sum_n_ext l _ (fun m => sum_n k (fun p => ent A i p * ent B p m * ent C m j))).
  2:{ intros m Hm. rewrite (ent_matmul HA HB Hk Hi Hm). now rewrite sum_n_scal_r. }
  rewrite sum_n_swap. apply sum_n_ext. intros p Hp.
  rewrite (ent_matmul HB HC Hl Hp Hj), <- sum_n_scal_l.
  apply sum_n_ext. intros m Hm. ring.
Qed.

Lemma matmul_madd_distr_r {r k c} {X Y M : mat} :
  is_mat r k X = true -> is_mat r k Y = true -> is_mat k c M = true -> (0 < k)%nat ->
  matmul_raw (madd_raw X Y) M = madd_raw (matmul_raw X M) (matmul_raw Y M).
Proof.
  intros HX HY HM Hk.
  assert (HXY : is_mat r k (madd_raw X Y) = true) by shapes.
  assert (HXM : is_mat r c (matmul_raw X M) = true) by shapes.
  assert (HYM : is_mat r c (matmul_raw Y M) = true) by shapes.
  apply (mat_ext r c); [shapes | shapes |]. intros i j Hi Hj.
  rewrite (ent_matmul HXY HM Hk Hi Hj), (ent_madd HXM HYM Hi Hj).
  rewrite (ent_matmul HX HM Hk Hi Hj), (ent_matmul HY HM Hk Hi Hj), <- sum_n_add.
  apply sum_n_ext. intros p Hp. rewrite (ent_madd HX HY Hi Hp). ring.
Qed.

Lemma matmul_msub_distr_r {r k c} {X Y M : mat} :
  is_mat r k X = true -> is_mat r k Y = true -> is_mat k c M = true -> (0 < k)%nat ->
  matmul_raw (msub_raw X Y) M = msub_raw (matmul_raw X M) (matmul_raw Y M).
Proof.
  intros HX HY HM Hk.
  assert (HXY : is_mat r k (msub_raw X Y) = true) by shapes.
  assert (HXM : is_mat r c (matmul_raw X M) = true) by shapes.
  assert (HYM : is_mat r c (matmul_raw Y M) = true) by shapes.
  apply (mat_ext r c); [shapes | shapes |]. intros i j Hi Hj.
  rewrite (ent_matmul HXY HM Hk Hi Hj), (ent_msub HXM HYM Hi Hj).
  rewrite (ent_matmul HX HM Hk Hi Hj), (ent_matmul HY HM Hk Hi Hj), <- sum_n_sub.
  apply sum_n_ext. intros p Hp. rewrite (ent_msub HX HY Hi Hp). ring.
Qed.

Lemma matmul_msub_distr_l {r k c} {M X Y : mat} :
  is_mat r k M = true -> is_mat k c X = true -> is_mat k c Y = true -> (0 < k)%nat ->
  matmul_raw M (msub_raw X Y) = msub_raw (matmul_raw M X) (matmul_raw M Y).
Proof.
  intros HM HX HY Hk.
  assert (HXY : is_mat k c (msub_raw X Y) = true) by shapes.
  assert (HMX : is_mat r c (matmul_raw M X) = true) by shapes.
  assert (HMY : is_mat r c (matmul_raw M Y) = true) by shapes.
  apply (mat_ext r c); [shapes | shapes |]. intros i j Hi Hj.
  rewrite (ent_matmul HM HXY Hk Hi Hj), (ent_msub HMX HMY Hi Hj).
  rewrite (ent_matmul HM HX Hk Hi Hj), (ent_matmul HM HY Hk Hi Hj), <- sum_n_sub.
  apply sum_n_ext. intros p Hp. rewrite (ent_msub HX HY Hp Hj). ring.
Qed.

Lemma transpose_matmul {r k c} {A B : mat} :
  is_mat r k A = true -> is_mat k c B = true -> (0 < r)%nat -> (0 < k)%nat ->
  transpose (matmul_raw A B) = matmul_raw (transpose B) (transpose A).
Proof.
  intros HA HB Hr Hk.
  assert (HAB : is_mat r c (matmul_raw A B) = true) by shapes.
  assert (HAt : is_mat k r (transpose A) = true) by shapes.
  assert (HBt : is_mat c k (transpose B) = true) by shapes.
  apply (mat_ext c r); [shapes | shapes |]. intros i j Hi Hj.
  rewrite (ent_transpose HAB Hi Hj), (ent_matmul HA HB Hk Hj Hi).
  rewrite (ent_matmul HBt HAt Hk Hi Hj).
  apply sum_n_ext. intros p Hp.
  rewrite (ent_transpose HB Hi Hp), (ent_transpose HA Hp Hj). ring.
Qed.

Lemma cols_upto_matmul {r k c d} {A B : mat} :
  is_mat r k A = true -> is_mat k c B = true -> (0 < k)%nat -> (d <= c)%nat ->
  cols_upto d (matmul_raw A B) = matmul_raw A (cols_upto d B).
Proof.
  intros HA HB Hk Hd.
  assert (HAB : is_mat r c (matmul_raw A B) = true) by shapes.
  assert (HBd : is_mat k d (cols_upto d B) = true) by shapes.
  apply (mat_ext r d); [shapes | shapes |]. intros i j Hi Hj.
  rewrite (ent_cols_upto HAB Hi Hj), (ent_matmul HA HB Hk Hi) by lia.
  rewrite (ent_matmul HA HBd Hk Hi Hj).
  apply sum_n_ext. intros p Hp. now rewrite (ent_cols_upto HB Hp Hj).
Qed.

Lemma rows_upto_matmul d (A B : mat) :
  rows_upto d (matmul_raw A B) = matmul_raw (rows_upto d A) B.
Proof. unfold rows_upto, matmul_raw. apply firstn_map. Qed.

Lemma madd_msub_swap {r c} {X G Y : mat} :
  is_mat r c X = true -> is_mat r c G = true -> is_mat r c Y = true ->
  madd_raw (msub_raw X Y) G = msub_raw (madd_raw X G) Y.
Proof.
  intros HX HG HY.
  assert (HXY : is_mat r c (msub_raw X Y) = true) by shapes.
  assert (HXG : is_mat r c (madd_raw X G) = true) by shapes.
  apply (mat_ext r c); [shapes | shapes |]. intros i j Hi Hj.
  rewrite (ent_madd HXY HG Hi Hj), (ent_msub HXG HY Hi Hj).
  rewrite (ent_msub HX HY Hi Hj), (ent_madd HX HG Hi Hj). ring.
Qed.

Lemma matmul_ok2 {r k c} {A B : mat} :
  is_mat r k A = true -> is_mat k c B = true -> matmul A B = Ok (matmul_raw A B).
Proof. intros HA HB. exact (matmul_ok HA (is_mat_length HB)). Qed.

(** ** The filtering step *)

Section FilterStep.

Variable linalg_inv : mat -> mat.
Variables (n m k d : nat) (F G mu Sigma xt : mat).
Hypothesis Hd : (0 < d <= m)%nat.
Hypothesis Hk : (0 < k)%nat.
Hypothesis HF : is_mat m m F = true.
Hypothesis HG : is_mat m k G = true.
Hypothesis Hmu : is_mat n m mu = true.
Hypothesis HSigma : is_mat m m Sigma = true.
Hypothesis Hxt : is_mat n d xt = true.
Hypothesis Hinv : is_mat d d (linalg_inv (block_upto d Sigma)) = true.

Local Abbreviation P := (linalg_inv (block_upto d Sigma)).
Local Abbreviation innov := (msub_raw xt (cols_upto d mu)).
Local Abbreviation iS := (matmul_raw innov (transpose P)).
Local Abbreviation FS := (matmul_raw F Sigma).
Local Abbreviation GGt := (matmul_raw G (transpose G)).
Local Abbreviation f_mean := (f_mean linalg_inv d F mu Sigma xt).
Local Abbreviation f_cov := (f_cov linalg_inv d F G Sigma).
Local Abbreviation cond_mean := (cond_mean linalg_inv d mu Sigma xt).
Local Abbreviation cond_cov := (cond_cov linalg_inv d Sigma).

Lemma f_ok : f linalg_inv F G d (mu, Sigma) xt = Ok ((f_mean, f_cov), (f_mean, f_cov)).
Proof.
  assert (Hm : (0 < m)%nat) by lia.
  assert (HFt : is_mat m m (transpose F) = true) by shapes.
  assert (HGt : is_mat k m (transpose G) = true) by shapes.
  assert (Hmud : is_mat n d (cols_upto d mu) = true) by shapes.
  assert (Hin : is_mat n d innov = true) by shapes.
  assert (HPt : is_mat d d (transpose P) = true) by shapes.
  assert (HiS : is_mat n d iS = true) by shapes.
  assert (HFS : is_mat m m FS = true) by shapes.
  assert (HFSd : is_mat m d (cols_upto d FS) = true) by shapes.
  assert (HFSdt : is_mat d m (transpose (cols_upto d FS)) = true) by shapes.
  assert (HSFt : is_mat m m (matmul_raw Sigma (transpose F)) = true) by shapes.
  assert (Hgain : is_mat m d (matmul_raw (cols_upto d FS) P) = true) by shapes.
  assert (HGG : is_mat m m GGt = true) by shapes.
  unfold f, f_mean, f_cov.
  rewrite (matmul_ok2 Hmu HFt). cbn [bind].
  rewrite (msub_ok Hxt Hmud). cbn [bind].
  rewrite (matmul_ok2 Hin HPt). cbn [bind].
  rewrite (matmul_ok2 HF HSigma). cbn [bind].
  rewrite (matmul_ok2 HiS HFSdt). cbn [bind].
  rewrite (@madd_ok n m) by shapes. cbn [bind].
  rewrite (matmul_ok2 HFS HFt). cbn [bind].
  rewrite (matmul_ok2 HG HGt). cbn [bind].
  rewrite (@madd_ok m m) by shapes. cbn [bind].
  rewrite (matmul_ok2 HFSd Hinv). cbn [bind].
  rewrite (matmul_ok2 HSigma HFt). cbn [bind].
  rewrite (@matmul_ok2 m d m) by shapes. cbn [bind].
  rewrite (@msub_ok m m) by shapes. cbn [bind].
  reflexivity.
Qed.

Lemma f_mean_shape : is_mat n m f_mean = true.
Proof.
  assert (Hm : (0 < m)%nat) by lia.
  unfold f_mean. shapes.
Qed.

Lemma f_cov_shape : is_mat m m f_cov = true.
Proof.
  assert (Hm : (0 < m)%nat) by lia.
  unfold f_cov. shapes.
Qed.

Lemma condition_ok :
  condition linalg_inv d (mu, Sigma) xt = Ok (cond_mean, cond_cov).
Proof.
  assert (Hm : (0 < m)%nat) by lia.
  assert (Hmud : is_mat n d (cols_upto d mu) = true) by shapes.
  assert (Hin : is_mat n d innov = true) by shapes.
  assert (HPt : is_mat d d (transpose P) = true) by shapes.
  assert (HiS : is_mat n d iS = true) by shapes.
  assert (HSd : is_mat m d (cols_upto d Sigma) = true) by shapes.
  assert (HSdt : is_mat d m (transpose (cols_upto d Sigma)) = true) by shapes.
  assert (HSr : is_mat d m (rows_upto d Sigma) = true) by shapes.
  unfold condition, cond_mean, cond_cov.
  rewrite (msub_ok Hxt Hmud). cbn [bind].
  rewrite (matmul_ok2 Hin HPt). cbn [bind].
  rewrite (matmul_ok2 HiS HSdt). cbn [bind].
  rewrite (@madd_ok n m) by shapes. cbn [bind].
  rewrite (matmul_ok2 HSd Hinv). cbn [bind].
  rewrite (@matmul_ok2 m d m) by shapes. cbn [bind].
  rewrite (@msub_ok m m) by shapes. cbn [bind].
  reflexivity.
Qed.

Lemma cond_mean_shape : is_mat n m cond_mean = true.
Proof.
  assert (Hm : (0 < m)%nat) by lia.
  unfold cond_mean. shapes.
Qed.

Lemma cond_cov_shape : is_mat m m cond_cov = true.
Proof.
  assert (Hm : (0 < m)%nat) by lia.
  unfold cond_cov. shapes.
Qed.

Lemma predict_ok (mu1 Sigma1 : mat) :
  is_mat n m mu1 = true -> is_mat m m Sigma1 = true ->
  predict F G (mu1, Sigma1)
  = Ok (matmul_raw mu1 (transpose F),
        madd_raw (matmul_raw (matmul_raw F Sigma1) (transpose F)) GGt).
Proof.
  intros H1 H2.
  assert (Hm : (0 < m)%nat) by lia.
  assert (HFt : is_mat m m (transpose F) = true) by shapes.
  assert (HGt : is_mat k m (transpose G) = true) by shapes.
  assert (HFS1 : is_mat m m (matmul_raw F Sigma1) = true) by shapes.
  unfold predict.
  rewrite (matmul_ok2 H1 HFt). cbn [bind].
  rewrite (matmul_ok2 HF H2). cbn [bind].
  rewrite (matmul_ok2 HFS1 HFt). cbn [bind].
  rewrite (matmul_ok2 HG HGt). cbn [bind].
  rewrite (@madd_ok m m) by shapes. cbn [bind].
  reflexivity.
Qed.

(** Predicting the conditioned mean gives the mean computed by [f]. *)
Lemma predict_cond_mean : matmul_raw cond_mean (transpose F) = f_mean.
Proof.
  assert (Hm : (0 < m)%nat) by lia.
  assert (HFt : is_mat m m (transpose F) = true) by shapes.
  assert (HiS : is_mat n d iS = true) by shapes.
  assert (HSd : is_mat m d (cols_upto d Sigma) = true) by shapes.
  assert (HSdt : is_mat d m (transpose (cols_upto d Sigma)) = true) by shapes.
  assert (Hcorr : is_mat n m (matmul_raw iS (transpose (cols_upto d Sigma))) = true)
    by shapes.
  unfold cond_mean, f_mean.
  rewrite (matmul_madd_distr_r Hmu Hcorr HFt Hm).
  rewrite (matmul_assoc HiS HSdt HFt) by lia.
  rewrite <- (transpose_matmul HF HSd Hm Hm).
  rewrite (cols_upto_matmul HF HSigma Hm) by lia.
  reflexivity.
Qed.

(** Predicting the conditioned covariance gives the covariance computed by [f]. *)
Lemma predict_cond_cov :
  madd_raw (matmul_raw (matmul_raw F cond_cov) (transpose F)) GGt = f_cov.
Proof.
  assert (Hm : (0 < m)%nat) by lia.
  assert (HFt : is_mat m m (transpose F) = true) by shapes.
  assert (HSd : is_mat m d (cols_upto d Sigma) = true) by shapes.
  assert (HSr : is_mat d m (rows_upto d Sigma) = true) by shapes.
  assert (Hg0 : is_mat m d (matmul_raw (cols_upto d Sigma) P) = true)
    by shapes.
  assert (Hred : is_mat m m (matmul_raw (matmul_raw (cols_upto d Sigma) P)
                                        (rows_upto d Sigma)) = true) by shapes.
  assert (HFS : is_mat m m FS = true) by shapes.
  assert (HGG : is_mat m m GGt = true) by shapes.
  assert (HFred : is_mat m m (matmul_raw F (matmul_raw (matmul_raw (cols_upto d Sigma) P)
                                                       (rows_upto d Sigma))) = true)
    by shapes.
  unfold cond_cov, f_cov.
  rewrite (matmul_msub_distr_l HF HSigma Hred Hm).
  rewrite (matmul_msub_distr_r HFS HFred HFt Hm).
  rewrite (@madd_msub_swap m m) by shapes.
  f_equal.
  rewrite <- (matmul_assoc HF Hg0 HSr) by lia.
  rewrite <- (matmul_assoc HF HSd Hinv) by lia.
  rewrite <- (cols_upto_matmul HF HSigma Hm) by lia.
  assert (Hgain : is_mat m d (matmul_raw (cols_upto d (matmul_raw F Sigma))
                                        (linalg_inv (block_upto d Sigma))) = true) by shapes.
  rewrite (matmul_assoc Hgain HSr HFt) by lia.
  now rewrite rows_upto_matmul.
Qed.

Lemma condition_then_predict_ok :
  condition_then_predict linalg_inv F G d (mu, Sigma) xt = Ok (f_mean, f_cov).
Proof.
  unfold condition_then_predict.
  rewrite condition_ok. cbn [bind].
  rewrite (predict_ok cond_mean cond_cov cond_mean_shape cond_cov_shape).
  now rewrite predict_cond_mean, predict_cond_cov.
Qed.

End FilterStep.

(** ** Vectors *)

Lemma matvec_ok {r c} {A : mat} {v : vec} :
  is_mat r c A = true -> length v = c -> matvec A v = Ok (matvec_raw A v).
Proof.
  intros HA Hv. unfold matvec.
  replace (forallb (fun r0 => length r0 =? length v) A) with true; [reflexivity|].
  symmetry. apply forallb_forall. intros row Hin. apply Nat.eqb_eq.
  apply is_mat_iff in HA as [_ HA]. rewrite Hv. now apply HA.
Qed.

Lemma matvec_raw_length {r c} {A : mat} (v : vec) :
  is_mat r c A = true -> length (matvec_raw A v) = r.
Proof. intros HA. unfold matvec_raw. now rewrite length_map, (is_mat_length HA). Qed.

Lemma vadd_ok {k} {u v : vec} :
  length u = k -> length v = k -> vadd u v = Ok (vadd_raw u v).
Proof. apply vzip_ok. Qed.

Lemma vsub_ok {k} {u v : vec} :
  length u = k -> length v = k -> vsub u v = Ok (vsub_raw u v).
Proof. apply vzip_ok. Qed.

Lemma vadd_raw_length {k} {u v : vec} :
  length u = k -> length v = k -> length (vadd_raw u v) = k.
Proof. intros Hu Hv. unfold vadd_raw. rewrite length_map2, Hu, Hv. lia. Qed.

Lemma vsub_raw_length {k} {u v : vec} :
  length u = k -> length v = k -> length (vsub_raw u v) = k.
Proof. intros Hu Hv. unfold vsub_raw. rewrite length_map2, Hu, Hv. lia. Qed.

Lemma mneg_shape {r c} {A : mat} : is_mat r c A = true -> is_mat r c (mneg A) = true.
Proof.
  intros HA. apply is_mat_iff in HA as [H1 H2]. apply is_mat_iff. split.
  - unfold mneg. now rewrite length_map.
  - intros row Hin. unfold mneg in Hin. apply in_map_iff in Hin as (row' & <- & Hin).
    unfold vneg. rewrite length_map. now apply H2.
Qed.

Lemma zeros_length k : length (zeros k) = k.
Proof. apply repeat_length. Qed.

Lemma zeros2_shape r c : is_mat r c (zeros2 r c) = true.
Proof.
  apply is_mat_iff. split.
  - apply repeat_length.
  - intros row Hin. apply repeat_spec in Hin. subst row. apply zeros_length.
Qed.

Lemma row_at_length {r c} {a : mat} t :
  is_mat r c a = true -> (0 < r)%nat -> length (row_at t a) = c.
Proof.
  intros Ha Hr. unfold row_at.
  apply is_mat_iff in Ha as [H1 H2]. apply H2, nth_In. lia.
Qed.

(** ** The scan *)

Lemma scan_from_length {C X Y : Type} (body : C -> X -> result (C * Y)) xs :
  forall c c' ys, scan_from body c xs = Ok (c', ys) -> length ys = length xs.
Proof.
  induction xs as [|x xs IH]; simpl; intros c c' ys H.
  - now inversion H.
  - destruct (body c x) as [[c1 y]|e]; simpl in H; [|discriminate].
    destruct (scan_from body c1 xs) as [[c2 ys']|e] eqn:E; simpl in H; [|discriminate].
    inversion H; subst. simpl. f_equal. eapply IH; eauto.
Qed.

(** A carry invariant that every step re-establishes makes the whole scan
    succeed, with every output satisfying the step's postcondition. *)
Lemma scan_from_invariant {C X Y : Type} (body : C -> X -> result (C * Y))
  (Inv : C -> Prop) (Post : Y -> Prop) :
  (forall c x, Inv c -> exists c' y, body c x = Ok (c', y) /\ Inv c' /\ Post y) ->
  forall xs c, Inv c ->
    exists c' ys, scan_from body c xs = Ok (c', ys) /\ Inv c' /\ Forall Post ys
                  /\ length ys = length xs.
Proof.
  intros Step. induction xs as [|x xs IH]; intros c Hc; simpl.
  - exists c, []. auto.
  - destruct (Step c x Hc) as (c1 & y & E1 & Hc1 & Hy). rewrite E1. simpl.
    destruct (IH c1 Hc1) as (c2 & ys & E2 & Hc2 & Hys & Hlen). rewrite E2. simpl.
    exists c2, (y :: ys). repeat split; auto. simpl. now rewrite Hlen.
Qed.

(** When every output records the new carry, step [i] runs on the carry
    recorded by step [i - 1] (on the initial carry for [i = 0]). *)
Lemma scan_from_nth {C X Y : Type} (body : C -> X -> result (C * Y)) (carry_of : Y -> C) :
  (forall c x c' y, body c x = Ok (c', y) -> c' = carry_of y) ->
  forall xs c c' ys, scan_from body c xs = Ok (c', ys) ->
  forall i dx dy, (i < length xs)%nat ->
    body (nth i (c :: map carry_of ys) c) (nth i xs dx) = Ok (carry_of (nth i ys dy), nth i ys dy).
Proof.
  intros Hrec. induction xs as [|x xs IH]; simpl; intros c c' ys H i dx dy Hi; [lia|].
  destruct (body c x) as [[c1 y]|e] eqn:E1; simpl in H; [|discriminate].
  destruct (scan_from body c1 xs) as [[c2 ys']|e] eqn:E2; simpl in H; [|discriminate].
  inversion H; subst. destruct i as [|i]; simpl.
  - rewrite E1. now rewrite (Hrec _ _ _ _ E1).
  - assert (Hi' : (i < length xs)%nat) by lia.
    pose proof (IH c1 _ ys' E2 i dx dy Hi') as Hstep.
    rewrite (Hrec _ _ _ _ E1) in Hstep.
    destruct i as [|i]; simpl in *; [exact Hstep|].
    rewrite (nth_indep _ _ (carry_of y)); [exact Hstep|].
    rewrite length_map, (scan_from_length _ _ _ _ _ E2). lia.
Qed.

(** ** The simulation *)

Lemma simulate_shapes_spec (x b u y : nat) (self : System) (L K : mat) :
  simulate_shapes x b u y self L K = true ->
  is_mat x x (Dynamics.A (dynamics self)) = true
  /\ is_mat x u (Dynamics.B (dynamics self)) = true
  /\ is_mat y x (Dynamics.C (dynamics self)) = true
  /\ is_mat x x (Dynamics.V (dynamics self)) = true
  /\ is_mat y x (Dynamics.W (dynamics self)) = true
  /\ is_mat b b (Actor.A (actor self)) = true
  /\ is_mat b u (Actor.B (actor self)) = true
  /\ is_mat y b (Actor.C (actor self)) = true
  /\ is_mat u b L = true /\ is_mat b y K = true.
Proof.
  unfold simulate_shapes. rewrite !andb_true_iff. tauto.
Qed.

Ltac vec_length :=
  repeat first
    [ eassumption
    | apply vadd_raw_length
    | apply vsub_raw_length
    | eapply matvec_raw_length; first [ eassumption | apply mneg_shape; eassumption ]
    | eapply row_at_length; [ eassumption | lia ] ].

Lemma loop_ok (x b u y T : nat) (self : System) (L K epsilon eta : mat) xv xh t :
  simulate_shapes x b u y self L K = true ->
  is_mat T x epsilon = true -> is_mat T x eta = true -> (0 < T)%nat ->
  length xv = x -> length xh = b ->
  loop self L K epsilon eta (xv, xh) t = Ok (loop_raw self L K epsilon eta (xv, xh) t).
Proof.
  intros Hs He Hn HT Hx Hb.
  destruct (simulate_shapes_spec _ _ _ _ _ _ _ Hs)
    as (HA & HB & HC & HV & HW & HaA & HaB & HaC & HL & HK).
  unfold loop, loop_raw.
  rewrite (matvec_ok (mneg_shape HL) Hb). cbn [bind].
  rewrite (matvec_ok HA Hx). cbn [bind].
  rewrite (matvec_ok HB) by vec_length. cbn [bind].
  rewrite (@vadd_ok x) by vec_length. cbn [bind].
  rewrite (matvec_ok HV) by vec_length. cbn [bind].
  rewrite (@vadd_ok x) by vec_length. cbn [bind].
  rewrite (matvec_ok HC) by vec_length. cbn [bind].
  rewrite (matvec_ok HW) by vec_length. cbn [bind].
  rewrite (@vadd_ok y) by vec_length. cbn [bind].
  rewrite (matvec_ok HaA Hb). cbn [bind].
  rewrite (matvec_ok HaB) by vec_length. cbn [bind].
  rewrite (@vadd_ok b) by vec_length. cbn [bind].
  rewrite (matvec_ok HaC) by vec_length. cbn [bind].
  rewrite (@vsub_ok y) by vec_length. cbn [bind].
  rewrite (matvec_ok HK) by vec_length. cbn [bind].
  rewrite (@vadd_ok b) by vec_length. cbn [bind].
  reflexivity.
Qed.

Lemma loop_raw_lengths (x b u y T : nat) (self : System) (L K epsilon eta : mat) xv xh t :
  simulate_shapes x b u y self L K = true ->
  is_mat T x epsilon = true -> is_mat T x eta = true -> (0 < T)%nat ->
  length xv = x -> length xh = b ->
  step_lengths x b u y (snd (loop_raw self L K epsilon eta (xv, xh) t))
  /\ fst (loop_raw self L K epsilon eta (xv, xh) t)
     = fst (fst (snd (loop_raw self L K epsilon eta (xv, xh) t))).
Proof.
  intros Hs He Hn HT Hx Hb.
  destruct (simulate_shapes_spec _ _ _ _ _ _ _ Hs)
    as (HA & HB & HC & HV & HW & HaA & HaB & HaC & HL & HK).
  unfold loop_raw, step_lengths. cbn [fst snd].
  repeat split; vec_length.
Qed.

Lemma scan_ok {C X Y : Type} (body : C -> X -> result (C * Y)) (Inv : C -> Prop)
  (init : C) (xs : list X) (x_abs : X) :
  (forall c x, Inv c -> exists r, body c x = Ok r) -> Inv init ->
  scan body init xs x_abs = scan_from body init xs.
Proof.
  intros Step Hinit. unfold scan.
  destruct (Step init (hd x_abs xs) Hinit) as (r & ->). reflexivity.
Qed.

Lemma vstack_row_ok (v : vec) (M : mat) :
  (forall row, In row M -> length row = length v) -> vstack_row v M = Ok (v :: M).
Proof.
  intros H. unfold vstack_row, vstack, ncols. cbn [app hd].
  replace (forallb (fun r => length r =? length v) (v :: M)) with true; [reflexivity|].
  symmetry. apply forallb_forall. intros row [<-|Hin]; apply Nat.eqb_eq; auto.
Qed.

Lemma arange_length lo hi : length (arange lo hi) = (hi - lo)%nat.
Proof. apply length_seq. Qed.

Lemma in_outs_x outs x b u y row :
  Forall (step_lengths x b u y) outs -> In row (outs_x outs) -> length row = x.
Proof.
  intros HF Hin. unfold outs_x in Hin. apply in_map_iff in Hin as (o & <- & Hin).
  rewrite Forall_forall in HF. now destruct (HF o Hin).
Qed.

Lemma in_outs_x_hat outs x b u y row :
  Forall (step_lengths x b u y) outs -> In row (outs_x_hat outs) -> length row = b.
Proof.
  intros HF Hin. unfold outs_x_hat in Hin. apply in_map_iff in Hin as (o & <- & Hin).
  rewrite Forall_forall in HF. now destruct (HF o Hin) as (_ & ? & _).
Qed.

Lemma in_outs_u outs x b u y row :
  Forall (step_lengths x b u y) outs -> In row (outs_u outs) -> length row = u.
Proof.
  intros HF Hin. unfold outs_u in Hin. apply in_map_iff in Hin as (o & <- & Hin).
  rewrite Forall_forall in HF. now destruct (HF o Hin) as (_ & _ & _ & ?).
Qed.

Lemma nth_cons_pred {A : Type} (a : A) (l : list A) (d : A) (t : nat) :
  (1 <= t)%nat -> nth t (a :: l) d = nth (t - 1) l d.
Proof. destruct t as [|t]; [lia|]. intros _. simpl. now rewrite Nat.sub_0_r. Qed.

Lemma hd_nth0 {A : Type} (l : list A) (d : A) : hd d l = nth 0 l d.
Proof. now destruct l. Qed.

Lemma map_const_repeat {A B : Type} (c : B) (l : list A) :
  map (fun _ => c) l = repeat c (length l).
Proof. induction l as [|a l IH]; simpl; [reflexivity | now rewrite IH]. Qed.

(** *** Stacking trials *)

Lemma is_arr3_iff T r c (a : arr3) :
  is_arr3 T r c a = true <-> length a = T /\ (forall M, In M a -> is_mat r c M = true).
Proof.
  unfold is_arr3. rewrite andb_true_iff, Nat.eqb_eq, forallb_forall. tauto.
Qed.

Lemma stack_axis1_nth (T : nat) (trials : list mat) t :
  nrows (hd [] trials) = T -> (t < T)%nat ->
  nth t (stack_axis1 trials) [] = map (fun tr => nth t tr []) trials.
Proof.
  intros HT Ht. unfold stack_axis1. rewrite HT.
  exact (nth_map_seq (fun t' => map (fun tr => nth t' tr []) trials) T t [] Ht).
Qed.

Lemma stack_axis1_shape (T n w : nat) (trials : list mat) :
  (forall tr, In tr trials -> is_mat T w tr = true) -> length trials = n -> (0 < n)%nat ->
  is_arr3 T n w (stack_axis1 trials) = true.
Proof.
  intros Htr Hn Hpos.
  assert (HT : nrows (hd [] trials) = T).
  { destruct trials as [|tr trials]; [simpl in Hn; lia|].
    cbn [hd]. apply (@is_mat_length T w), Htr. now left. }
  apply is_arr3_iff. split.
  - unfold stack_axis1. now rewrite length_map, length_seq.
  - intros M Hin. destruct (In_nth _ _ [] Hin) as (t & Ht & <-).
    assert (Ht' : (t < T)%nat).
    { unfold stack_axis1 in Ht. now rewrite length_map, length_seq, HT in Ht. }
    rewrite (stack_axis1_nth T trials t HT Ht').
    apply is_mat_iff. split; [now rewrite length_map|].
    intros row Hrow. apply in_map_iff in Hrow as (tr & <- & Htr').
    exact (is_mat_row (Htr tr Htr') Ht').
Qed.

Section Simulation.

Variable key : Type.
Variable random_split : key -> key * key.
Variable random_split_num : key -> nat -> list key.
Variable random_normal : key -> nat -> nat -> mat.
Variable control_law : mat -> mat -> mat -> mat -> nat -> result mat.
Variable kalman_gain : mat -> mat -> mat -> mat -> nat -> result mat.

(** What the random-number library guarantees about shapes. *)
Hypothesis random_normal_shape : forall k r c, is_mat r c (random_normal k r c) = true.
Hypothesis random_split_num_length : forall k n, length (random_split_num k n) = n.

(** The step-0 observation adds [C @ x0] and [V @ eta[0]], so the observation
    has as many components as the state. *)
Variables (x b u : nat) (self : System) (L K : mat).
Hypothesis Hshapes : simulate_shapes x b u x self L K = true.

Local Abbreviation trial_epsilon := (trial_epsilon key random_split random_normal).
Local Abbreviation trial_eta := (trial_eta key random_split random_normal).
Local Abbreviation initial_state := (initial_state self).
Local Abbreviation trial_outs := (trial_outs key random_split random_normal x self L K).
Local Abbreviation trial_x := (trial_x key random_split random_normal x self L K).
Local Abbreviation trial_x_hat := (trial_x_hat key random_split random_normal x self L K).
Local Abbreviation trial_y := (trial_y key random_split random_normal x self).
Local Abbreviation trial_u := (trial_u key random_split random_normal x self L K).
Local Abbreviation sim_x :=
  (sim_x key random_split random_split_num random_normal x self L K).
Local Abbreviation sim_x_hat :=
  (sim_x_hat key random_split random_split_num random_normal x self L K).
Local Abbreviation sim_y := (sim_y key random_split random_split_num random_normal x self).
Local Abbreviation sim_u :=
  (sim_u key random_split random_split_num random_normal x self L K).

Lemma xdim_eq : xdim self = x.
Proof.
  destruct (simulate_shapes_spec _ _ _ _ _ _ _ Hshapes) as (HA & _).
  exact (is_mat_length HA).
Qed.

Lemma bdim_eq : bdim self = b.
Proof.
  destruct (simulate_shapes_spec _ _ _ _ _ _ _ Hshapes) as (_ & _ & _ & _ & _ & HaA & _).
  exact (is_mat_length HaA).
Qed.

Lemma udim_eq : (0 < x)%nat -> udim self = u.
Proof.
  destruct (simulate_shapes_spec _ _ _ _ _ _ _ Hshapes) as (_ & HB & _).
  intros Hx. exact (is_mat_ncols HB Hx).
Qed.

(** A trial on a well-shaped model succeeds; its outputs are the initial
    values followed by the outputs of the [T - 1] loop steps, and a single
    observation row. *)
Lemma simulate_trial_ok (rng_key : key) (T : nat) (x0 : option vec) :
  (0 < T)%nat -> length (initial_state x0) = x ->
  let epsilon := trial_epsilon rng_key T x in
  let eta := trial_eta rng_key T x in
  exists c outs,
    scan_from (loop self L K epsilon eta) (initial_state x0, zeros (bdim self)) (arange 1 T)
    = Ok (c, outs)
    /\ length outs = (T - 1)%nat
    /\ Forall (step_lengths x b u x) outs
    /\ simulate_trial random_split random_normal self L K rng_key T x0 None
       = Ok (initial_state x0 :: outs_x outs,
             zeros (bdim self) :: outs_x_hat outs,
             [vadd_raw (matvec_raw (Dynamics.C (dynamics self)) (initial_state x0))
                       (matvec_raw (Dynamics.V (dynamics self)) (row_at 0 eta))],
             outs_u outs).
Proof.
  intros HT Hx0 epsilon eta.
  destruct (simulate_shapes_spec _ _ _ _ _ _ _ Hshapes)
    as (HA & HB & HC & HV & HW & HaA & HaB & HaC & HL & HK).
  assert (He : is_mat T x epsilon = true) by apply random_normal_shape.
  assert (Hn : is_mat T x eta = true) by apply random_normal_shape.
  set (Inv := fun c : vec * vec => length (fst c) = x /\ length (snd c) = b).
  assert (Step : forall c t, Inv c ->
            exists c' o, loop self L K epsilon eta c t = Ok (c', o) /\ Inv c'
                         /\ step_lengths x b u x o).
  { intros [xv xh] t [Hxv Hxh]. cbn [fst snd] in *.
    exists (fst (loop_raw self L K epsilon eta (xv, xh) t)),
           (snd (loop_raw self L K epsilon eta (xv, xh) t)).
    rewrite (loop_ok x b u x T) by assumption.
    destruct (loop_raw_lengths x b u x T self L K epsilon eta xv xh t)
      as [Hlen Hc]; try assumption.
    split; [now rewrite <- surjective_pairing|]. split; [|exact Hlen].
    rewrite Hc. destruct Hlen as (H1 & H2 & _). now split. }
  assert (Hinit : Inv (initial_state x0, zeros (bdim self))).
  { split; cbn [fst snd]; [exact Hx0 | now rewrite zeros_length, bdim_eq]. }
  destruct (scan_from_invariant _ Inv (step_lengths x b u x) Step (arange 1 T) _ Hinit)
    as (c & outs & Escan & _ & Houts & Hlen).
  exists c, outs. split; [exact Escan|]. split; [now rewrite Hlen, arange_length|].
  split; [exact Houts|].
  unfold simulate_trial. fold (initial_state x0).
  destruct (random_split rng_key) as [k1 s1] eqn:E1.
  destruct (random_split k1) as [k2 s2] eqn:E2.
  assert (Eeps : random_normal s1 T (length (initial_state x0)) = epsilon).
  { unfold epsilon, trial_epsilon. now rewrite E1, Hx0. }
  assert (Eeta : random_normal s2 T (length (initial_state x0)) = eta).
  { unfold eta, trial_eta. rewrite E1. cbn [fst]. now rewrite E2, Hx0. }
  rewrite Eeps, Eeta.
  rewrite (scan_ok _ Inv) by (auto; intros c0 t0 Hc0;
    destruct (Step c0 t0 Hc0) as (c' & o & E & _); eauto).
  rewrite Escan. cbn [bind].
  rewrite vstack_row_ok
    by (intros row Hin; rewrite Hx0; eapply in_outs_x; eauto). cbn [bind].
  rewrite vstack_row_ok
    by (intros row Hin; rewrite zeros_length, bdim_eq; eapply in_outs_x_hat; eauto).
  cbn [bind].
  rewrite (matvec_ok HC Hx0). cbn [bind].
  rewrite (matvec_ok HV) by vec_length. cbn [bind].
  rewrite (@vadd_ok x) by vec_length. cbn [bind].
  reflexivity.
Qed.

Lemma trial_outs_spec (rng_key : key) (T : nat) (x0 : option vec) :
  (0 < T)%nat -> length (initial_state x0) = x ->
  (exists c, scan_from (loop self L K (trial_epsilon rng_key T x) (trial_eta rng_key T x))
                       (initial_state x0, zeros (bdim self)) (arange 1 T)
             = Ok (c, trial_outs rng_key T x0))
  /\ length (trial_outs rng_key T x0) = (T - 1)%nat
  /\ Forall (step_lengths x b u x) (trial_outs rng_key T x0).
Proof.
  intros HT Hx0.
  destruct (simulate_trial_ok rng_key T x0 HT Hx0) as (c & outs & E & Hlen & Hall & _).
  unfold trial_outs. rewrite E. eauto.
Qed.

Lemma simulate_trial_eq (rng_key : key) (T : nat) (x0 : option vec) :
  (0 < T)%nat -> length (initial_state x0) = x ->
  simulate_trial random_split random_normal self L K rng_key T x0 None
  = Ok (trial_x rng_key T x0, trial_x_hat rng_key T x0,
        trial_y rng_key T x0, trial_u rng_key T x0).
Proof.
  intros HT Hx0.
  destruct (simulate_trial_ok rng_key T x0 HT Hx0) as (c & outs & E & Hlen & Hall & Es).
  unfold trial_x, trial_x_hat, trial_y, trial_u, trial_outs. rewrite E. exact Es.
Qed.

Lemma trial_x_shape rng_key T x0 :
  (0 < T)%nat -> length (initial_state x0) = x -> is_mat T x (trial_x rng_key T x0) = true.
Proof.
  intros HT Hx0. destruct (trial_outs_spec rng_key T x0 HT Hx0) as (_ & Hlen & Hall).
  apply is_mat_iff. unfold trial_x. split.
  - cbn [length]. unfold outs_x. rewrite length_map, Hlen. lia.
  - intros row [<-|Hin]; [exact Hx0 | eapply in_outs_x; eauto].
Qed.

Lemma trial_x_hat_shape rng_key T x0 :
  (0 < T)%nat -> length (initial_state x0) = x ->
  is_mat T b (trial_x_hat rng_key T x0) = true.
Proof.
  intros HT Hx0. destruct (trial_outs_spec rng_key T x0 HT Hx0) as (_ & Hlen & Hall).
  apply is_mat_iff. unfold trial_x_hat. split.
  - cbn [length]. unfold outs_x_hat. rewrite length_map, Hlen. lia.
  - intros row [<-|Hin]; [now rewrite zeros_length, bdim_eq | eapply in_outs_x_hat; eauto].
Qed.

Lemma trial_u_shape rng_key T x0 :
  (0 < T)%nat -> length (initial_state x0) = x ->
  is_mat (T - 1) u (trial_u rng_key T x0) = true.
Proof.
  intros HT Hx0. destruct (trial_outs_spec rng_key T x0 HT Hx0) as (_ & Hlen & Hall).
  apply is_mat_iff. unfold trial_u. split.
  - unfold outs_u. now rewrite length_map, Hlen.
  - intros row Hin. eapply in_outs_u; eauto.
Qed.

Lemma trial_y_shape rng_key T x0 :
  (0 < T)%nat -> length (initial_state x0) = x ->
  is_mat 1 x (trial_y rng_key T x0) = true.
Proof.
  intros HT Hx0.
  destruct (simulate_shapes_spec _ _ _ _ _ _ _ Hshapes)
    as (HA & HB & HC & HV & HW & HaA & HaB & HaC & HL & HK).
  assert (Hn : is_mat T x (trial_eta rng_key T x) = true) by apply random_normal_shape.
  apply is_mat_iff. unfold trial_y. split; [reflexivity|].
  intros row [<-|[]]. vec_length.
Qed.

Lemma simulate_eq (rng_key : key) (n T : nat) (x0 : option vec) (return_all : bool) :
  Actor.L control_law (actor self) T = Ok L ->
  Actor.K kalman_gain (actor self) T = Ok K ->
  (0 < T)%nat -> length (initial_state x0) = x ->
  simulate random_split random_split_num random_normal control_law kalman_gain
           self rng_key n T x0 return_all
  = Ok (if return_all
        then AllOutputs (sim_x rng_key n T x0) (sim_x_hat rng_key n T x0)
                        (sim_y rng_key n T x0) (sim_u rng_key n T x0)
        else StatesOnly (sim_x rng_key n T x0)).
Proof.
  intros HL HK HT Hx0. unfold simulate. rewrite HL, HK. cbn [bind].
  rewrite (mapM_ok _ (fun k => (trial_x k T x0, trial_x_hat k T x0,
                                trial_y k T x0, trial_u k T x0)))
    by (intros k _; now apply simulate_trial_eq).
  cbn [bind]. rewrite !map_map. cbn [fst snd]. reflexivity.
Qed.

Lemma sim_x_shape rng_key n T x0 :
  (0 < T)%nat -> (0 < n)%nat -> length (initial_state x0) = x ->
  is_arr3 T n x (sim_x rng_key n T x0) = true.
Proof.
  intros HT Hn Hx0. apply stack_axis1_shape; [|now rewrite length_map|exact Hn].
  intros tr Hin. apply in_map_iff in Hin as (k & <- & _). now apply trial_x_shape.
Qed.

Lemma sim_x_hat_shape rng_key n T x0 :
  (0 < T)%nat -> (0 < n)%nat -> length (initial_state x0) = x ->
  is_arr3 T n b (sim_x_hat rng_key n T x0) = true.
Proof.
  intros HT Hn Hx0. apply stack_axis1_shape; [|now rewrite length_map|exact Hn].
  intros tr Hin. apply in_map_iff in Hin as (k & <- & _). now apply trial_x_hat_shape.
Qed.

Lemma sim_u_shape rng_key n T x0 :
  (0 < T)%nat -> (0 < n)%nat -> length (initial_state x0) = x ->
  is_arr3 (T - 1) n u (sim_u rng_key n T x0) = true.
Proof.
  intros HT Hn Hx0. apply stack_axis1_shape; [|now rewrite length_map|exact Hn].
  intros tr Hin. apply in_map_iff in Hin as (k & <- & _). now apply trial_u_shape.
Qed.

Lemma sim_y_shape rng_key n T x0 :
  (0 < T)%nat -> (0 < n)%nat -> length (initial_state x0) = x ->
  is_arr3 1 n x (sim_y rng_key n T x0) = true.
Proof.
  intros HT Hn Hx0. apply stack_axis1_shape; [|now rewrite length_map|exact Hn].
  intros tr Hin. apply in_map_iff in Hin as (k & <- & _). now apply trial_y_shape.
Qed.

(** The first row of the states holds the initial state of every trial. *)
Lemma sim_x_first_row rng_key n T x0 :
  (0 < n)%nat -> hd [] (sim_x rng_key n T x0) = repeat (initial_state x0) n.
Proof.
  intros Hn. unfold sim_x.
  pose proof (random_split_num_length rng_key n) as Hlen.
  set (keys := random_split_num rng_key n) in *.
  set (trials := map (fun k => trial_x k T x0) keys).
  assert (HT : (0 < nrows (hd [] trials))%nat).
  { subst trials. destruct keys as [|k keys]; [simpl in Hlen; lia|]. simpl. lia. }
  rewrite hd_nth0, (stack_axis1_nth _ trials O eq_refl HT).
  subst trials. rewrite map_map. cbn [trial_x nth].
  rewrite <- Hlen. apply map_const_repeat.
Qed.

(** Every output of the loop records the new carry. *)
Lemma loop_records_carry (epsilon eta : mat) (c : vec * vec) (t : nat) c' o :
  loop self L K epsilon eta c t = Ok (c', o) -> c' = carry_of o.
Proof.
  destruct c as [xv xh]. unfold loop. intros H.
  repeat match type of H with
         | bind ?m _ = Ok _ => destruct m; cbn [bind] in H; [|discriminate]
         end.
  now inversion H.
Qed.

Lemma nth_carries (c0 : vec * vec) (outs : list (vec * vec * vec * vec)) i :
  (i <= length outs)%nat ->
  nth i (c0 :: map carry_of outs) c0
  = (nth i (fst c0 :: outs_x outs) [], nth i (snd c0 :: outs_x_hat outs) []).
Proof.
  intros Hi. destruct i as [|i]; cbn [nth]; [now destruct c0|].
  unfold outs_x, outs_x_hat.
  rewrite (nth_map_lt carry_of outs ([], [], [], []) c0) by lia.
  rewrite (nth_map_lt _ outs ([], [], [], []) []) by lia.
  rewrite (nth_map_lt _ outs ([], [], [], []) []) by lia.
  reflexivity.
Qed.

(** Step [t] of a trial, for [1 <= t < T], is one application of the loop
    body to row [t - 1] of the states and beliefs, with the gains [L] and [K]
    of the trial. *)
Lemma trial_step (rng_key : key) (T : nat) (x0 : option vec) (t : nat) :
  (0 < T)%nat -> length (initial_state x0) = x -> (1 <= t < T)%nat ->
  loop_raw self L K (trial_epsilon rng_key T x) (trial_eta rng_key T x)
           (nth (t - 1) (trial_x rng_key T x0) [], nth (t - 1) (trial_x_hat rng_key T x0) [])
           t
  = ((nth t (trial_x rng_key T x0) [], nth t (trial_x_hat rng_key T x0) []),
     (nth t (trial_x rng_key T x0) [], nth t (trial_x_hat rng_key T x0) [],
      snd (fst (nth (t - 1) (trial_outs rng_key T x0) ([], [], [], []))),
      nth (t - 1) (trial_u rng_key T x0) [])).
Proof.
  intros HT Hx0 Ht.
  destruct (trial_outs_spec rng_key T x0 HT Hx0) as ((c & E) & Hlen & Hall).
  set (outs := trial_outs rng_key T x0) in *.
  assert (Hi : (t - 1 < length (arange 1 T))%nat) by (rewrite arange_length; lia).
  pose proof (scan_from_nth _ carry_of (loop_records_carry _ _) _ _ _ _ E
                (t - 1)%nat O ([], [], [], []) Hi) as Hstep.
  rewrite (nth_carries _ outs) in Hstep by lia. cbn [fst snd] in Hstep.
  unfold arange in Hstep. rewrite seq_nth in Hstep by lia.
  replace (1 + (t - 1))%nat with t in Hstep by lia.
  fold (trial_x rng_key T x0) in Hstep. fold (trial_x_hat rng_key T x0) in Hstep.
  rewrite (loop_ok x b u x T) in Hstep; try assumption; try apply random_normal_shape.
  - apply Ok_inj in Hstep. subst outs. unfold trial_x, trial_x_hat in *. rewrite Hstep.
    unfold trial_u, outs_x, outs_x_hat, outs_u.
    rewrite !(nth_cons_pred _ _ _ t) by lia.
    rewrite !(nth_map_lt _ (trial_outs rng_key T x0) ([], [], [], []) []) by lia.
    unfold carry_of.
    destruct (nth (t - 1) (trial_outs rng_key T x0) ([], [], [], []))
      as [[[o1 o2] o3] o4]. reflexivity.
  - apply (is_mat_row (trial_x_shape rng_key T x0 HT Hx0)). lia.
  - apply (is_mat_row (trial_x_hat_shape rng_key T x0 HT Hx0)). lia.
Qed.

End Simulation.

(** ** The filter *)

Lemma scan_from_invariant_on {C X Y : Type} (body : C -> X -> result (C * Y))
  (Inv : C -> Prop) (Pre : X -> Prop) (Post : Y -> Prop) :
  (forall c x, Inv c -> Pre x -> exists c' y, body c x = Ok (c', y) /\ Inv c' /\ Post y) ->
  forall xs c, Inv c -> Forall Pre xs ->
    exists c' ys, scan_from body c xs = Ok (c', ys) /\ Inv c' /\ Forall Post ys
                  /\ length ys = length xs.
Proof.
  intros Step. induction xs as [|x xs IH]; intros c Hc Hxs; simpl.
  - exists c, []. auto.
  - inversion Hxs as [|? ? Hx Hxs']; subst.
    destruct (Step c x Hc Hx) as (c1 & y & E1 & Hc1 & Hy). rewrite E1. simpl.
    destruct (IH c1 Hc1 Hxs') as (c2 & ys & E2 & Hc2 & Hys & Hlen). rewrite E2. simpl.
    exists c2, (y :: ys). repeat split; auto. simpl. now rewrite Hlen.
Qed.

Lemma hstack_ok {r c1 c2} {A B : mat} :
  is_mat r c1 A = true -> is_mat r c2 B = true ->
  hstack A B = Ok (map2 (@app Qc) A B) /\ is_mat r (c1 + c2) (map2 (@app Qc) A B) = true.
Proof.
  intros HA HB. unfold hstack.
  rewrite (is_mat_length HA), (is_mat_length HB), Nat.eqb_refl. split; [reflexivity|].
  apply is_mat_intro.
  - rewrite length_map2, (is_mat_length HA), (is_mat_length HB). lia.
  - intros i Hi.
    rewrite (nth_map2 _ A B [] [] [])
      by (rewrite ?(is_mat_length HA), ?(is_mat_length HB); exact Hi).
    now rewrite length_app, (is_mat_row HA Hi), (is_mat_row HB Hi).
Qed.

Lemma vstack_ok {r1 r2 c} {A B : mat} :
  is_mat r1 c A = true -> is_mat r2 c B = true ->
  vstack A B = Ok (A ++ B) /\ is_mat (r1 + r2) c (A ++ B) = true.
Proof.
  intros HA HB.
  assert (HAB : is_mat (r1 + r2) c (A ++ B) = true).
  { apply is_mat_iff in HA as [HA1 HA2]. apply is_mat_iff in HB as [HB1 HB2].
    apply is_mat_iff. split; [rewrite length_app; lia|].
    intros row Hin. apply in_app_or in Hin as [Hin|Hin]; auto. }
  split; [|exact HAB]. unfold vstack.
  replace (forallb (fun r => length r =? ncols (A ++ B)) (A ++ B)) with true; [reflexivity|].
  symmetry. apply forallb_forall. intros row Hin. apply Nat.eqb_eq.
  destruct (In_nth _ _ [] Hin) as (i & Hi & <-).
  rewrite (is_mat_length HAB) in Hi.
  rewrite (is_mat_row HAB Hi). symmetry. apply (is_mat_ncols HAB). lia.
Qed.

Lemma zeros_like_shape {r c} {M : mat} :
  is_mat r c M = true -> is_mat r c (zeros_like M) = true.
Proof.
  intros HM. apply is_mat_iff in HM as [H1 H2]. apply is_mat_iff. split.
  - unfold zeros_like. now rewrite length_map.
  - intros row Hin. unfold zeros_like in Hin. apply in_map_iff in Hin as (row' & <- & Hin).
    rewrite length_map. now apply H2.
Qed.

Lemma filter_shapes_spec (x b u y v : nat) (self : System) (L K : mat) :
  filter_shapes x b u y v self L K = true ->
  ((0 < x)%nat /\ (0 < b)%nat /\ (0 < u)%nat /\ (0 < y)%nat /\ (0 < v)%nat)
  /\ is_mat x x (Dynamics.A (dynamics self)) = true
  /\ is_mat x u (Dynamics.B (dynamics self)) = true
  /\ is_mat y x (Dynamics.C (dynamics self)) = true
  /\ is_mat x v (Dynamics.V (dynamics self)) = true
  /\ is_mat y y (Dynamics.W (dynamics self)) = true
  /\ is_mat b b (Actor.A (actor self)) = true
  /\ is_mat b u (Actor.B (actor self)) = true
  /\ is_mat y b (Actor.C (actor self)) = true
  /\ is_mat u b L = true /\ is_mat b y K = true.
Proof.
  unfold filter_shapes. rewrite !andb_true_iff, !Nat.ltb_lt. tauto.
Qed.

Lemma build_F_ok (x b u y v : nat) (self : System) (L K : mat) :
  filter_shapes x b u y v self L K = true ->
  exists F, build_F self L K = Ok F /\ is_mat (x + b) (x + b) F = true.
Proof.
  intros Hs.
  destruct (filter_shapes_spec _ _ _ _ _ _ _ _ Hs)
    as ((Hx & Hb & Hu & Hy & Hv) & HA & HB & HC & HV & HW & HaA & HaB & HaC & HL & HK).
  pose proof (mneg_shape HB) as HnB.
  unfold build_F.
  rewrite (matmul_ok2 HnB HL). cbn [bind].
  destruct (@hstack_ok x x b (Dynamics.A (dynamics self))
              (matmul_raw (mneg (Dynamics.B (dynamics self))) L)) as [-> Htop];
    [shapes | shapes |]. cbn [bind].
  rewrite (matmul_ok2 HK HC). cbn [bind].
  rewrite (@matmul_ok2 b x x) by shapes. cbn [bind].
  rewrite (matmul_ok2 HaB HL). cbn [bind].
  rewrite (@msub_ok b b) by shapes. cbn [bind].
  rewrite (matmul_ok2 HK HaC). cbn [bind].
  rewrite (@matmul_ok2 b b b) by shapes. cbn [bind].
  rewrite (@msub_ok b b) by shapes. cbn [bind].
  match goal with |- context [hstack ?P ?Q] =>
    destruct (@hstack_ok b x b P Q) as [-> Hbot]; [shapes | shapes |] end.
  cbn [bind].
  match goal with |- context [vstack ?P ?Q] =>
    destruct (@vstack_ok x b (x + b) P Q) as [-> HF]; [assumption | assumption |] end.
  eauto.
Qed.

Lemma build_G_ok (x b u y v : nat) (self : System) (L K : mat) :
  filter_shapes x b u y v self L K = true ->
  exists G, build_G self K = Ok G /\ is_mat (x + b) (v + y) G = true.
Proof.
  intros Hs.
  destruct (filter_shapes_spec _ _ _ _ _ _ _ _ Hs)
    as ((Hx & Hb & Hu & Hy & Hv) & HA & HB & HC & HV & HW & HaA & HaB & HaC & HL & HK).
  pose proof (zeros_like_shape (transpose_shape HC Hy)) as Hz.
  unfold build_G.
  destruct (hstack_ok HV Hz) as [-> Htop]. cbn [bind].
  rewrite (matmul_ok2 HK HC). cbn [bind].
  rewrite (@matmul_ok2 b x v) by shapes. cbn [bind].
  rewrite (matmul_ok2 HK HW). cbn [bind].
  match goal with |- context [hstack ?P ?Q] =>
    destruct (@hstack_ok b v y P Q) as [-> Hbot]; [shapes | shapes |] end.
  cbn [bind].
  match goal with |- context [vstack ?P ?Q] =>
    destruct (@vstack_ok x b (v + y) P Q) as [-> HG]; [assumption | assumption |] end.
  eauto.
Qed.

Section Filter.

Variable control_law : mat -> mat -> mat -> mat -> nat -> result mat.
Variable kalman_gain : mat -> mat -> mat -> mat -> nat -> result mat.
Variable linalg_inv : mat -> mat.

Variables (x b u y v n d : nat) (self : System) (L K F G : mat).
Hypothesis Hshapes : filter_shapes x b u y v self L K = true.
Hypothesis HF : build_F self L K = Ok F.
Hypothesis HG : build_G self K = Ok G.
Hypothesis Hd : (0 < d <= x + b)%nat.
Hypothesis Hn : (0 < n)%nat.

(** The inverse routine returns a matrix of the shape of its argument. *)
Hypothesis linalg_inv_shape :
  forall M, is_mat d d M = true -> is_mat d d (linalg_inv M) = true.

Local Abbreviation carry_ok := (carry_ok x b n).
Local Abbreviation initial_mean := (initial_mean n self).
Local Abbreviation filter_outs := (filter_outs linalg_inv n d self F G).

Lemma F_shape : is_mat (x + b) (x + b) F = true.
Proof.
  destruct (build_F_ok _ _ _ _ _ _ _ _ Hshapes) as (F' & E & H).
  rewrite HF in E. now inversion E.
Qed.

Lemma G_shape : is_mat (x + b) (v + y) G = true.
Proof.
  destruct (build_G_ok _ _ _ _ _ _ L _ Hshapes) as (G' & E & H).
  rewrite HG in E. now inversion E.
Qed.

Lemma positive_dims : (0 < x + b)%nat /\ (0 < v + y)%nat.
Proof.
  destruct (filter_shapes_spec _ _ _ _ _ _ _ _ Hshapes) as ((Hx & Hb & Hu & Hy & Hv) & _).
  lia.
Qed.

Lemma GGt_shape : is_mat (x + b) (x + b) (matmul_raw G (transpose G)) = true.
Proof.
  pose proof G_shape as HGs. destruct positive_dims as [Hm Hk]. shapes.
Qed.

Lemma f_step (c : mat * mat) (xt : mat) :
  carry_ok c -> is_mat n d xt = true ->
  exists c' o, f linalg_inv F G d c xt = Ok (c', o) /\ carry_ok c' /\ carry_ok o /\ c' = o.
Proof.
  intros [Hmu HS] Hxt. destruct c as [mu Sigma]. cbn [fst snd] in *.
  destruct positive_dims as [Hm Hk].
  assert (Hinv : is_mat d d (linalg_inv (block_upto d Sigma)) = true).
  { apply linalg_inv_shape. shapes. }
  rewrite (f_ok linalg_inv n (x + b) (v + y) d F G mu Sigma xt Hd Hk F_shape G_shape
             Hmu HS Hxt Hinv).
  assert (Hc : carry_ok (f_mean linalg_inv d F mu Sigma xt,
                         f_cov linalg_inv d F G Sigma)).
  { split; cbn [fst snd].
    - exact (f_mean_shape linalg_inv n (x + b) (v + y) d F mu Sigma xt Hd Hk F_shape
               Hmu HS Hxt Hinv).
    - exact (f_cov_shape linalg_inv (x + b) (v + y) d F G Sigma Hd Hk F_shape G_shape
               HS Hinv).
  }
  eauto 6.
Qed.

Lemma state_dims :
  nrows (Dynamics.A (dynamics self)) = x /\ nrows (Actor.A (actor self)) = b.
Proof.
  destruct (filter_shapes_spec _ _ _ _ _ _ _ _ Hshapes)
    as (_ & HA & _ & _ & _ & _ & HaA & _).
  split; [exact (is_mat_length HA) | exact (is_mat_length HaA)].
Qed.

Lemma data_dims T (xs : arr3) :
  is_arr3 T n d xs = true -> (0 < T)%nat ->
  length xs = T /\ nrows (hd [] xs) = n /\ ncols (hd [] xs) = d.
Proof.
  intros Hxs HT. apply is_arr3_iff in Hxs as [Hlen Hall].
  destruct xs as [|x1 xs]; [simpl in Hlen; lia|]. cbn [hd].
  assert (H1 : is_mat n d x1 = true) by (apply Hall; now left).
  repeat split; [exact Hlen | exact (is_mat_length H1) | exact (is_mat_ncols H1 Hn)].
Qed.

Lemma filter_outs_spec T (mu0 : option mat) (xs : arr3) :
  is_arr3 T n d xs = true -> is_mat n (x + b) (initial_mean mu0) = true ->
  (exists c, scan_from (f linalg_inv F G d) (initial_mean mu0, matmul_raw G (transpose G)) xs
             = Ok (c, filter_outs mu0 xs))
  /\ length (filter_outs mu0 xs) = T
  /\ Forall carry_ok (filter_outs mu0 xs).
Proof.
  intros Hxs Hmu. apply is_arr3_iff in Hxs as [Hlen Hall].
  assert (Hinit : carry_ok (initial_mean mu0, matmul_raw G (transpose G))).
  { split; cbn [fst snd]; [exact Hmu | exact GGt_shape]. }
  destruct (scan_from_invariant_on (f linalg_inv F G d) carry_ok
              (fun xt => is_mat n d xt = true) carry_ok) with (xs := xs)
      (c := (initial_mean mu0, matmul_raw G (transpose G)))
    as (c & outs & E & _ & Houts & Hl).
  - intros c xt Hc Hxt. destruct (f_step c xt Hc Hxt) as (c' & o & E & Hc' & Ho & _). eauto.
  - exact Hinit.
  - apply Forall_forall. exact Hall.
  - unfold filter_outs. rewrite E. split; [eauto|]. split; [now rewrite Hl|exact Houts].
Qed.

Lemma initial_mean_shape (mu0 : option mat) :
  (forall m, mu0 = Some m -> is_mat n (x + b) m = true) ->
  is_mat n (x + b) (initial_mean mu0) = true.
Proof.
  intros H. unfold initial_mean.
  destruct mu0 as [m|]; [now apply H|].
  destruct state_dims as [-> ->]. apply zeros2_shape.
Qed.

(** On a well-shaped model and well-shaped data, [conditional_moments]
    returns the outputs of the recursion started from [initial_mean] and
    [G G^T]. *)
Lemma conditional_moments_eq T (mu0 : option mat) (xs : arr3) :
  Actor.L control_law (actor self) T = Ok L ->
  Actor.K kalman_gain (actor self) T = Ok K ->
  is_arr3 T n d xs = true -> (0 < T)%nat ->
  (forall m, mu0 = Some m -> is_mat n (x + b) m = true) ->
  conditional_moments control_law kalman_gain linalg_inv self xs mu0
  = Ok (map fst (filter_outs mu0 xs), map snd (filter_outs mu0 xs)).
Proof.
  intros HL HK Hxs HT Hmu0.
  destruct (data_dims T xs Hxs HT) as (Hlen & Hnr & Hnc).
  pose proof (initial_mean_shape mu0 Hmu0) as Hmu.
  destruct (filter_outs_spec T mu0 xs Hxs Hmu) as ((c & E) & Hl & Hall).
  destruct positive_dims as [Hm Hk].
  unfold conditional_moments. rewrite Hlen, Hnr, Hnc, HL, HK. cbn [bind].
  rewrite HF, HG. cbn [bind].
  rewrite (@matmul_ok2 (x + b) (v + y) (x + b)) by (pose proof G_shape; shapes).
  cbn [bind]. fold (initial_mean mu0).
  assert (Hprobe : exists r, f linalg_inv F G d (initial_mean mu0, matmul_raw G (transpose G))
                              (hd (zeros2 n d) xs) = Ok r).
  { apply is_arr3_iff in Hxs as [_ Hall'].
    destruct xs as [|x1 xs']; [simpl in Hlen; lia|]. cbn [hd].
    destruct (f_step (initial_mean mu0, matmul_raw G (transpose G)) x1) as (c' & o & E' & _).
    - split; cbn [fst snd]; [exact Hmu | exact GGt_shape].
    - apply Hall'. now left.
    - eauto. }
  destruct Hprobe as (r & Hprobe).
  unfold scan. rewrite Hprobe. cbn [bind]. rewrite E. reflexivity.
Qed.

Lemma filter_means_shape T (mu0 : option mat) (xs : arr3) :
  is_arr3 T n d xs = true -> is_mat n (x + b) (initial_mean mu0) = true ->
  is_arr3 T n (x + b) (map fst (filter_outs mu0 xs)) = true.
Proof.
  intros Hxs Hmu. destruct (filter_outs_spec T mu0 xs Hxs Hmu) as (_ & Hl & Hall).
  apply is_arr3_iff. split; [now rewrite length_map|].
  intros M Hin. apply in_map_iff in Hin as (o & <- & Hin).
  rewrite Forall_forall in Hall. now destruct (Hall o Hin).
Qed.

Lemma filter_covs_shape T (mu0 : option mat) (xs : arr3) :
  is_arr3 T n d xs = true -> is_mat n (x + b) (initial_mean mu0) = true ->
  is_arr3 T (x + b) (x + b) (map snd (filter_outs mu0 xs)) = true.
Proof.
  intros Hxs Hmu. destruct (filter_outs_spec T mu0 xs Hxs Hmu) as (_ & Hl & Hall).
  apply is_arr3_iff. split; [now rewrite length_map|].
  intros M Hin. apply in_map_iff in Hin as (o & <- & Hin).
  rewrite Forall_forall in Hall. now destruct (Hall o Hin).
Qed.

End Filter.

(** On well-shaped input [conditional_moments] returns, and its two results
    have the shapes (T, n, m) and (T, m, m) with [m = x + b]. *)
Lemma conditional_moments_shapes
  (control_law kalman_gain : mat -> mat -> mat -> mat -> nat -> result mat)
  (linalg_inv : mat -> mat)
  (x b u y v n d T : nat) (self : System) (L K : mat) (xs : arr3) :
  filter_shapes x b u y v self L K = true ->
  Actor.L control_law (actor self) T = Ok L ->
  Actor.K kalman_gain (actor self) T = Ok K ->
  (0 < d <= x + b)%nat -> (0 < n)%nat -> (0 < T)%nat ->
  (forall M, is_mat d d M = true -> is_mat d d (linalg_inv M) = true) ->
  is_arr3 T n d xs = true ->
  exists mus Sigmas,
    conditional_moments control_law kalman_gain linalg_inv self xs None
    = Ok (mus, Sigmas)
    /\ is_arr3 T n (x + b) mus = true
    /\ is_arr3 T (x + b) (x + b) Sigmas = true.
Proof.
  intros Hs HL HK Hd Hn HT Hinv Hxs.
  destruct (build_F_ok x b u y v self L K Hs) as (F & HF & _).
  destruct (build_G_ok x b u y v self L K Hs) as (G & HG & _).
  assert (Hmu : is_mat n (x + b) (initial_mean n self None) = true).
  { apply (initial_mean_shape x b u y v n self L K Hs). intros m Hm. discriminate. }
  exists (map fst (filter_outs linalg_inv n d self F G None xs)),
         (map snd (filter_outs linalg_inv n d self F G None xs)).
  split; [|split].
  - apply (conditional_moments_eq control_law kalman_gain linalg_inv
             x b u y v n d self L K F G Hs HF HG Hd Hn Hinv T None xs HL HK Hxs HT).
    intros m Hm. discriminate.
  - exact (filter_means_shape linalg_inv x b u y v n d self L K F G Hs HF HG Hd Hn Hinv
             T None xs Hxs Hmu).
  - exact (filter_covs_shape linalg_inv x b u y v n d self L K F G Hs HF HG Hd Hn Hinv
             T None xs Hxs Hmu).
Qed.

(** ** The likelihood *)

Lemma list_as_map_seq {A : Type} (l : list A) (k : nat) (d : A) :
  length l = k -> l = map (fun t => nth t l d) (seq 0 k).
Proof.
  intros Hl. apply (nth_ext _ _ d d).
  - now rewrite length_map, length_seq.
  - intros t Ht. rewrite Hl in Ht. now rewrite (nth_map_seq _ k t d Ht).
Qed.

Lemma map2_map_map {A B C D : Type} (g : B -> C -> D) (h1 : A -> B) (h2 : A -> C)
  (l : list A) :
  map2 g (map h1 l) (map h2 l) = map (fun a => g (h1 a) (h2 a)) l.
Proof. induction l as [|a l IH]; simpl; [reflexivity | now rewrite IH]. Qed.

Lemma combine_map_map {A B C : Type} (h1 : A -> B) (h2 : A -> C) (l : list A) :
  combine (map h1 l) (map h2 l) = map (fun a => (h1 a, h2 a)) l.
Proof. induction l as [|a l IH]; simpl; [reflexivity | now rewrite IH]. Qed.

Lemma nth_tl {A : Type} (l : list A) (t : nat) (d : A) : nth t (tl l) d = nth (S t) l d.
Proof. destruct l as [|a l]; [now destruct t | reflexivity]. Qed.

Lemma length_tl {A : Type} (l : list A) : length (tl l) = (length l - 1)%nat.
Proof. destruct l as [|a l]; simpl; lia. Qed.

Lemma removelast_shape T n d (xs : arr3) :
  is_arr3 T n d xs = true -> is_arr3 (T - 1) n d (removelast xs) = true.
Proof.
  intros H. apply is_arr3_iff in H as [Hlen Hall]. apply is_arr3_iff.
  rewrite removelast_firstn_len. split.
  - rewrite length_firstn. lia.
  - intros M Hin. apply Hall. eapply in_firstn; eauto.
Qed.

Lemma tl_shape T n d (xs : arr3) :
  is_arr3 T n d xs = true -> is_arr3 (T - 1) n d (tl xs) = true.
Proof.
  intros H. apply is_arr3_iff in H as [Hlen Hall]. apply is_arr3_iff.
  split; [now rewrite length_tl, Hlen|].
  intros M Hin. apply Hall. destruct xs; [contradiction | now right].
Qed.

Lemma swap_axes01_table T n w (a : arr3) :
  is_arr3 T n w a = true -> (0 < T)%nat ->
  swap_axes01 a = map (fun i => map (fun t => nth i (nth t a []) []) (seq 0 T)) (seq 0 n).
Proof.
  intros Ha HT. apply is_arr3_iff in Ha as [Hlen Hall].
  unfold swap_axes01, stack_axis1.
  assert (Hn : nrows (hd [] a) = n).
  { destruct a as [|M a]; [simpl in Hlen; lia|]. cbn [hd].
    apply (@is_mat_length n w), Hall. now left. }
  rewrite Hn. apply map_ext. intros i.
  rewrite (list_as_map_seq a T [] Hlen) at 1. now rewrite map_map.
Qed.

(** The table of log-densities [log_prob] returns: one row per trial, one
    entry per time step. *)
Lemma log_prob_table {logp : Type} (mvn_log_prob : vec -> mat -> vec -> logp)
  (T n w : nat) (locs covs values : arr3) :
  is_arr3 T n w locs = true -> is_arr3 T n w values = true -> length covs = T ->
  (0 < T)%nat ->
  log_prob mvn_log_prob
    (Build_MultivariateNormal (swap_axes01 locs) covs) (swap_axes01 values)
  = map (fun i => map (fun t => mvn_log_prob (nth i (nth t locs []) []) (nth t covs [])
                                             (nth i (nth t values []) []))
                      (seq 0 T))
        (seq 0 n).
Proof.
  intros Hl Hv Hc HT. unfold log_prob. cbn [loc covariance_matrix].
  rewrite (swap_axes01_table T n w locs Hl HT), (swap_axes01_table T n w values Hv HT).
  rewrite map2_map_map. apply map_ext. intros i.
  rewrite combine_map_map.
  rewrite (list_as_map_seq covs T [] Hc) at 1.
  rewrite map2_map_map. reflexivity.
Qed.

(** ** The sample collaborators are well-behaved *)

Lemma sample_normal_shape k r c : is_mat r c (Sample.random_normal k r c) = true.
Proof.
  apply is_mat_intro.
  - unfold Sample.random_normal. now rewrite length_map, length_seq.
  - intros i Hi. unfold Sample.random_normal.
    rewrite (nth_map_seq _ r i [] Hi). now rewrite length_map, length_seq.
Qed.

Lemma sample_split_num_length k n : length (Sample.random_split_num k n) = n.
Proof. unfold Sample.random_split_num. now rewrite length_map, length_seq. Qed.

Lemma sample_inv_shape d M :
  is_mat d d M = true -> is_mat d d (Sample.linalg_inv M) = true.
Proof.
  intros HM. pose proof (is_mat_length HM) as Hlen. unfold Sample.linalg_inv.
  rewrite Hlen. apply is_mat_intro.
  - now rewrite length_map, length_seq.
  - intros i Hi. rewrite (nth_map_seq _ d i [] Hi). now rewrite length_map, length_seq.
Qed.

(** * The statements about the code *)

(** ** C1: the filtering step *)

(** C1, as amended.  Each step of the recursion in [conditional_moments]
    conditions the carried moments on the observation and then predicts: the
    innovation is [xt - mu[:, :d]] with the carried mean [mu], the inverted
    block is [Sigma[:d, :d]] of the carried covariance [Sigma], and the
    corrected moments are then propagated through [F] and [G] (mean times
    [F^T], covariance [F . F^T + G G^T]).  On well-shaped operands the step
    [f] returns exactly [condition_then_predict], as carry and as output. *)
Theorem f_conditions_then_predicts :
  forall (linalg_inv : mat -> mat) (n m k d : nat) (F G mu Sigma xt : mat),
    (0 < d <= m)%nat -> (0 < k)%nat ->
    is_mat m m F = true -> is_mat m k G = true ->
    is_mat n m mu = true -> is_mat m m Sigma = true -> is_mat n d xt = true ->
    is_mat d d (linalg_inv (block_upto d Sigma)) = true ->
    exists c,
      condition_then_predict linalg_inv F G d (mu, Sigma) xt = Ok c
      /\ f linalg_inv F G d (mu, Sigma) xt = Ok (c, c).
Proof.
  intros linalg_inv n m k d F G mu Sigma xt Hd Hk HF HG Hmu HS Hxt Hinv.
  exists (f_mean linalg_inv d F mu Sigma xt, f_cov linalg_inv d F G Sigma). split.
  - exact (condition_then_predict_ok linalg_inv n m k d F G mu Sigma xt
             Hd Hk HF HG Hmu HS Hxt Hinv).
  - exact (f_ok linalg_inv n m k d F G mu Sigma xt Hd Hk HF HG Hmu HS Hxt Hinv).
Qed.

(** The step on a joint Gaussian with one observed and one hidden
    coordinate. *)
Lemma f_conditions_then_predicts_witness :
  exists c,
    condition_then_predict Sample.linalg_inv Sample.F_ex Sample.G_ex 1
      (Sample.mu_ex, Sample.Sigma_ex) Sample.xt_ex = Ok c
    /\ f Sample.linalg_inv Sample.F_ex Sample.G_ex 1
         (Sample.mu_ex, Sample.Sigma_ex) Sample.xt_ex = Ok (c, c).
Proof.
  apply (f_conditions_then_predicts Sample.linalg_inv 1 2 2 1);
    first [ lia | reflexivity ].
Defined.

(** C1 as stated fails: with [F = [[1, 1], [0, 1]]], [G = Sigma = I],
    [mu = 0] and the observation [xt = 1] of the first coordinate, the code
    returns the mean [(1, 0)] and the covariance [[2, 1], [1, 2]], while a
    step that predicts first and conditions on the predicted moments gives
    [(1, 1/3)] and [[0, 0], [0, 5/3]]. *)
Lemma f_differs_from_predict_then_condition :
  rmap (fun r => (Sample.mval (fst (fst r)), Sample.mval (snd (fst r))))
       (f Sample.linalg_inv Sample.F_ex Sample.G_ex 1
          (Sample.mu_ex, Sample.Sigma_ex) Sample.xt_ex)
  = Ok ([[1; 0]], [[2 # 1; 1]; [1; 2 # 1]])%Q
  /\ rmap (fun c => (Sample.mval (fst c), Sample.mval (snd c)))
          (predict_then_condition Sample.linalg_inv Sample.F_ex Sample.G_ex 1
             (Sample.mu_ex, Sample.Sigma_ex) Sample.xt_ex)
     = Ok ([[1; 1 # 3]], [[0; 0]; [0; 5 # 3]])%Q.
Proof. split; vm_compute; reflexivity. Qed.

(** ** C3: the shapes of the simulated arrays *)

(** C3, as amended.  For every well-shaped model (with as many observation
    components as states: the step-0 observation adds [C @ x0] and
    [V @ eta[0]]), [n >= 1] trials and horizon [T >= 1], [simulate] returns states of shape (T, n, state-dim), beliefs of
    shape (T, n, belief-dim) and actions of shape (T - 1, n, action-dim), and
    the first row of the states holds the initial state of every trial (zero
    when [x0] is omitted); so the two-state scenario with [T = 1000] and
    [n = 10] yields states of shape (1000, 10, 2). *)
Theorem simulate_output_shapes :
  forall (key : Type) (random_split : key -> key * key)
         (random_split_num : key -> nat -> list key)
         (random_normal : key -> nat -> nat -> mat)
         (control_law kalman_gain : mat -> mat -> mat -> mat -> nat -> result mat)
         (x b u : nat) (self : System) (L K : mat)
         (rng_key : key) (n T : nat) (x0 : option vec) (return_all : bool),
    (forall k r c, is_mat r c (random_normal k r c) = true) ->
    (forall k m, length (random_split_num k m) = m) ->
    simulate_shapes x b u x self L K = true -> (0 < x)%nat ->
    Actor.L control_law (actor self) T = Ok L ->
    Actor.K kalman_gain (actor self) T = Ok K ->
    (0 < T)%nat -> (0 < n)%nat ->
    (forall v, x0 = Some v -> length v = x) ->
    exists xs x_hat ys us,
      simulate random_split random_split_num random_normal control_law kalman_gain
               self rng_key n T x0 return_all
      = Ok (if return_all then AllOutputs xs x_hat ys us else StatesOnly xs)
      /\ is_arr3 T n (xdim self) xs = true
      /\ is_arr3 T n (bdim self) x_hat = true
      /\ is_arr3 (T - 1) n (udim self) us = true
      /\ hd [] xs = repeat (match x0 with Some v => v | None => zeros (xdim self) end) n.
Proof.
  intros key random_split random_split_num random_normal control_law kalman_gain
         x b u self L K rng_key n T x0 return_all Hnormal Hsplit Hs Hx HL HK HT Hn Hx0.
  assert (Hinit : length (initial_state self x0) = x).
  { destruct x0 as [v|]; cbn [initial_state]; [now apply Hx0|].
    now rewrite zeros_length, (xdim_eq x b u self L K Hs). }
  rewrite (xdim_eq x b u self L K Hs), (bdim_eq x b u self L K Hs),
    (udim_eq x b u self L K Hs Hx).
  exists (sim_x key random_split random_split_num random_normal x self L K rng_key n T x0),
    (sim_x_hat key random_split random_split_num random_normal x self L K rng_key n T x0),
    (sim_y key random_split random_split_num random_normal x self rng_key n T x0),
    (sim_u key random_split random_split_num random_normal x self L K rng_key n T x0).
  split; [|split; [|split; [|split]]].
  - now apply (simulate_eq key random_split random_split_num random_normal control_law
                 kalman_gain Hnormal x b u self L K Hs).
  - now apply (sim_x_shape key random_split random_split_num random_normal Hnormal Hsplit
                 x b u self L K Hs).
  - now apply (sim_x_hat_shape key random_split random_split_num random_normal Hnormal
                 Hsplit x b u self L K Hs).
  - now apply (sim_u_shape key random_split random_split_num random_normal Hnormal Hsplit
                 x b u self L K Hs).
  - rewrite (sim_x_first_row key random_split random_split_num random_normal Hsplit
               x self L K rng_key n T x0 Hn).
    unfold initial_state. destruct x0; [reflexivity|].
    now rewrite (xdim_eq x b u self L K Hs).
Qed.

(** The demo model with ten trials of a thousand steps from the zero
    state. *)
Lemma simulate_output_shapes_witness :
  exists xs x_hat ys us,
    simulate Sample.random_split Sample.random_split_num Sample.random_normal
             (Sample.fixed_gain Sample.L2) (Sample.fixed_gain Sample.K2)
             Sample.lqg2 O 10 1000 (Some (zeros 2)) true
    = Ok (AllOutputs xs x_hat ys us)
    /\ is_arr3 1000 10 (xdim Sample.lqg2) xs = true
    /\ is_arr3 1000 10 (bdim Sample.lqg2) x_hat = true
    /\ is_arr3 (1000 - 1) 10 (udim Sample.lqg2) us = true
    /\ hd [] xs = repeat (zeros 2) 10.
Proof.
  apply (simulate_output_shapes Sample.key Sample.random_split Sample.random_split_num
           Sample.random_normal (Sample.fixed_gain Sample.L2) (Sample.fixed_gain Sample.K2)
           2 2 1 Sample.lqg2 Sample.L2 Sample.K2 O 10 1000 (Some (zeros 2)) true);
    first [ exact sample_normal_shape | exact sample_split_num_length
          | reflexivity | lia | (intros v Hv; now inversion Hv) ].
Defined.

(** C3 as stated fails on the scenario it names: with [T = 1000] and
    [n = 10] the state array has 1000 rows, not 1001. *)
Lemma simulate_scenario_has_T_rows :
  exists xs,
    simulate Sample.random_split Sample.random_split_num Sample.random_normal
             (Sample.fixed_gain Sample.L2) (Sample.fixed_gain Sample.K2)
             Sample.lqg2 O 10 1000 (Some (zeros 2)) false
    = Ok (StatesOnly xs)
    /\ is_arr3 1000 10 2 xs = true
    /\ length xs = 1000%nat
    /\ length xs <> 1001%nat.
Proof.
  assert (Hs : simulate_shapes 2 2 1 2 Sample.lqg2 Sample.L2 Sample.K2 = true)
    by reflexivity.
  assert (Hx0 : length (initial_state Sample.lqg2 (Some (zeros 2))) = 2%nat)
    by reflexivity.
  exists (sim_x Sample.key Sample.random_split Sample.random_split_num Sample.random_normal
            2 Sample.lqg2 Sample.L2 Sample.K2 O 10 1000 (Some (zeros 2))).
  pose proof (sim_x_shape Sample.key Sample.random_split Sample.random_split_num
                Sample.random_normal sample_normal_shape sample_split_num_length
                2 2 1 Sample.lqg2 Sample.L2 Sample.K2 Hs O 10 1000 (Some (zeros 2))
                ltac:(lia) ltac:(lia) Hx0) as Hshape.
  split; [|split; [exact Hshape|]].
  - apply (simulate_eq Sample.key Sample.random_split Sample.random_split_num
             Sample.random_normal (Sample.fixed_gain Sample.L2)
             (Sample.fixed_gain Sample.K2) sample_normal_shape
             2 2 1 Sample.lqg2 Sample.L2 Sample.K2 Hs O 10 1000 (Some (zeros 2)) false);
      first [ reflexivity | lia ].
  - apply is_arr3_iff in Hshape as [Hlen _]. rewrite Hlen. split; [reflexivity | lia].
Qed.

(** The same on a small run, by evaluation: [T = 3] and [n = 2] give states
    of shape (3, 2, 2). *)
Example simulate_small_run_shape :
  rmap (fun r => shape3 (states_of r))
       (simulate Sample.random_split Sample.random_split_num Sample.random_normal
                 (Sample.fixed_gain Sample.L2) (Sample.fixed_gain Sample.K2)
                 Sample.lqg2 O 2 3 None false)
  = Ok (3, 2, 2)%nat.
Proof. vm_compute. reflexivity. Qed.

(** ** C5: the returned observations *)

(** C5 (defect in the code).  The observations [simulate] returns consist of
    the step-0 row only, whatever the horizon: the observations computed in
    the loop are not part of the returned array.  Here [T = 3] and [n = 2]:
    the states have shape (3, 2, 2), the observations (1, 2, 2). *)
Theorem simulate_returns_one_observation_row :
  rmap (fun r => match r with
                 | AllOutputs xs _ ys _ => (shape3 xs, shape3 ys)
                 | StatesOnly xs => (shape3 xs, (0, 0, 0)%nat)
                 end)
       (simulate Sample.random_split Sample.random_split_num Sample.random_normal
                 (Sample.fixed_gain Sample.L2) (Sample.fixed_gain Sample.K2)
                 Sample.lqg2 O 2 3 None true)
  = Ok ((3, 2, 2), (1, 2, 2))%nat.
Proof. vm_compute. reflexivity. Qed.

(** ** C6: a singular observed block *)

(** C6, as amended.  [conditional_moments] makes no invertibility check and
    raises nothing when the observed block [Sigma[:d, :d]] is singular: on
    every well-shaped model and data it returns the two sequences, of shapes
    (T, n, state-dim + belief-dim) and (T, state-dim + belief-dim,
    state-dim + belief-dim), whatever matrices the inverse routine returns. *)
Theorem conditional_moments_returns :
  forall (control_law kalman_gain : mat -> mat -> mat -> mat -> nat -> result mat)
         (linalg_inv : mat -> mat)
         (x b u y v n d T : nat) (self : System) (L K : mat) (xs : arr3),
    filter_shapes x b u y v self L K = true ->
    Actor.L control_law (actor self) T = Ok L ->
    Actor.K kalman_gain (actor self) T = Ok K ->
    (0 < d <= x + b)%nat -> (0 < n)%nat -> (0 < T)%nat ->
    (forall M, is_mat d d M = true -> is_mat d d (linalg_inv M) = true) ->
    is_arr3 T n d xs = true ->
    exists mus Sigmas,
      conditional_moments control_law kalman_gain linalg_inv self xs None
      = Ok (mus, Sigmas)
      /\ is_arr3 T n (x + b) mus = true
      /\ is_arr3 T (x + b) (x + b) Sigmas = true.
Proof.
  intros control_law kalman_gain linalg_inv x b u y v n d T self L K xs
         Hs HL HK Hd Hn HT Hinv Hxs.
  destruct (conditional_moments_shapes control_law kalman_gain linalg_inv
              x b u y v n d T self L K xs Hs HL HK Hd Hn HT Hinv Hxs)
    as (mus & Sigmas & E & Hm & HS).
  exists mus, Sigmas. auto.
Qed.

(** The noiseless demo model on three observed steps of one trial. *)
Lemma conditional_moments_returns_witness :
  exists mus Sigmas,
    conditional_moments (Sample.fixed_gain Sample.L2) (Sample.fixed_gain Sample.K2)
      Sample.linalg_inv Sample.lqg2_noiseless Sample.xdata None
    = Ok (mus, Sigmas)
    /\ is_arr3 3 1 (2 + 2) mus = true
    /\ is_arr3 3 (2 + 2) (2 + 2) Sigmas = true.
Proof.
  apply (conditional_moments_returns (Sample.fixed_gain Sample.L2)
           (Sample.fixed_gain Sample.K2) Sample.linalg_inv 2 2 1 2 2 1 2 3
           Sample.lqg2_noiseless Sample.L2 Sample.K2 Sample.xdata);
    first [ reflexivity | lia | exact (sample_inv_shape 2) ].
Defined.

(** C6 as stated fails: without noise ([V = W = 0]) the initial covariance
    [G G^T] is zero, so its observed block is singular, and
    [conditional_moments] returns arrays instead of raising. *)
Lemma conditional_moments_singular_block_returns :
  rmap (fun G => Sample.mval (block_upto 2 (matmul_raw G (transpose G))))
       (build_G Sample.lqg2_noiseless Sample.K2)
  = Ok [[0; 0]; [0; 0]]%Q
  /\ Sample.det 2 [[0; 0]; [0; 0]] = 0
  /\ rmap (fun r => (shape3 (fst r), shape3 (snd r)))
          (conditional_moments (Sample.fixed_gain Sample.L2) (Sample.fixed_gain Sample.K2)
             Sample.linalg_inv Sample.lqg2_noiseless Sample.xdata None)
     = Ok ((3, 1, 4), (3, 4, 4))%nat.
Proof. repeat split; vm_compute; reflexivity. Qed.

(** ** C9: construction *)

(** C9, as amended.  Construction performs no validation and never fails:
    [LQG(A, B, C, V, W, Q, R)] stores the matrices as given, in the plant and
    in the internal model, and the dimensions are read off [A] and [B].
    Inconsistent shapes surface only when a later operation multiplies the
    matrices. *)
Theorem LQG_init_never_fails :
  forall A B C V W Q R : mat,
    exists self,
      LQG_init A B C V W Q R = Ok self
      /\ dynamics self = Dynamics.Build A B C V W
      /\ actor self = Actor.Build A B C V W Q R
      /\ xdim self = nrows A /\ bdim self = nrows A /\ udim self = ncols B.
Proof.
  intros A B C V W Q R.
  exists (Build_System_ (Actor.Build A B C V W Q R) (Dynamics.Build A B C V W)).
  repeat split.
Qed.

(** C9 as stated fails: a control matrix with three rows for a plant with
    two states is accepted at construction; the mismatch is met only when
    [simulate] multiplies [B @ u] and adds the result to [A @ x]. *)
Lemma LQG_init_accepts_inconsistent_shapes :
  nrows Sample.B3 = 3%nat /\ nrows Sample.A2 = 2%nat
  /\ is_ok (LQG_init Sample.A2 Sample.B3 Sample.C2 Sample.V2 Sample.W2 Sample.Q2 Sample.R2)
     = true
  /\ (self <- LQG_init Sample.A2 Sample.B3 Sample.C2 Sample.V2 Sample.W2
                       Sample.Q2 Sample.R2 ;;
      simulate Sample.random_split Sample.random_split_num Sample.random_normal
        (Sample.fixed_gain Sample.L2) (Sample.fixed_gain Sample.K2) self O 1 3 None false)
     = Raise ShapeMismatch.
Proof. repeat split; vm_compute; reflexivity. Qed.

(** ** C10: the initial moments *)

(** C10.  With [mu0] omitted the recursion of [conditional_moments] starts
    from the zero mean of shape (n, state-dim + belief-dim), one zero row per
    trial, and from the covariance [G G^T]: the call returns the outputs of
    the scan of [f] from that carry, and equals the call with the zero mean
    passed explicitly.  The result is a function of the arguments alone. *)
Theorem conditional_moments_default_prior :
  forall (control_law kalman_gain : mat -> mat -> mat -> mat -> nat -> result mat)
         (linalg_inv : mat -> mat)
         (x b u y v n d T : nat) (self : System) (L K : mat) (xs : arr3),
    filter_shapes x b u y v self L K = true ->
    Actor.L control_law (actor self) T = Ok L ->
    Actor.K kalman_gain (actor self) T = Ok K ->
    (0 < d <= x + b)%nat -> (0 < n)%nat -> (0 < T)%nat ->
    (forall M, is_mat d d M = true -> is_mat d d (linalg_inv M) = true) ->
    is_arr3 T n d xs = true ->
    exists F G c outs,
      build_F self L K = Ok F /\ build_G self K = Ok G
      /\ scan_from (f linalg_inv F G d)
                   (zeros2 n (xdim self + bdim self), matmul_raw G (transpose G)) xs
         = Ok (c, outs)
      /\ conditional_moments control_law kalman_gain linalg_inv self xs None
         = Ok (map fst outs, map snd outs)
      /\ conditional_moments control_law kalman_gain linalg_inv self xs
           (Some (zeros2 n (xdim self + bdim self)))
         = Ok (map fst outs, map snd outs).
Proof.
  intros control_law kalman_gain linalg_inv x b u y v n d T self L K xs
         Hs HL HK Hd Hn HT Hinv Hxs.
  destruct (build_F_ok x b u y v self L K Hs) as (F & HF & _).
  destruct (build_G_ok x b u y v self L K Hs) as (G & HG & _).
  assert (Hmu : is_mat n (x + b) (initial_mean n self None) = true).
  { apply (initial_mean_shape x b u y v n self L K Hs). intros m Hm. discriminate. }
  destruct (filter_outs_spec linalg_inv x b u y v n d self L K F G Hs HF HG Hd Hn Hinv
              T None xs Hxs Hmu) as ((c & E) & _).
  exists F, G, c, (filter_outs linalg_inv n d self F G None xs).
  split; [exact HF|]. split; [exact HG|]. split; [exact E|]. split.
  - apply (conditional_moments_eq control_law kalman_gain linalg_inv
             x b u y v n d self L K F G Hs HF HG Hd Hn Hinv T None xs HL HK Hxs HT).
    intros m Hm. discriminate.
  - rewrite (conditional_moments_eq control_law kalman_gain linalg_inv
               x b u y v n d self L K F G Hs HF HG Hd Hn Hinv T
               (Some (zeros2 n (xdim self + bdim self))) xs HL HK Hxs HT).
    + reflexivity.
    + intros m Hm. inversion Hm; subst. exact Hmu.
Qed.

(** The demo model on three observed steps of one trial. *)
Lemma conditional_moments_default_prior_witness :
  exists F G c outs,
    build_F Sample.lqg2 Sample.L2 Sample.K2 = Ok F
    /\ build_G Sample.lqg2 Sample.K2 = Ok G
    /\ scan_from (f Sample.linalg_inv F G 2)
                 (zeros2 1 (xdim Sample.lqg2 + bdim Sample.lqg2),
                  matmul_raw G (transpose G)) Sample.xdata
       = Ok (c, outs)
    /\ conditional_moments (Sample.fixed_gain Sample.L2) (Sample.fixed_gain Sample.K2)
         Sample.linalg_inv Sample.lqg2 Sample.xdata None
       = Ok (map fst outs, map snd outs)
    /\ conditional_moments (Sample.fixed_gain Sample.L2) (Sample.fixed_gain Sample.K2)
         Sample.linalg_inv Sample.lqg2 Sample.xdata
         (Some (zeros2 1 (xdim Sample.lqg2 + bdim Sample.lqg2)))
       = Ok (map fst outs, map snd outs).
Proof.
  apply (conditional_moments_default_prior (Sample.fixed_gain Sample.L2)
           (Sample.fixed_gain Sample.K2) Sample.linalg_inv 2 2 1 2 2 1 2 3
           Sample.lqg2 Sample.L2 Sample.K2 Sample.xdata);
    first [ reflexivity | lia | exact (sample_inv_shape 2) ].
Defined.

(** ** C4: the gains used by the simulation loop *)

(** C4, as amended.  [simulate] obtains one feedback gain [L] and one
    estimator gain [K] for the horizon, and every step of every trial uses
    them: at each step [t] (for [1 <= t < T]) the action is
    [u = (-L) @ x_hat], the state is [A @ x + B @ u + V @ epsilon[t]], and the
    belief is [x_pred + K @ (y - C @ x_pred)] with
    [x_pred = A @ x_hat + B @ u] and [y = C @ x + W @ eta[t]]; the step index
    selects rows of the two noise arrays only, never an element of a gain
    sequence. *)
Theorem simulate_trial_uses_one_gain_pair :
  forall (key : Type) (random_split : key -> key * key)
         (random_normal : key -> nat -> nat -> mat)
         (x b u : nat) (self : System) (L K : mat)
         (rng_key : key) (T : nat) (x0 : option vec),
    (forall k r c, is_mat r c (random_normal k r c) = true) ->
    simulate_shapes x b u x self L K = true ->
    (0 < T)%nat ->
    (forall v, x0 = Some v -> length v = x) ->
    exists xs x_hat ys us,
      simulate_trial random_split random_normal self L K rng_key T x0 None
      = Ok (xs, x_hat, ys, us)
      /\ forall t, (1 <= t < T)%nat ->
           loop_equations self L K
             (random_normal (snd (random_split rng_key)) T x)
             (random_normal (snd (random_split (fst (random_split rng_key)))) T x)
             xs x_hat us t.
Proof.
  intros key random_split random_normal x b u self L K rng_key T x0
         Hnormal Hs HT Hx0.
  set (epsilon := random_normal (snd (random_split rng_key)) T x).
  set (eta := random_normal (snd (random_split (fst (random_split rng_key)))) T x).
  assert (Hinit : length (initial_state self x0) = x).
  { destruct x0 as [v|]; cbn [initial_state]; [now apply Hx0|].
    now rewrite zeros_length, (xdim_eq x b u self L K Hs). }
  exists (trial_x key random_split random_normal x self L K rng_key T x0),
    (trial_x_hat key random_split random_normal x self L K rng_key T x0),
    (trial_y key random_split random_normal x self rng_key T x0),
    (trial_u key random_split random_normal x self L K rng_key T x0).
  split.
  - exact (simulate_trial_eq key random_split random_normal Hnormal x b u self L K Hs
             rng_key T x0 HT Hinit).
  - intros t Ht.
    pose proof (trial_step key random_split random_normal Hnormal x b u self L K Hs
                  rng_key T x0 t HT Hinit Ht) as Hstep.
    cbv beta iota zeta delta [loop_raw trial_epsilon trial_eta] in Hstep.
    fold epsilon in Hstep. fold eta in Hstep.
    pose proof (f_equal (fun r => snd (snd r)) Hstep) as Hu.
    pose proof (f_equal (fun r => fst (fst r)) Hstep) as Hx.
    pose proof (f_equal (fun r => snd (fst r)) Hstep) as Hxh.
    cbn [fst snd] in Hu, Hx, Hxh. rewrite Hx in Hxh. rewrite Hu in Hx, Hxh.
    unfold loop_equations. cbv zeta. split; [now symmetry|]. split; now symmetry.
Qed.

(** One trial of four steps of the demo model. *)
Lemma simulate_trial_uses_one_gain_pair_witness :
  exists xs x_hat ys us,
    simulate_trial Sample.random_split Sample.random_normal Sample.lqg2
                   Sample.L2 Sample.K2 1%nat 4 None None
    = Ok (xs, x_hat, ys, us)
    /\ forall t, (1 <= t < 4)%nat ->
         loop_equations Sample.lqg2 Sample.L2 Sample.K2
           (Sample.random_normal (snd (Sample.random_split 1%nat)) 4 2)
           (Sample.random_normal
              (snd (Sample.random_split (fst (Sample.random_split 1%nat)))) 4 2)
           xs x_hat us t.
Proof.
  apply (simulate_trial_uses_one_gain_pair Sample.key Sample.random_split
           Sample.random_normal 2 2 1 Sample.lqg2 Sample.L2 Sample.K2 1%nat 4 None);
    first [ exact sample_normal_shape | reflexivity | lia | discriminate ].
Defined.

(** C4 as stated fails.  The run of a trial with the gains [L] and [K] is
    the run of the horizon-indexed recursion on the constant sequences
    [L, L, L, L] and [K, K, K, K]; on sequences that agree with [L] and [K]
    up to step 1 and differ afterwards, the indexed recursion computes other
    actions from step 2 on. *)
Lemma simulate_trial_ignores_step_index :
  simulate_trial Sample.random_split Sample.random_normal Sample.lqg2
                 Sample.L2 Sample.K2 1%nat 4 None None
  = simulate_trial_indexed Sample.random_split Sample.random_normal Sample.lqg2
      (repeat Sample.L2 4) (repeat Sample.K2 4) 1%nat 4 None None
  /\ rmap (fun r => Sample.mval (snd r))
          (simulate_trial Sample.random_split Sample.random_normal Sample.lqg2
                          Sample.L2 Sample.K2 1%nat 4 None None)
     = Ok [[0]; [-29 # 240]; [22159 # 21600]]%Q
  /\ rmap (fun r => Sample.mval (snd r))
          (simulate_trial_indexed Sample.random_split Sample.random_normal Sample.lqg2
             Sample.Ls_ex Sample.Ks_ex 1%nat 4 None None)
     = Ok [[0]; [-7 # 40]; [81 # 8]]%Q.
Proof. repeat split; vm_compute; reflexivity. Qed.

(** ** C7: determinism *)

Lemma run_pbind {key world A B : Type} (h : sampler key world) (m : prog key A)
  (k : A -> prog key B) (w : world) :
  run h (pbind m k) w
  = match run h m w with
    | (Ok a, w') => run h (k a) w'
    | (Raise e, w') => (Raise e, w')
    end.
Proof.
  revert w. induction m as [a|e|k0 cont IH|k0 n cont IH|k0 r c cont IH|r c cont IH];
    intros w; cbn [pbind run]; try reflexivity; try apply IH.
  destruct (sample_global h r c w) as [M w']. apply IH.
Qed.

Lemma run_lift {key world A : Type} (h : sampler key world) (r : result A) (w : world) :
  run h (lift r) w = (r, w).
Proof. destruct r; reflexivity. Qed.

Lemma run_mapP {key world A B : Type} (h : sampler key world) (g : A -> prog key B)
  (g' : A -> result B) (l : list A) :
  (forall a w, run h (g a) w = (g' a, w)) ->
  forall w, run h (mapP g l) w = (mapM g' l, w).
Proof.
  intros Hg. induction l as [|a l IH]; intros w; [reflexivity|].
  cbn [mapP mapM]. rewrite run_pbind, Hg.
  destruct (g' a) as [b|e]; [|reflexivity]. cbn [bind].
  rewrite run_pbind, IH. destruct (mapM g' l) as [bs|e]; reflexivity.
Qed.

(** A trial makes its four keyed calls and no other: its run returns what
    [simulate_trial] computes from the key, and leaves the process-wide
    generator as it found it. *)
Lemma run_simulate_trial_prog {key world : Type} (h : sampler key world)
  (self : System) (L K : mat) (rng_key : key) (T : nat) (x0 xhat0 : option vec) (w : world) :
  run h (simulate_trial_prog self L K rng_key T x0 xhat0) w
  = (simulate_trial (sample_split h) (sample_normal h) self L K rng_key T x0 xhat0, w).
Proof.
  unfold simulate_trial_prog, simulate_trial. cbn [pbind run].
  destruct (sample_split h rng_key) as [k1 s1]. cbn [pbind run].
  destruct (sample_split h k1) as [k2 s2]. cbn [pbind run].
  apply run_lift.
Qed.

(** C7.  [simulate] is deterministic in its explicit inputs and has no side
    effect on a random source of its own.  Run from any state [w] of the
    process-wide generator, the calls [simulate] makes return the value that
    is computed from [rng_key], [n], [T] and [x0] by the keyed calls
    [random.split] and [random.normal] alone, and the run leaves the
    process-wide generator in the state [w]; so a second call with the same
    key, [n], [T] and [x0] returns the same result, whatever the state [w']
    and the behaviour [g'] of the process-wide generator by then. *)
Theorem simulate_deterministic :
  forall (key world : Type) (h : sampler key world)
         (control_law kalman_gain : mat -> mat -> mat -> mat -> nat -> result mat)
         (self : System) (rng_key : key) (n T : nat) (x0 : option vec)
         (return_all : bool) (w : world),
    run h (simulate_prog control_law kalman_gain self rng_key n T x0 return_all) w
    = (simulate (sample_split h) (sample_split_num h) (sample_normal h)
                control_law kalman_gain self rng_key n T x0 return_all, w)
    /\ forall (g' : nat -> nat -> world -> mat * world) (w' : world),
         fst (run (Build_sampler (sample_split h) (sample_split_num h) (sample_normal h) g')
                  (simulate_prog control_law kalman_gain self rng_key n T x0 return_all) w')
         = fst (run h (simulate_prog control_law kalman_gain self rng_key n T x0
                         return_all) w).
Proof.
  intros key world h control_law kalman_gain self rng_key n T x0 return_all w.
  assert (E : forall (h0 : sampler key world) w0,
             run h0 (simulate_prog control_law kalman_gain self rng_key n T x0
                       return_all) w0
             = (simulate (sample_split h0) (sample_split_num h0) (sample_normal h0)
                         control_law kalman_gain self rng_key n T x0 return_all, w0)).
  { intros h0 w0. unfold simulate_prog, simulate.
    rewrite run_pbind, run_lift.
    destruct (Actor.L control_law (actor self) T) as [L|e]; [|reflexivity]. cbn [bind].
    rewrite run_pbind, run_lift.
    destruct (Actor.K kalman_gain (actor self) T) as [K|e]; [|reflexivity]. cbn [bind].
    cbn [pbind run].
    rewrite run_pbind.
    rewrite (run_mapP h0 _ (fun k => simulate_trial (sample_split h0) (sample_normal h0)
                                       self L K k T x0 None))
      by (intros a w1; apply run_simulate_trial_prog).
    destruct (mapM _ _) as [trials|e]; reflexivity. }
  split; [apply E|]. intros g' w'. now rewrite !E.
Qed.

(** A draw without a key is told apart: from two states of the counting
    generator it returns different numbers, and it advances the state. *)
Example global_draw_depends_on_state :
  rmap Sample.mval (fst (run Variants.counting (GlobalNormal 1 2 Ret) 0%nat))
  = Ok [[-3 # 2; 1]]%Q
  /\ rmap Sample.mval (fst (run Variants.counting (GlobalNormal 1 2 Ret) 1%nat))
     = Ok [[-1; 3 # 2]]%Q
  /\ snd (run Variants.counting (GlobalNormal 1 2 (@Ret Sample.key mat)) 0%nat) = 1%nat.
Proof. repeat split; vm_compute; reflexivity. Qed.

(** On the demo model, from the state 7 of the counting generator, the run
    returns states of shape (3, 2, 2) and leaves the state 7. *)
Example simulate_prog_small_run :
  (rmap (fun r => shape3 (states_of r))
        (fst (run Variants.counting
                  (simulate_prog (Sample.fixed_gain Sample.L2) (Sample.fixed_gain Sample.K2)
                                 Sample.lqg2 O 2 3 None false) 7%nat)),
   snd (run Variants.counting
            (simulate_prog (Sample.fixed_gain Sample.L2) (Sample.fixed_gain Sample.K2)
                           Sample.lqg2 O 2 3 None false) 7%nat))
  = (Ok (3, 2, 2)%nat, 7%nat).
Proof. vm_compute. reflexivity. Qed.

(** ** C8: an initial state of the wrong length *)

Lemma matvec_mismatch (r c : nat) (A : mat) (v : vec) :
  is_mat r c A = true -> (0 < r)%nat -> length v <> c ->
  matvec A v = Raise ShapeMismatch.
Proof.
  intros HA Hr Hv. unfold matvec.
  destruct A as [|row A]; [apply is_mat_length in HA; simpl in HA; lia|].
  cbn [forallb].
  assert (Hrow : length row = c).
  { apply is_mat_iff in HA as [_ HA]. apply HA. now left. }
  rewrite Hrow.
  destruct (Nat.eqb_spec c (length v)) as [E|E]; [congruence|reflexivity].
Qed.

Lemma simulate_trial_mismatch (key : Type) (random_split : key -> key * key)
  (random_normal : key -> nat -> nat -> mat)
  (self : System) (L K : mat) (rng_key : key) (T : nat) (v : vec) :
  is_mat (xdim self) (xdim self) (Dynamics.A (dynamics self)) = true ->
  (0 < xdim self)%nat -> length v <> xdim self ->
  simulate_trial random_split random_normal self L K rng_key T (Some v) None
  = Raise ShapeMismatch.
Proof.
  intros HA Hx Hv. apply not_ok_raise. unfold simulate_trial.
  destruct (random_split rng_key) as [k1 s1].
  destruct (random_split k1) as [k2 s2].
  unfold scan, loop.
  destruct (matvec (mneg L) (zeros (bdim self))) as [u0|e]; [|reflexivity].
  cbn [bind]. now rewrite (matvec_mismatch _ _ _ v HA Hx Hv).
Qed.

(** C8.  A call of [simulate] with an initial state whose length differs
    from the state dimension [dynamics.A.shape[0]] fails, for every horizon
    and every [n >= 1]: the first matrix product [A @ x] of the loop body is
    rejected.  (The code has no exception class of its own; the failure is
    the array library's shape error.) *)
Theorem simulate_rejects_mismatched_initial_state :
  forall (key : Type) (random_split : key -> key * key)
         (random_split_num : key -> nat -> list key)
         (random_normal : key -> nat -> nat -> mat)
         (control_law kalman_gain : mat -> mat -> mat -> mat -> nat -> result mat)
         (self : System) (rng_key : key) (n T : nat) (v : vec) (return_all : bool),
    (forall k m, length (random_split_num k m) = m) ->
    is_mat (xdim self) (xdim self) (Dynamics.A (dynamics self)) = true ->
    (0 < xdim self)%nat -> (0 < n)%nat ->
    length v <> xdim self ->
    simulate random_split random_split_num random_normal control_law kalman_gain
             self rng_key n T (Some v) return_all
    = Raise ShapeMismatch.
Proof.
  intros key random_split random_split_num random_normal control_law kalman_gain
         self rng_key n T v return_all Hsplit HA Hx Hn Hv.
  apply not_ok_raise. unfold simulate.
  destruct (Actor.L control_law (actor self) T) as [L|e]; [|reflexivity].
  destruct (Actor.K kalman_gain (actor self) T) as [K|e]; [|reflexivity].
  cbn [bind].
  pose proof (Hsplit rng_key n) as Hlen.
  destruct (random_split_num rng_key n) as [|k keys]; [simpl in Hlen; lia|].
  cbn [mapM].
  now rewrite (simulate_trial_mismatch key random_split random_normal self L K k T v
                 HA Hx Hv).
Qed.

(** The demo model has two states; an initial state of length three is
    rejected. *)
Lemma simulate_rejects_mismatched_initial_state_witness :
  simulate Sample.random_split Sample.random_split_num Sample.random_normal
           (Sample.fixed_gain Sample.L2) (Sample.fixed_gain Sample.K2)
           Sample.lqg2 O 10 1 (Some (zeros 3)) false
  = Raise ShapeMismatch.
Proof.
  apply (simulate_rejects_mismatched_initial_state Sample.key Sample.random_split
           Sample.random_split_num Sample.random_normal
           (Sample.fixed_gain Sample.L2) (Sample.fixed_gain Sample.K2)
           Sample.lqg2 O 10 1 (zeros 3) false);
    first [ exact sample_split_num_length | reflexivity | (vm_compute; lia) ].
Defined.

(** ** C2: the log-likelihood *)

(** C2, as amended.  For a trajectory of shape (T, n, d) with [T >= 2],
    [log_likelihood] returns an array of shape (n, T - 1): for every trial
    [i] and every step [t < T - 1], the log-density of the observation
    [x[t+1, i]] under the Gaussian with mean [mu[t, i, :d]] and covariance
    [Sigma[t, :d, :d]], where [mu] and [Sigma] are the moments
    [conditional_moments] computes from the data up to step [t].  The
    entries are not summed over time. *)
Theorem log_likelihood_is_a_table_of_step_densities :
  forall (control_law kalman_gain : mat -> mat -> mat -> mat -> nat -> result mat)
         (linalg_inv : mat -> mat)
         (logp : Type) (mvn_log_prob : vec -> mat -> vec -> logp)
         (x b u y v n d T : nat) (self : System) (L K : mat) (xs : arr3),
    filter_shapes x b u y v self L K = true ->
    Actor.L control_law (actor self) (T - 1) = Ok L ->
    Actor.K kalman_gain (actor self) (T - 1) = Ok K ->
    (0 < d <= x + b)%nat -> (0 < n)%nat -> (2 <= T)%nat ->
    (forall M, is_mat d d M = true -> is_mat d d (linalg_inv M) = true) ->
    is_arr3 T n d xs = true ->
    exists mus Sigmas,
      conditional_moments control_law kalman_gain linalg_inv self (removelast xs) None
      = Ok (mus, Sigmas)
      /\ log_likelihood control_law kalman_gain linalg_inv mvn_log_prob self xs
         = Ok (map (fun i =>
                      map (fun t => mvn_log_prob (firstn d (nth i (nth t mus []) []))
                                                 (block_upto d (nth t Sigmas []))
                                                 (nth i (nth (S t) xs []) []))
                          (seq 0 (T - 1)))
                   (seq 0 n)).
Proof.
  intros control_law kalman_gain linalg_inv logp mvn_log_prob x b u y v n d T self L K xs
         Hs HL HK Hd Hn HT Hinv Hxs.
  pose proof (removelast_shape T n d xs Hxs) as Hrl.
  pose proof (tl_shape T n d xs Hxs) as Htl.
  assert (HT1 : (0 < T - 1)%nat) by lia.
  destruct (conditional_moments_shapes control_law kalman_gain linalg_inv
              x b u y v n d (T - 1) self L K (removelast xs) Hs HL HK Hd Hn HT1 Hinv Hrl)
    as (mus & Sigmas & E & Hmus & HSig).
  exists mus, Sigmas. split; [exact E|].
  assert (Hncols : ncols (hd [] (removelast xs)) = d).
  { apply is_arr3_iff in Hrl as [Hlen Hall].
    destruct (removelast xs) as [|M rest]; [simpl in Hlen; lia|]. cbn [hd].
    apply (@is_mat_ncols n d); [apply Hall; now left | exact Hn]. }
  unfold log_likelihood, conditional_distribution. rewrite E, Hncols. cbn [bind].
  assert (Hlocs : is_arr3 (T - 1) n d (map (cols_upto d) mus) = true).
  { apply is_arr3_iff in Hmus as [Hlen Hall]. apply is_arr3_iff.
    split; [now rewrite length_map|].
    intros M Hin. apply in_map_iff in Hin as (M' & <- & Hin).
    apply (@cols_upto_shape n (x + b)); [now apply Hall | lia]. }
  assert (Hcovs : length (map (block_upto d) Sigmas) = (T - 1)%nat).
  { apply is_arr3_iff in HSig as [Hlen _]. now rewrite length_map. }
  rewrite (log_prob_table mvn_log_prob (T - 1) n d _ _ _ Hlocs Htl Hcovs HT1).
  f_equal. apply map_ext_in. intros i Hi. apply in_seq in Hi.
  apply map_ext_in. intros t Ht. apply in_seq in Ht.
  apply is_arr3_iff in Hmus as [Hlen Hall]. apply is_arr3_iff in HSig as [HlenS _].
  rewrite (nth_map_lt (cols_upto d) mus [] []) by lia.
  rewrite (nth_map_lt (block_upto d) Sigmas [] []) by lia.
  rewrite nth_tl. unfold cols_upto.
  assert (Hrow : is_mat n (x + b) (nth t mus []) = true) by (apply Hall, nth_In; lia).
  rewrite (nth_map_lt (firstn d) (nth t mus []) [] [])
    by (rewrite (is_mat_length Hrow); lia).
  reflexivity.
Qed.

(** The demo model on three observed steps of one trial, with symbolic
    log-densities. *)
Lemma log_likelihood_is_a_table_of_step_densities_witness :
  exists mus Sigmas,
    conditional_moments (Sample.fixed_gain Sample.L2) (Sample.fixed_gain Sample.K2)
      Sample.linalg_inv Sample.lqg2 (removelast Sample.xdata) None
    = Ok (mus, Sigmas)
    /\ log_likelihood (Sample.fixed_gain Sample.L2) (Sample.fixed_gain Sample.K2)
         Sample.linalg_inv Sample.LogDensity Sample.lqg2 Sample.xdata
       = Ok (map (fun i =>
                    map (fun t => Sample.LogDensity (firstn 2 (nth i (nth t mus []) []))
                                                    (block_upto 2 (nth t Sigmas []))
                                                    (nth i (nth (S t) Sample.xdata []) []))
                        (seq 0 (3 - 1)))
                 (seq 0 1)).
Proof.
  apply (log_likelihood_is_a_table_of_step_densities (Sample.fixed_gain Sample.L2)
           (Sample.fixed_gain Sample.K2) Sample.linalg_inv Sample.density Sample.LogDensity
           2 2 1 2 2 1 2 3 Sample.lqg2 Sample.L2 Sample.K2 Sample.xdata);
    first [ reflexivity | lia | exact (sample_inv_shape 2) ].
Defined.

(** C2 as stated fails: for three time steps of one trial the result holds
    two log-densities for that trial, the one of the observation
    [(1/3, 1/4)] of step 1 and the one of the observation [(1/5, 0)] of
    step 2, not one summed value. *)
Lemma log_likelihood_keeps_the_time_axis :
  rmap (fun ll => (length ll, map (@length Sample.density) ll))
       (log_likelihood (Sample.fixed_gain Sample.L2) (Sample.fixed_gain Sample.K2)
          Sample.linalg_inv Sample.LogDensity Sample.lqg2 Sample.xdata)
  = Ok (1, [2])%nat
  /\ rmap (map (map Sample.density_value))
          (log_likelihood (Sample.fixed_gain Sample.L2) (Sample.fixed_gain Sample.K2)
             Sample.linalg_inv Sample.LogDensity Sample.lqg2 Sample.xdata)
     = Ok [[[1 # 3; 1 # 4]; [1 # 5; 0]]]%Q.
Proof. split; vm_compute; reflexivity. Qed.

(** * Further properties of the code *)

(** ** Matrix algebra, continued *)

Lemma transpose_involutive {r c} {A : mat} :
  is_mat r c A = true -> (0 < r)%nat -> (0 < c)%nat -> transpose (transpose A) = A.
Proof.
  intros HA Hr Hc.
  assert (HAt : is_mat c r (transpose A) = true) by (apply transpose_shape; assumption).
  apply (mat_ext r c); [apply transpose_shape; assumption | exact HA |].
  intros i j Hi Hj. rewrite (ent_transpose HAt Hi Hj). now rewrite (ent_transpose HA Hj Hi).
Qed.

(** A Gram matrix [M M^T] is square and symmetric. *)
Lemma gram_symmetric {r c} {M : mat} :
  is_mat r c M = true -> (0 < r)%nat -> (0 < c)%nat ->
  transpose (matmul_raw M (transpose M)) = matmul_raw M (transpose M).
Proof.
  intros HM Hr Hc.
  assert (HMt : is_mat c r (transpose M) = true) by shapes.
  rewrite (transpose_matmul HM HMt Hr Hc). now rewrite (transpose_involutive HM Hr Hc).
Qed.

(** ** Trials and keys *)

Lemma nth_map_nth_error {A B : Type} (g : A -> B) (l : list A) (i : nat) (a : A) (d : B) :
  nth_error l i = Some a -> nth i (map g l) d = g a.
Proof.
  intros H. apply nth_error_nth. now apply map_nth_error.
Qed.

Lemma stack_axis1_entry (T : nat) (trials : list mat) (t i : nat) (tr : mat) :
  nrows (hd [] trials) = T -> (t < T)%nat -> nth_error trials i = Some tr ->
  nth i (nth t (stack_axis1 trials) []) [] = nth t tr [].
Proof.
  intros HT Ht Hi. rewrite (stack_axis1_nth T trials t HT Ht).
  exact (nth_map_nth_error (fun tr' => nth t tr' []) trials i tr [] Hi).
Qed.

Lemma hd_map_rows {A : Type} (g : A -> mat) (l : list A) (T : nat) :
  (0 < length l)%nat -> (forall a, length (g a) = T) -> nrows (hd [] (map g l)) = T.
Proof.
  intros Hl Hg. destruct l as [|a l]; [simpl in Hl; lia|]. cbn [map hd]. apply Hg.
Qed.

Section Trials.

Variable key : Type.
Variable random_split : key -> key * key.
Variable random_split_num : key -> nat -> list key.
Variable random_normal : key -> nat -> nat -> mat.
Hypothesis random_normal_shape : forall k r c, is_mat r c (random_normal k r c) = true.
Hypothesis random_split_num_length : forall k n, length (random_split_num k n) = n.

Variables (x b u : nat) (self : System) (L K : mat).
Hypothesis Hshapes : simulate_shapes x b u x self L K = true.

Local Abbreviation trial_x := (trial_x key random_split random_normal x self L K).
Local Abbreviation trial_x_hat := (trial_x_hat key random_split random_normal x self L K).
Local Abbreviation trial_y := (trial_y key random_split random_normal x self).
Local Abbreviation trial_u := (trial_u key random_split random_normal x self L K).
Local Abbreviation sim_x :=
  (sim_x key random_split random_split_num random_normal x self L K).
Local Abbreviation sim_x_hat :=
  (sim_x_hat key random_split random_split_num random_normal x self L K).
Local Abbreviation sim_y := (sim_y key random_split random_split_num random_normal x self).
Local Abbreviation sim_u :=
  (sim_u key random_split random_split_num random_normal x self L K).

(** The first row of the beliefs is zero for every trial. *)
Lemma sim_x_hat_first_row (rng_key : key) (n T : nat) (x0 : option vec) :
  (0 < n)%nat -> hd [] (sim_x_hat rng_key n T x0) = repeat (zeros (bdim self)) n.
Proof.
  intros Hn. unfold sim_x_hat.
  pose proof (random_split_num_length rng_key n) as Hlen.
  set (keys := random_split_num rng_key n) in *.
  set (trials := map (fun k => trial_x_hat k T x0) keys).
  assert (HT' : (0 < nrows (hd [] trials))%nat).
  { subst trials. destruct keys as [|k keys]; [simpl in Hlen; lia|]. simpl. lia. }
  rewrite hd_nth0, (stack_axis1_nth _ trials O eq_refl HT').
  subst trials. rewrite map_map. cbn [trial_x_hat nth].
  rewrite <- Hlen. apply map_const_repeat.
Qed.

(** The one row of the observations. *)
Lemma sim_y_row (rng_key : key) (n T : nat) (x0 : option vec) :
  (0 < n)%nat ->
  sim_y rng_key n T x0
  = [map (fun k =>
            vadd_raw (matvec_raw (Dynamics.C (dynamics self)) (initial_state self x0))
                     (matvec_raw (Dynamics.V (dynamics self))
                        (row_at 0 (random_normal
                                     (snd (random_split (fst (random_split k)))) T x))))
         (random_split_num rng_key n)].
Proof.
  intros Hn. unfold sim_y, stack_axis1.
  pose proof (random_split_num_length rng_key n) as Hlen.
  destruct (random_split_num rng_key n) as [|k keys]; [simpl in Hlen; lia|].
  cbn [map hd nrows length seq nth trial_y]. rewrite map_map. reflexivity.
Qed.

Variables (rng_key : key) (n T : nat) (x0 : option vec).
Hypothesis HT : (0 < T)%nat.
Hypothesis Hx0 : length (initial_state self x0) = x.

Lemma sim_entries (i : nat) (k : key) :
  nth_error (random_split_num rng_key n) i = Some k ->
  (forall t, (t < T)%nat ->
     nth i (nth t (sim_x rng_key n T x0) []) [] = nth t (trial_x k T x0) []
     /\ nth i (nth t (sim_x_hat rng_key n T x0) []) [] = nth t (trial_x_hat k T x0) [])
  /\ (forall t, (t < T - 1)%nat ->
        nth i (nth t (sim_u rng_key n T x0) []) [] = nth t (trial_u k T x0) [])
  /\ nth i (nth 0 (sim_y rng_key n T x0) []) [] = nth 0 (trial_y k T x0) [].
Proof.
  intros Hk.
  assert (Hlen : (0 < length (random_split_num rng_key n))%nat).
  { destruct (random_split_num rng_key n); [now destruct i | simpl; lia]. }
  split; [|split].
  - intros t Ht. split.
    + apply (stack_axis1_entry T);
        [|exact Ht|exact (map_nth_error (fun a => trial_x a T x0) i _ Hk)].
      apply hd_map_rows; [exact Hlen|]. intros a.
      exact (is_mat_length (trial_x_shape key random_split random_normal
               random_normal_shape x b u self L K Hshapes a T x0 HT Hx0)).
    + apply (stack_axis1_entry T);
        [|exact Ht|exact (map_nth_error (fun a => trial_x_hat a T x0) i _ Hk)].
      apply hd_map_rows; [exact Hlen|]. intros a.
      exact (is_mat_length (trial_x_hat_shape key random_split random_normal
               random_normal_shape x b u self L K Hshapes a T x0 HT Hx0)).
  - intros t Ht.
    apply (stack_axis1_entry (T - 1));
      [|exact Ht|exact (map_nth_error (fun a => trial_u a T x0) i _ Hk)].
    apply hd_map_rows; [exact Hlen|]. intros a.
    exact (is_mat_length (trial_u_shape key random_split random_normal
             random_normal_shape x b u self L K Hshapes a T x0 HT Hx0)).
  - apply (stack_axis1_entry 1);
      [|lia|exact (map_nth_error (fun a => trial_y a T x0) i _ Hk)].
    apply hd_map_rows; [exact Hlen|]. intros a. reflexivity.
Qed.

End Trials.

(** ** Zero vectors *)

Lemma dot_zeros_r (v : vec) k : dot v (zeros k) = 0.
Proof.
  unfold dot, zeros. revert k. induction v as [|a v IH]; intros [|k]; try reflexivity.
  cbn [repeat map2 map fold_right]. rewrite IH. ring.
Qed.

Lemma dot_zeros_l k (v : vec) : dot (zeros k) v = 0.
Proof.
  unfold dot, zeros. revert v. induction k as [|k IH]; intros [|a v]; try reflexivity.
  cbn [repeat map2 map fold_right]. rewrite IH. ring.
Qed.

Lemma matvec_raw_zeros_r (A : mat) k : matvec_raw A (zeros k) = zeros (length A).
Proof.
  unfold matvec_raw. rewrite (map_ext _ (fun _ => 0)) by (intros r; apply dot_zeros_r).
  apply map_const_repeat.
Qed.

Lemma matvec_raw_zeros2 r c (v : vec) : matvec_raw (zeros2 r c) v = zeros r.
Proof.
  unfold matvec_raw, zeros2. rewrite map_repeat. now rewrite dot_zeros_l.
Qed.

Lemma vadd_raw_zeros k : vadd_raw (zeros k) (zeros k) = zeros k.
Proof.
  unfold vadd_raw, zeros. induction k as [|k IH]; [reflexivity|].
  cbn [repeat map2]. rewrite IH. f_equal; ring.
Qed.

Lemma vsub_raw_zeros k : vsub_raw (zeros k) (zeros k) = zeros k.
Proof.
  unfold vsub_raw, zeros. induction k as [|k IH]; [reflexivity|].
  cbn [repeat map2]. rewrite IH. f_equal; ring.
Qed.

Lemma scan_from_const {C X Y : Type} (body : C -> X -> result (C * Y)) (c : C) (o : Y)
  (xs : list X) :
  (forall x, body c x = Ok (c, o)) -> scan_from body c xs = Ok (c, repeat o (length xs)).
Proof.
  intros H. induction xs as [|x xs IH]; [reflexivity|].
  cbn [scan_from length repeat]. rewrite H. cbn [bind]. rewrite IH. reflexivity.
Qed.

Lemma stack_axis1_repeat (v : vec) (T n : nat) :
  (0 < n)%nat -> stack_axis1 (repeat (repeat v T) n) = repeat (repeat v n) T.
Proof.
  intros Hn. unfold stack_axis1.
  assert (E : nrows (hd [] (repeat (repeat v T) n)) = T).
  { destruct n; [lia|]. cbn [repeat hd]. apply repeat_length. }
  rewrite E.
  rewrite (map_ext_in _ (fun _ => repeat v n)).
  - rewrite map_const_repeat. now rewrite length_seq.
  - intros t Ht. apply in_seq in Ht. rewrite map_repeat.
    now rewrite nth_repeat_lt by lia.
Qed.

(** ** The origin is a fixed point of the noise-free loop *)

Section NoiseFree.

Variable key : Type.
Variable random_split : key -> key * key.
Variable random_split_num : key -> nat -> list key.
Variable random_normal : key -> nat -> nat -> mat.
Hypothesis random_normal_shape : forall k r c, is_mat r c (random_normal k r c) = true.
Hypothesis random_split_num_length : forall k n, length (random_split_num k n) = n.

Variables (x b u : nat) (self : System) (L K : mat).
Hypothesis Hshapes : simulate_shapes x b u x self L K = true.
Hypothesis HV : Dynamics.V (dynamics self) = zeros2 x x.
Hypothesis HW : Dynamics.W (dynamics self) = zeros2 x x.

Lemma loop_raw_origin (epsilon eta : mat) (t : nat) :
  loop_raw self L K epsilon eta (zeros x, zeros b) t
  = ((zeros x, zeros b), (zeros x, zeros b, zeros x, zeros u)).
Proof.
  destruct (simulate_shapes_spec _ _ _ _ _ _ _ Hshapes)
    as (HA & HB & HC & _ & _ & HaA & HaB & HaC & HL & HK).
  unfold loop_raw. cbv zeta. rewrite HV, HW.
  rewrite !matvec_raw_zeros2.
  assert (EL : length (mneg L) = u)
    by (unfold mneg; rewrite length_map; exact (is_mat_length HL)).
  rewrite (matvec_raw_zeros_r (mneg L)), EL.
  rewrite !matvec_raw_zeros_r.
  rewrite (is_mat_length HA), (is_mat_length HB), (is_mat_length HaA), (is_mat_length HaB).
  rewrite !vadd_raw_zeros.
  rewrite !matvec_raw_zeros_r.
  rewrite (is_mat_length HC), (is_mat_length HaC).
  rewrite !vadd_raw_zeros, vsub_raw_zeros.
  rewrite !matvec_raw_zeros_r, (is_mat_length HK).
  rewrite !vadd_raw_zeros. reflexivity.
Qed.

Lemma trial_outs_origin (rng_key : key) (T : nat) :
  (0 < T)%nat ->
  trial_outs key random_split random_normal x self L K rng_key T None
  = repeat (zeros x, zeros b, zeros x, zeros u) (T - 1).
Proof.
  intros HT. unfold trial_outs, initial_state.
  rewrite (xdim_eq x b u self L K Hshapes), (bdim_eq x b u self L K Hshapes).
  rewrite (scan_from_const _ (zeros x, zeros b) (zeros x, zeros b, zeros x, zeros u)).
  - now rewrite arange_length.
  - intros t.
    rewrite (loop_ok x b u x T self L K _ _ (zeros x) (zeros b) t Hshapes)
      by (first [ apply random_normal_shape | exact HT | apply zeros_length ]).
    now rewrite loop_raw_origin.
Qed.

Lemma repeat_S_cons {A : Type} (a : A) (T : nat) :
  (0 < T)%nat -> a :: repeat a (T - 1) = repeat a T.
Proof.
  intros HT. destruct T as [|T']; [lia|].
  replace (S T' - 1)%nat with T' by lia. reflexivity.
Qed.

Lemma trial_origin (rng_key : key) (T : nat) :
  (0 < T)%nat ->
  trial_x key random_split random_normal x self L K rng_key T None = repeat (zeros x) T
  /\ trial_x_hat key random_split random_normal x self L K rng_key T None
     = repeat (zeros b) T
  /\ trial_y key random_split random_normal x self rng_key T None = repeat (zeros x) 1
  /\ trial_u key random_split random_normal x self L K rng_key T None
     = repeat (zeros u) (T - 1).
Proof.
  intros HT.
  destruct (simulate_shapes_spec _ _ _ _ _ _ _ Hshapes) as (_ & _ & HC & _).
  unfold trial_x, trial_x_hat, trial_y, trial_u.
  rewrite (trial_outs_origin rng_key T HT).
  unfold outs_x, outs_x_hat, outs_u. rewrite !map_repeat. cbn [fst snd].
  unfold initial_state.
  rewrite (xdim_eq x b u self L K Hshapes), (bdim_eq x b u self L K Hshapes).
  rewrite !repeat_S_cons by exact HT.
  rewrite HV, matvec_raw_zeros2, matvec_raw_zeros_r, (is_mat_length HC), vadd_raw_zeros.
  repeat split.
Qed.

End NoiseFree.

(** ** Operands that do not fit *)

Lemma matvec_length (A : mat) (v w : vec) : matvec A v = Ok w -> length w = nrows A.
Proof.
  unfold matvec. destruct (forallb _ A); [|discriminate].
  intros H. apply Ok_inj in H. subst w. unfold matvec_raw, nrows. apply length_map.
Qed.

Lemma broadcast_to_mismatch {A : Type} (k : nat) (l : list A) :
  length l <> k -> length l <> 1%nat -> broadcast_to k l = None.
Proof.
  intros Hk H1. unfold broadcast_to.
  destruct (Nat.eqb_spec (length l) k); [contradiction|].
  destruct l as [|a [|a' l]]; try reflexivity. now contradiction H1.
Qed.

Lemma vzip_mismatch (g : Qc -> Qc -> Qc) (u v : vec) :
  length u <> length v -> length u <> 1%nat -> length v <> 1%nat ->
  vzip g u v = Raise ShapeMismatch.
Proof.
  intros Hne Hu Hv. unfold vzip, broadcast_len.
  destruct (Nat.eqb_spec (length u) 1); [contradiction|].
  rewrite (broadcast_to_same (length u) u eq_refl).
  now rewrite (broadcast_to_mismatch (length u) v) by congruence.
Qed.

Lemma mzip_mismatch (g : Qc -> Qc -> Qc) (n c c' : nat) (A B : mat) :
  is_mat n c A = true -> is_mat n c' B = true -> (0 < n)%nat ->
  c <> c' -> c <> 1%nat -> c' <> 1%nat ->
  mzip g A B = Raise ShapeMismatch.
Proof.
  intros HA HB Hn Hne Hc Hc'. unfold mzip.
  rewrite (is_mat_length HA), (is_mat_length HB), broadcast_len_same.
  rewrite (broadcast_to_same n A (is_mat_length HA)).
  rewrite (broadcast_to_same n B (is_mat_length HB)).
  pose proof (@is_mat_row n c A 0 HA Hn) as HrA.
  pose proof (@is_mat_row n c' B 0 HB Hn) as HrB.
  destruct A as [|ra A]; [apply is_mat_length in HA; simpl in HA; lia|].
  destruct B as [|rb B]; [apply is_mat_length in HB; simpl in HB; lia|].
  cbn [nth] in HrA, HrB. cbn [combine mapM fst snd].
  now rewrite vzip_mismatch by congruence.
Qed.

Lemma cols_upto_all {r c d} {A : mat} :
  is_mat r c A = true -> (c <= d)%nat -> cols_upto d A = A.
Proof.
  intros HA Hd. unfold cols_upto. apply is_mat_iff in HA as [_ HA].
  rewrite <- (map_id A) at 2. apply map_ext_in. intros row Hin.
  apply firstn_all2. rewrite (HA row Hin). exact Hd.
Qed.

Section TrialErrors.

Variable key : Type.
Variable random_split : key -> key * key.
Variable random_normal : key -> nat -> nat -> mat.
Variables (self : System) (L K : mat) (rng_key : key) (T : nat) (x0 xhat0 : option vec).

(** The step-0 observation adds a vector with one entry for each row of [C]
    to one with one entry for each row of [V]. *)
Lemma simulate_trial_observation_mismatch :
  nrows (Dynamics.C (dynamics self)) <> nrows (Dynamics.V (dynamics self)) ->
  nrows (Dynamics.C (dynamics self)) <> 1%nat ->
  nrows (Dynamics.V (dynamics self)) <> 1%nat ->
  simulate_trial random_split random_normal self L K rng_key T x0 xhat0
  = Raise ShapeMismatch.
Proof.
  intros Hne HC HV. apply not_ok_raise. unfold simulate_trial.
  destruct (random_split rng_key) as [k1 s1].
  destruct (random_split k1) as [k2 s2].
  destruct (scan _ _ _ _) as [[c outs]|e]; [|reflexivity]. cbn [bind].
  destruct (vstack_row _ (outs_x outs)) as [xs|e]; [|reflexivity]. cbn [bind].
  destruct (vstack_row _ (outs_x_hat outs)) as [xhs|e]; [|reflexivity]. cbn [bind].
  destruct (matvec (Dynamics.C (dynamics self)) _) as [Cx0|e] eqn:EC; [|reflexivity].
  cbn [bind].
  destruct (matvec (Dynamics.V (dynamics self)) _) as [Ve0|e] eqn:EV; [|reflexivity].
  cbn [bind]. apply matvec_length in EC, EV.
  unfold vadd. now rewrite vzip_mismatch by congruence.
Qed.

(** The noise rows have the width of the initial state. *)
Lemma simulate_trial_noise_mismatch (r v : nat) :
  (forall k r c, is_mat r c (random_normal k r c) = true) ->
  is_mat r v (Dynamics.V (dynamics self)) = true -> (0 < r)%nat -> (0 < T)%nat ->
  v <> length (initial_state self x0) ->
  simulate_trial random_split random_normal self L K rng_key T x0 xhat0
  = Raise ShapeMismatch.
Proof.
  intros Hnormal HV Hr HT Hv. apply not_ok_raise. unfold simulate_trial.
  fold (initial_state self x0).
  destruct (random_split rng_key) as [k1 s1].
  destruct (random_split k1) as [k2 s2].
  unfold scan, loop.
  destruct (matvec (mneg L) _) as [u0|e]; [|reflexivity]. cbn [bind].
  destruct (matvec (Dynamics.A (dynamics self)) _) as [Ax|e]; [|reflexivity]. cbn [bind].
  destruct (matvec (Dynamics.B (dynamics self)) _) as [Bu|e]; [|reflexivity]. cbn [bind].
  destruct (vadd Ax Bu) as [AxBu|e]; [|reflexivity]. cbn [bind].
  rewrite (matvec_mismatch r v); [reflexivity | exact HV | exact Hr |].
  rewrite (row_at_length _ (Hnormal s1 T _) HT). congruence.
Qed.

End TrialErrors.

(** ** Two runs of a scan *)

Lemma scan_from_firstn {C X Y : Type} (body : C -> X -> result (C * Y)) (k : nat) :
  forall xs c c' ys, scan_from body c xs = Ok (c', ys) ->
    exists c'', scan_from body c (firstn k xs) = Ok (c'', firstn k ys).
Proof.
  induction k as [|k IH]; intros xs c c' ys H; [exists c; reflexivity|].
  destruct xs as [|x xs]; cbn [scan_from] in H.
  - apply Ok_inj in H. inversion H; subst. exists c'. reflexivity.
  - destruct (body c x) as [[c1 y]|e] eqn:E1; [|discriminate]. cbn [bind] in H.
    destruct (scan_from body c1 xs) as [[c2 ys']|e] eqn:E2; [|discriminate].
    cbn [bind] in H. apply Ok_inj in H. inversion H; subst.
    destruct (IH xs c1 c' ys' E2) as (c'' & E3).
    exists c''. cbn [firstn scan_from]. rewrite E1. cbn [bind]. rewrite E3. reflexivity.
Qed.

Lemma scan_from_related {C C' X X' Y Y' : Type}
  (body : C -> X -> result (C * Y)) (body' : C' -> X' -> result (C' * Y'))
  (R : C -> C' -> Prop) (Q : X -> X' -> Prop) (P : Y -> Y' -> Prop) :
  (forall c c' x x' c1 y c1' y',
      R c c' -> Q x x' -> body c x = Ok (c1, y) -> body' c' x' = Ok (c1', y') ->
      R c1 c1' /\ P y y') ->
  forall xs xs' c c' c1 ys c1' ys',
    Forall2 Q xs xs' -> R c c' ->
    scan_from body c xs = Ok (c1, ys) -> scan_from body' c' xs' = Ok (c1', ys') ->
    Forall2 P ys ys'.
Proof.
  intros Hstep xs xs' c c' c1 ys c1' ys' HQ. revert c c' c1 ys c1' ys'.
  induction HQ as [|x x' xs xs' Hx HQ IH]; intros c c' c1 ys c1' ys' HR H H';
    cbn [scan_from] in H, H'.
  - apply Ok_inj in H, H'. inversion H; inversion H'; subst. constructor.
  - destruct (body c x) as [[c2 y]|e] eqn:E1; [|discriminate]. cbn [bind] in H.
    destruct (scan_from body c2 xs) as [[c3 ys0]|e] eqn:E2; [|discriminate].
    cbn [bind] in H. apply Ok_inj in H. inversion H; subst.
    destruct (body' c' x') as [[c2' y']|e] eqn:E1'; [|discriminate]. cbn [bind] in H'.
    destruct (scan_from body' c2' xs') as [[c3' ys0']|e] eqn:E2'; [|discriminate].
    cbn [bind] in H'. apply Ok_inj in H'. inversion H'; subst.
    destruct (Hstep c c' x x' c2 y c2' y' HR Hx E1 E1') as [HR' HP].
    constructor; [exact HP|]. exact (IH c2 c2' c1 ys0 c1' ys0' HR' E2 E2').
Qed.

Lemma Forall2_map_eq {A B C : Type} (g : A -> C) (h : B -> C) (l : list A) (l' : list B) :
  Forall2 (fun a a' => g a = h a') l l' -> map g l = map h l'.
Proof. induction 1 as [|a a' l l' H _ IH]; [reflexivity|]. cbn [map]. now rewrite H, IH. Qed.

Lemma Forall2_nth_rel {A B : Type} (P : A -> B -> Prop) (l : list A) (l' : list B)
  (t : nat) (d : A) (d' : B) :
  Forall2 P l l' -> (t < length l)%nat -> P (nth t l d) (nth t l' d').
Proof.
  intros H. revert t. induction H as [|a a' l l' Ha _ IH]; intros t Ht; [simpl in Ht; lia|].
  destruct t as [|t]; [exact Ha|]. cbn [nth]. apply IH. simpl in Ht. lia.
Qed.

Lemma Forall2_same_length_intro {A B : Type} (P : A -> B -> Prop) (l : list A) (l' : list B) :
  length l = length l' ->
  (forall t d d', (t < length l)%nat -> P (nth t l d) (nth t l' d')) ->
  Forall2 P l l'.
Proof.
  revert l'. induction l as [|a l IH]; intros [|a' l'] Hlen H; try discriminate.
  - constructor.
  - constructor.
    + apply (H 0%nat a a'). simpl. lia.
    + apply IH; [now inversion Hlen|].
      intros t d d' Ht. apply (H (S t) d d'). simpl. lia.
Qed.

(** ** Rows of the filtering step *)

Lemma nth_matmul_raw (A B : mat) (i : nat) :
  (i < length A)%nat -> nth i (matmul_raw A B) [] = rowmul (nth i A []) B.
Proof.
  intros Hi. unfold matmul_raw.
  exact (nth_map_lt (fun r => rowmul r B) A [] [] Hi).
Qed.

Lemma f_mean_row (linalg_inv : mat -> mat) (n m d : nat) (F mu Sigma xt : mat) (i : nat) :
  is_mat n m mu = true -> is_mat n d xt = true -> (i < n)%nat ->
  nth i (f_mean linalg_inv d F mu Sigma xt) []
  = vadd_raw (rowmul (nth i mu []) (transpose F))
      (rowmul (rowmul (vsub_raw (nth i xt []) (firstn d (nth i mu [])))
                      (transpose (linalg_inv (block_upto d Sigma))))
              (transpose (cols_upto d (matmul_raw F Sigma)))).
Proof.
  intros Hmu Hxt Hi.
  pose proof (is_mat_length Hmu) as Lmu. pose proof (is_mat_length Hxt) as Lxt.
  unfold f_mean, madd_raw, msub_raw, cols_upto.
  assert (Lc : length (map (firstn d) mu) = n) by now rewrite length_map.
  assert (Ls : length (map2 vsub_raw xt (map (firstn d) mu)) = n)
    by (rewrite length_map2; lia).
  rewrite (nth_map2 _ _ _ [] [] []);
    [| unfold matmul_raw; rewrite length_map; lia
     | unfold matmul_raw; rewrite !length_map; lia ].
  rewrite !nth_matmul_raw;
    [| lia | unfold matmul_raw; rewrite length_map; lia | lia ].
  rewrite (nth_map2 _ _ _ [] [] []) by lia.
  rewrite (nth_map_lt (firstn d) mu [] []) by lia.
  reflexivity.
Qed.

(** ** Runs of the filter *)

Section FilterRuns.

Variable control_law : mat -> mat -> mat -> mat -> nat -> result mat.
Variable kalman_gain : mat -> mat -> mat -> mat -> nat -> result mat.
Variable linalg_inv : mat -> mat.
Variables (x b u y v d : nat) (self : System) (L K F G : mat).
Hypothesis Hshapes : filter_shapes x b u y v self L K = true.
Hypothesis HF : build_F self L K = Ok F.
Hypothesis HG : build_G self K = Ok G.
Hypothesis Hd : (0 < d <= x + b)%nat.
Hypothesis linalg_inv_shape :
  forall M, is_mat d d M = true -> is_mat d d (linalg_inv M) = true.

(** The value of a step on a well-shaped carry. *)
Lemma f_step_value (n : nat) (c : mat * mat) (xt : mat) :
  (0 < n)%nat -> carry_ok x b n c -> is_mat n d xt = true ->
  f linalg_inv F G d c xt
  = Ok ((f_mean linalg_inv d F (fst c) (snd c) xt, f_cov linalg_inv d F G (snd c)),
        (f_mean linalg_inv d F (fst c) (snd c) xt, f_cov linalg_inv d F G (snd c)))
  /\ carry_ok x b n (f_mean linalg_inv d F (fst c) (snd c) xt,
                     f_cov linalg_inv d F G (snd c)).
Proof.
  intros Hn [Hmu HS] Hxt. destruct c as [mu Sigma]. cbn [fst snd] in *.
  destruct (filter_shapes_spec _ _ _ _ _ _ _ _ Hshapes)
    as ((Hx & Hb & Hu & Hy & Hv) & _).
  assert (Hm : (0 < x + b)%nat) by lia.
  assert (Hk : (0 < v + y)%nat) by lia.
  pose proof (F_shape x b u y v self L K F Hshapes HF) as HFs.
  pose proof (G_shape x b u y v self L K G Hshapes HG) as HGs.
  assert (Hinv : is_mat d d (linalg_inv (block_upto d Sigma)) = true).
  { apply linalg_inv_shape. shapes. }
  split.
  - exact (f_ok linalg_inv n (x + b) (v + y) d F G mu Sigma xt Hd Hk HFs HGs
             Hmu HS Hxt Hinv).
  - split; cbn [fst snd].
    + exact (f_mean_shape linalg_inv n (x + b) (v + y) d F mu Sigma xt Hd Hk HFs
               Hmu HS Hxt Hinv).
    + exact (f_cov_shape linalg_inv (x + b) (v + y) d F G Sigma Hd Hk HFs HGs HS Hinv).
Qed.

(** Two runs from carries with the same covariance return the same
    covariances, whatever the means and the data. *)
Lemma filter_covariances_agree (n n' : nat) (xs xs' : arr3) (c c' c1 c1' : mat * mat)
  (outs outs' : list (mat * mat)) :
  (0 < n)%nat -> (0 < n')%nat ->
  Forall2 (fun xt xt' => is_mat n d xt = true /\ is_mat n' d xt' = true) xs xs' ->
  carry_ok x b n c -> carry_ok x b n' c' -> snd c = snd c' ->
  scan_from (f linalg_inv F G d) c xs = Ok (c1, outs) ->
  scan_from (f linalg_inv F G d) c' xs' = Ok (c1', outs') ->
  map snd outs = map snd outs'.
Proof.
  intros Hn Hn' Hxs Hc Hc' Hcc E E'.
  apply Forall2_map_eq.
  refine (scan_from_related (f linalg_inv F G d) (f linalg_inv F G d)
            (fun a a' => carry_ok x b n a /\ carry_ok x b n' a' /\ snd a = snd a')
            (fun xt xt' => is_mat n d xt = true /\ is_mat n' d xt' = true)
            (fun o o' => snd o = snd o') _ xs xs' c c' c1 outs c1' outs' Hxs _ E E');
    [|auto].
  intros a a' xt xt' a1 o a1' o' (Ha & Ha' & Haa) (Hxt & Hxt') H H'.
  destruct (f_step_value n a xt Hn Ha Hxt) as [V1 W1].
  destruct (f_step_value n' a' xt' Hn' Ha' Hxt') as [V2 W2].
  rewrite V1 in H. rewrite V2 in H'. apply Ok_inj in H, H'.
  inversion H; inversion H'; subst. cbn [snd].
  split; [split; [exact W1 | split; [exact W2 | now rewrite Haa]] | now rewrite Haa].
Qed.

(** Two runs whose data and initial means agree on one trial return the same
    means for that trial. *)
Lemma filter_trial_means_agree (n n' i j : nat) (xs xs' : arr3) (c c' c1 c1' : mat * mat)
  (outs outs' : list (mat * mat)) :
  (i < n)%nat -> (j < n')%nat ->
  Forall2 (fun xt xt' => (is_mat n d xt = true /\ is_mat n' d xt' = true)
                         /\ nth i xt [] = nth j xt' []) xs xs' ->
  carry_ok x b n c -> carry_ok x b n' c' -> snd c = snd c' ->
  nth i (fst c) [] = nth j (fst c') [] ->
  scan_from (f linalg_inv F G d) c xs = Ok (c1, outs) ->
  scan_from (f linalg_inv F G d) c' xs' = Ok (c1', outs') ->
  Forall2 (fun o o' => nth i (fst o) [] = nth j (fst o') []) outs outs'.
Proof.
  intros Hi Hj Hxs Hc Hc' Hcc Hrow E E'.
  refine (scan_from_related (f linalg_inv F G d) (f linalg_inv F G d)
            (fun a a' => carry_ok x b n a /\ carry_ok x b n' a' /\ snd a = snd a'
                         /\ nth i (fst a) [] = nth j (fst a') [])
            (fun xt xt' => (is_mat n d xt = true /\ is_mat n' d xt' = true)
                           /\ nth i xt [] = nth j xt' [])
            (fun o o' => nth i (fst o) [] = nth j (fst o') [])
            _ xs xs' c c' c1 outs c1' outs' Hxs _ E E');
    [|auto].
  intros a a' xt xt' a1 o a1' o' (Ha & Ha' & Haa & Hr) ((Hxt & Hxt') & Hxr) H H'.
  destruct (f_step_value n a xt ltac:(lia) Ha Hxt) as [V1 W1].
  destruct (f_step_value n' a' xt' ltac:(lia) Ha' Hxt') as [V2 W2].
  rewrite V1 in H. rewrite V2 in H'. apply Ok_inj in H, H'.
  inversion H; inversion H'; subst. cbn [fst snd].
  assert (Erow : nth i (f_mean linalg_inv d F (fst a) (snd a) xt) []
                 = nth j (f_mean linalg_inv d F (fst a') (snd a') xt') []).
  { destruct Ha as [Hmu _]. destruct Ha' as [Hmu' _].
    rewrite (f_mean_row linalg_inv n (x + b) d F (fst a) (snd a) xt i Hmu Hxt Hi).
    rewrite (f_mean_row linalg_inv n' (x + b) d F (fst a') (snd a') xt' j Hmu' Hxt' Hj).
    now rewrite Haa, Hr, Hxr. }
  split; [|exact Erow].
  split; [exact W1 | split; [exact W2 | split; [now rewrite Haa | exact Erow]]].
Qed.

End FilterRuns.

(** ** The arguments of the gain routine *)

Lemma sum_n_nonneg n (g : nat -> Qc) :
  (forall l, (l < n)%nat -> 0 <= g l) -> 0 <= sum_n n g.
Proof.
  induction n as [|n IH]; intros H; cbn [sum_n]; [apply Qcle_refl|].
  change 0 with (0 + 0). apply Qcplus_le_compat; [apply IH; intros; apply H; lia|].
  apply H. lia.
Qed.

Lemma Qc_square_nonneg (a : Qc) : 0 <= a * a.
Proof.
  unfold Qcle. change (this (a * a)) with (Qred (this a * this a)).
  rewrite Qred_correct. change (this 0) with 0%Q.
  destruct (this a) as [p q]. unfold Qle, Qmult. cbn [Qnum Qden]. nia.
Qed.

Lemma gram_diag_nonneg {r c} {M : mat} {i} :
  is_mat r c M = true -> (0 < r)%nat -> (0 < c)%nat -> (i < r)%nat ->
  0 <= ent (matmul_raw M (transpose M)) i i.
Proof.
  intros HM Hr Hc Hi.
  assert (HMt : is_mat c r (transpose M) = true) by shapes.
  rewrite (ent_matmul HM HMt Hc Hi Hi). apply sum_n_nonneg. intros l Hl.
  rewrite (ent_transpose HM Hl Hi). apply Qc_square_nonneg.
Qed.

(** X1.  [Actor.K] hands the gain routine the two Gram matrices [V @ V.T] and
    [W @ W.T]: whatever the noise matrices [V] (r x c) and [W] (r' x c') of
    the internal model, the products are defined, square (r x r and
    r' x r'), symmetric and have a non-negative diagonal. *)
Theorem Actor_K_passes_symmetric_covariances :
  forall (kalman_gain : mat -> mat -> mat -> mat -> nat -> result mat)
         (a : Actor.t) (T r c r' c' : nat),
    is_mat r c (Actor.V a) = true -> is_mat r' c' (Actor.W a) = true ->
    (0 < r)%nat -> (0 < c)%nat -> (0 < r')%nat -> (0 < c')%nat ->
    exists SV SW,
      Actor.K kalman_gain a T = kalman_gain (Actor.A a) (Actor.C a) SV SW T
      /\ is_mat r r SV = true /\ is_mat r' r' SW = true
      /\ transpose SV = SV /\ transpose SW = SW
      /\ (forall i, (i < r)%nat -> 0 <= ent SV i i)
      /\ (forall i, (i < r')%nat -> 0 <= ent SW i i).
Proof.
  intros kalman_gain a T r c r' c' HV HW Hr Hc Hr' Hc'.
  assert (HVt : is_mat c r (transpose (Actor.V a)) = true) by shapes.
  assert (HWt : is_mat c' r' (transpose (Actor.W a)) = true) by shapes.
  exists (matmul_raw (Actor.V a) (transpose (Actor.V a))),
    (matmul_raw (Actor.W a) (transpose (Actor.W a))).
  split; [|split; [shapes|split; [shapes|split; [|split; [|split]]]]].
  - unfold Actor.K. rewrite (matmul_ok2 HV HVt), (matmul_ok2 HW HWt). reflexivity.
  - exact (gram_symmetric HV Hr Hc).
  - exact (gram_symmetric HW Hr' Hc').
  - intros i Hi. exact (gram_diag_nonneg HV Hr Hc Hi).
  - intros i Hi. exact (gram_diag_nonneg HW Hr' Hc' Hi).
Qed.

(** The internal model of the demo. *)
Lemma Actor_K_passes_symmetric_covariances_witness :
  exists SV SW,
    Actor.K (Sample.fixed_gain Sample.K2) (actor Sample.lqg2) 3
    = Sample.fixed_gain Sample.K2 (Actor.A (actor Sample.lqg2))
        (Actor.C (actor Sample.lqg2)) SV SW 3
    /\ is_mat 2 2 SV = true /\ is_mat 2 2 SW = true
    /\ transpose SV = SV /\ transpose SW = SW
    /\ (forall i, (i < 2)%nat -> 0 <= ent SV i i)
    /\ (forall i, (i < 2)%nat -> 0 <= ent SW i i).
Proof.
  apply (Actor_K_passes_symmetric_covariances (Sample.fixed_gain Sample.K2)
           (actor Sample.lqg2) 3 2 2 2 2); first [ reflexivity | lia ].
Defined.

(** ** The simulation *)

Lemma initial_state_length (x b u : nat) (self : System) (L K : mat) (x0 : option vec) :
  simulate_shapes x b u x self L K = true ->
  (forall v, x0 = Some v -> length v = x) ->
  length (initial_state self x0) = x.
Proof.
  intros Hs Hx0. destruct x0 as [v|]; cbn [initial_state]; [now apply Hx0|].
  now rewrite zeros_length, (xdim_eq x b u self L K Hs).
Qed.

(** X2.  Trial [i] of [simulate] is [simulate_trial] run on the [i]-th key of
    [random.split(rng_key, n)]: column [i] of the stacked states, beliefs,
    observations and actions holds the rows that call returns. *)
Theorem simulate_column_is_trial :
  forall (key : Type) (random_split : key -> key * key)
         (random_split_num : key -> nat -> list key)
         (random_normal : key -> nat -> nat -> mat)
         (control_law kalman_gain : mat -> mat -> mat -> mat -> nat -> result mat)
         (x b u : nat) (self : System) (L K : mat)
         (rng_key : key) (n T : nat) (x0 : option vec),
    (forall k r c, is_mat r c (random_normal k r c) = true) ->
    simulate_shapes x b u x self L K = true ->
    Actor.L control_law (actor self) T = Ok L ->
    Actor.K kalman_gain (actor self) T = Ok K ->
    (0 < T)%nat ->
    (forall v, x0 = Some v -> length v = x) ->
    exists xs x_hat ys us,
      simulate random_split random_split_num random_normal control_law kalman_gain
               self rng_key n T x0 true
      = Ok (AllOutputs xs x_hat ys us)
      /\ forall i k, nth_error (random_split_num rng_key n) i = Some k ->
           exists txs txh tys tus,
             simulate_trial random_split random_normal self L K k T x0 None
             = Ok (txs, txh, tys, tus)
             /\ (forall t, (t < T)%nat ->
                   nth i (nth t xs []) [] = nth t txs []
                   /\ nth i (nth t x_hat []) [] = nth t txh [])
             /\ (forall t, (t < T - 1)%nat -> nth i (nth t us []) [] = nth t tus [])
             /\ nth i (nth 0 ys []) [] = nth 0 tys [].
Proof.
  intros key random_split random_split_num random_normal control_law kalman_gain
         x b u self L K rng_key n T x0 Hnormal Hs HL HK HT Hx0.
  pose proof (initial_state_length x b u self L K x0 Hs Hx0) as Hinit.
  exists (sim_x key random_split random_split_num random_normal x self L K rng_key n T x0),
    (sim_x_hat key random_split random_split_num random_normal x self L K rng_key n T x0),
    (sim_y key random_split random_split_num random_normal x self rng_key n T x0),
    (sim_u key random_split random_split_num random_normal x self L K rng_key n T x0).
  split.
  - now apply (simulate_eq key random_split random_split_num random_normal control_law
                 kalman_gain Hnormal x b u self L K Hs).
  - intros i k Hk.
    exists (trial_x key random_split random_normal x self L K k T x0),
      (trial_x_hat key random_split random_normal x self L K k T x0),
      (trial_y key random_split random_normal x self k T x0),
      (trial_u key random_split random_normal x self L K k T x0).
    split.
    + exact (simulate_trial_eq key random_split random_normal Hnormal x b u self L K Hs
               k T x0 HT Hinit).
    + exact (sim_entries key random_split random_split_num random_normal Hnormal
               x b u self L K Hs rng_key n T x0 HT Hinit i k Hk).
Qed.

(** Two trials of three steps of the demo model. *)
Lemma simulate_column_is_trial_witness :
  exists xs x_hat ys us,
    simulate Sample.random_split Sample.random_split_num Sample.random_normal
             (Sample.fixed_gain Sample.L2) (Sample.fixed_gain Sample.K2)
             Sample.lqg2 O 2 3 None true
    = Ok (AllOutputs xs x_hat ys us)
    /\ forall i k, nth_error (Sample.random_split_num O 2) i = Some k ->
         exists txs txh tys tus,
           simulate_trial Sample.random_split Sample.random_normal Sample.lqg2
                          Sample.L2 Sample.K2 k 3 None None
           = Ok (txs, txh, tys, tus)
           /\ (forall t, (t < 3)%nat ->
                 nth i (nth t xs []) [] = nth t txs []
                 /\ nth i (nth t x_hat []) [] = nth t txh [])
           /\ (forall t, (t < 3 - 1)%nat -> nth i (nth t us []) [] = nth t tus [])
           /\ nth i (nth 0 ys []) [] = nth 0 tys [].
Proof.
  apply (simulate_column_is_trial Sample.key Sample.random_split Sample.random_split_num
           Sample.random_normal (Sample.fixed_gain Sample.L2) (Sample.fixed_gain Sample.K2)
           2 2 1 Sample.lqg2 Sample.L2 Sample.K2 O 2 3 None);
    first [ exact sample_normal_shape | reflexivity | lia | discriminate ].
Defined.

(** X3.  [simulate] starts every trial from the zero belief, also when an
    initial state [x0] is given: the first row of the returned beliefs is
    zero for each of the [n] trials. *)
Theorem simulate_beliefs_start_at_zero :
  forall (key : Type) (random_split : key -> key * key)
         (random_split_num : key -> nat -> list key)
         (random_normal : key -> nat -> nat -> mat)
         (control_law kalman_gain : mat -> mat -> mat -> mat -> nat -> result mat)
         (x b u : nat) (self : System) (L K : mat)
         (rng_key : key) (n T : nat) (x0 : option vec),
    (forall k r c, is_mat r c (random_normal k r c) = true) ->
    (forall k m, length (random_split_num k m) = m) ->
    simulate_shapes x b u x self L K = true ->
    Actor.L control_law (actor self) T = Ok L ->
    Actor.K kalman_gain (actor self) T = Ok K ->
    (0 < T)%nat -> (0 < n)%nat ->
    (forall v, x0 = Some v -> length v = x) ->
    exists xs x_hat ys us,
      simulate random_split random_split_num random_normal control_law kalman_gain
               self rng_key n T x0 true
      = Ok (AllOutputs xs x_hat ys us)
      /\ hd [] x_hat = repeat (zeros b) n.
Proof.
  intros key random_split random_split_num random_normal control_law kalman_gain
         x b u self L K rng_key n T x0 Hnormal Hsplit Hs HL HK HT Hn Hx0.
  pose proof (initial_state_length x b u self L K x0 Hs Hx0) as Hinit.
  exists (sim_x key random_split random_split_num random_normal x self L K rng_key n T x0),
    (sim_x_hat key random_split random_split_num random_normal x self L K rng_key n T x0),
    (sim_y key random_split random_split_num random_normal x self rng_key n T x0),
    (sim_u key random_split random_split_num random_normal x self L K rng_key n T x0).
  split.
  - now apply (simulate_eq key random_split random_split_num random_normal control_law
                 kalman_gain Hnormal x b u self L K Hs).
  - rewrite (sim_x_hat_first_row key random_split random_split_num random_normal Hsplit
               x self L K rng_key n T x0 Hn).
    now rewrite (bdim_eq x b u self L K Hs).
Qed.

(** The demo model started from the state (1, -1). *)
Lemma simulate_beliefs_start_at_zero_witness :
  exists xs x_hat ys us,
    simulate Sample.random_split Sample.random_split_num Sample.random_normal
             (Sample.fixed_gain Sample.L2) (Sample.fixed_gain Sample.K2)
             Sample.lqg2 O 10 1000 (Some [1; - (1)]) true
    = Ok (AllOutputs xs x_hat ys us)
    /\ hd [] x_hat = repeat (zeros 2) 10.
Proof.
  apply (simulate_beliefs_start_at_zero Sample.key Sample.random_split
           Sample.random_split_num Sample.random_normal
           (Sample.fixed_gain Sample.L2) (Sample.fixed_gain Sample.K2)
           2 2 1 Sample.lqg2 Sample.L2 Sample.K2 O 10 1000 (Some [1; - (1)]));
    first [ exact sample_normal_shape | exact sample_split_num_length
          | reflexivity | lia | (intros v Hv; now inversion Hv) ].
Defined.

(** X4.  The first action of every trial is zero, whatever the gain and the
    initial state: the belief starts at zero and the action is
    [- L @ x_hat]. *)
Theorem simulate_first_action_is_zero :
  forall (key : Type) (random_split : key -> key * key)
         (random_split_num : key -> nat -> list key)
         (random_normal : key -> nat -> nat -> mat)
         (control_law kalman_gain : mat -> mat -> mat -> mat -> nat -> result mat)
         (x b u : nat) (self : System) (L K : mat)
         (rng_key : key) (n T : nat) (x0 : option vec),
    (forall k r c, is_mat r c (random_normal k r c) = true) ->
    (forall k m, length (random_split_num k m) = m) ->
    simulate_shapes x b u x self L K = true ->
    Actor.L control_law (actor self) T = Ok L ->
    Actor.K kalman_gain (actor self) T = Ok K ->
    (2 <= T)%nat -> (0 < n)%nat ->
    (forall v, x0 = Some v -> length v = x) ->
    exists xs x_hat ys us,
      simulate random_split random_split_num random_normal control_law kalman_gain
               self rng_key n T x0 true
      = Ok (AllOutputs xs x_hat ys us)
      /\ hd [] us = repeat (zeros u) n.
Proof.
  intros key random_split random_split_num random_normal control_law kalman_gain
         x b u self L K rng_key n T x0 Hnormal Hsplit Hs HL HK HT Hn Hx0.
  pose proof (initial_state_length x b u self L K x0 Hs Hx0) as Hinit.
  assert (HT0 : (0 < T)%nat) by lia.
  exists (sim_x key random_split random_split_num random_normal x self L K rng_key n T x0),
    (sim_x_hat key random_split random_split_num random_normal x self L K rng_key n T x0),
    (sim_y key random_split random_split_num random_normal x self rng_key n T x0),
    (sim_u key random_split random_split_num random_normal x self L K rng_key n T x0).
  split.
  - now apply (simulate_eq key random_split random_split_num random_normal control_law
                 kalman_gain Hnormal x b u self L K Hs).
  - assert (Hfirst : forall k,
               nth 0 (trial_u key random_split random_normal x self L K k T x0) []
               = zeros u).
    { intros k.
      pose proof (trial_step key random_split random_normal Hnormal x b u self L K Hs
                    k T x0 1 HT0 Hinit ltac:(lia)) as Hstep.
      apply (f_equal (fun r => snd (snd r))) in Hstep.
      cbv beta iota zeta delta [loop_raw] in Hstep. cbn [fst snd Nat.sub nth] in Hstep.
      rewrite <- Hstep. unfold trial_x_hat. cbn [nth].
      rewrite matvec_raw_zeros_r. unfold mneg. rewrite length_map.
      destruct (simulate_shapes_spec _ _ _ _ _ _ _ Hs)
        as (_ & _ & _ & _ & _ & _ & _ & _ & HLs & _).
      now rewrite (is_mat_length HLs). }
    unfold sim_u.
    pose proof (Hsplit rng_key n) as Hlen.
    set (keys := random_split_num rng_key n) in *.
    set (trials := map (fun k => trial_u key random_split random_normal x self L K k T x0)
                       keys).
    assert (HT' : (0 < nrows (hd [] trials))%nat).
    { subst trials. destruct keys as [|k keys]; [simpl in Hlen; lia|]. cbn [map hd].
      unfold nrows.
      rewrite (is_mat_length (trial_u_shape key random_split random_normal Hnormal
                                x b u self L K Hs k T x0 HT0 Hinit)). lia. }
    rewrite hd_nth0, (stack_axis1_nth _ trials O eq_refl HT').
    subst trials. rewrite map_map.
    rewrite (map_ext _ (fun _ => zeros u) Hfirst).
    rewrite <- Hlen. apply map_const_repeat.
Qed.

(** The demo model started from the state (1, -1). *)
Lemma simulate_first_action_is_zero_witness :
  exists xs x_hat ys us,
    simulate Sample.random_split Sample.random_split_num Sample.random_normal
             (Sample.fixed_gain Sample.L2) (Sample.fixed_gain Sample.K2)
             Sample.lqg2 O 10 1000 (Some [1; - (1)]) true
    = Ok (AllOutputs xs x_hat ys us)
    /\ hd [] us = repeat (zeros 1) 10.
Proof.
  apply (simulate_first_action_is_zero Sample.key Sample.random_split
           Sample.random_split_num Sample.random_normal
           (Sample.fixed_gain Sample.L2) (Sample.fixed_gain Sample.K2)
           2 2 1 Sample.lqg2 Sample.L2 Sample.K2 O 10 1000 (Some [1; - (1)]));
    first [ exact sample_normal_shape | exact sample_split_num_length
          | reflexivity | lia | (intros v Hv; now inversion Hv) ].
Defined.

(** X5.  Whatever the horizon [T], the observations [simulate] returns with
    [return_all] have the shape (1, n, state-dim): the one row holds, for each
    trial, [C @ x0 + V @ eta[0]] with the first row of that trial's
    observation noise; the observations of the loop steps are not in it. *)
Theorem simulate_observations_are_one_row :
  forall (key : Type) (random_split : key -> key * key)
         (random_split_num : key -> nat -> list key)
         (random_normal : key -> nat -> nat -> mat)
         (control_law kalman_gain : mat -> mat -> mat -> mat -> nat -> result mat)
         (x b u : nat) (self : System) (L K : mat)
         (rng_key : key) (n T : nat) (x0 : option vec),
    (forall k r c, is_mat r c (random_normal k r c) = true) ->
    (forall k m, length (random_split_num k m) = m) ->
    simulate_shapes x b u x self L K = true ->
    Actor.L control_law (actor self) T = Ok L ->
    Actor.K kalman_gain (actor self) T = Ok K ->
    (0 < T)%nat -> (0 < n)%nat ->
    (forall v, x0 = Some v -> length v = x) ->
    exists xs x_hat ys us,
      simulate random_split random_split_num random_normal control_law kalman_gain
               self rng_key n T x0 true
      = Ok (AllOutputs xs x_hat ys us)
      /\ is_arr3 1 n x ys = true
      /\ ys = [map (fun k =>
                      vadd_raw
                        (matvec_raw (Dynamics.C (dynamics self))
                           (match x0 with Some v => v | None => zeros x end))
                        (matvec_raw (Dynamics.V (dynamics self))
                           (row_at 0 (random_normal
                                        (snd (random_split (fst (random_split k))))
                                        T x))))
                   (random_split_num rng_key n)].
Proof.
  intros key random_split random_split_num random_normal control_law kalman_gain
         x b u self L K rng_key n T x0 Hnormal Hsplit Hs HL HK HT Hn Hx0.
  pose proof (initial_state_length x b u self L K x0 Hs Hx0) as Hinit.
  exists (sim_x key random_split random_split_num random_normal x self L K rng_key n T x0),
    (sim_x_hat key random_split random_split_num random_normal x self L K rng_key n T x0),
    (sim_y key random_split random_split_num random_normal x self rng_key n T x0),
    (sim_u key random_split random_split_num random_normal x self L K rng_key n T x0).
  split; [|split].
  - now apply (simulate_eq key random_split random_split_num random_normal control_law
                 kalman_gain Hnormal x b u self L K Hs).
  - now apply (sim_y_shape key random_split random_split_num random_normal Hnormal Hsplit
                 x b u self L K Hs).
  - rewrite (sim_y_row key random_split random_split_num random_normal Hsplit
               x self rng_key n T x0 Hn).
    unfold initial_state. now rewrite (xdim_eq x b u self L K Hs).
Qed.

(** Ten trials of a thousand steps of the demo model. *)
Lemma simulate_observations_are_one_row_witness :
  exists xs x_hat ys us,
    simulate Sample.random_split Sample.random_split_num Sample.random_normal
             (Sample.fixed_gain Sample.L2) (Sample.fixed_gain Sample.K2)
             Sample.lqg2 O 10 1000 None true
    = Ok (AllOutputs xs x_hat ys us)
    /\ is_arr3 1 10 2 ys = true
    /\ ys = [map (fun k =>
                    vadd_raw
                      (matvec_raw (Dynamics.C (dynamics Sample.lqg2)) (zeros 2))
                      (matvec_raw (Dynamics.V (dynamics Sample.lqg2))
                         (row_at 0 (Sample.random_normal
                                      (snd (Sample.random_split
                                              (fst (Sample.random_split k))))
                                      1000 2))))
                 (Sample.random_split_num O 10)].
Proof.
  apply (simulate_observations_are_one_row Sample.key Sample.random_split
           Sample.random_split_num Sample.random_normal
           (Sample.fixed_gain Sample.L2) (Sample.fixed_gain Sample.K2)
           2 2 1 Sample.lqg2 Sample.L2 Sample.K2 O 10 1000 None);
    first [ exact sample_normal_shape | exact sample_split_num_length
          | reflexivity | lia | discriminate ].
Defined.

(** X6.  Without noise ([V] and [W] zero) and from the default zero initial
    state, the closed loop stays at the origin: all states, beliefs,
    observations and actions [simulate] returns are zero, for every key. *)
Theorem simulate_noise_free_stays_at_origin :
  forall (key : Type) (random_split : key -> key * key)
         (random_split_num : key -> nat -> list key)
         (random_normal : key -> nat -> nat -> mat)
         (control_law kalman_gain : mat -> mat -> mat -> mat -> nat -> result mat)
         (x b u : nat) (self : System) (L K : mat) (rng_key : key) (n T : nat),
    (forall k r c, is_mat r c (random_normal k r c) = true) ->
    (forall k m, length (random_split_num k m) = m) ->
    simulate_shapes x b u x self L K = true ->
    Dynamics.V (dynamics self) = zeros2 x x ->
    Dynamics.W (dynamics self) = zeros2 x x ->
    Actor.L control_law (actor self) T = Ok L ->
    Actor.K kalman_gain (actor self) T = Ok K ->
    (0 < T)%nat -> (0 < n)%nat ->
    simulate random_split random_split_num random_normal control_law kalman_gain
             self rng_key n T None true
    = Ok (AllOutputs (repeat (repeat (zeros x) n) T) (repeat (repeat (zeros b) n) T)
                     (repeat (repeat (zeros x) n) 1)
                     (repeat (repeat (zeros u) n) (T - 1))).
Proof.
  intros key random_split random_split_num random_normal control_law kalman_gain
         x b u self L K rng_key n T Hnormal Hsplit Hs HV HW HL HK HT Hn.
  pose proof (initial_state_length x b u self L K None Hs ltac:(discriminate)) as Hinit.
  rewrite (simulate_eq key random_split random_split_num random_normal control_law
             kalman_gain Hnormal x b u self L K Hs rng_key n T None true HL HK HT Hinit).
  unfold sim_x, sim_x_hat, sim_y, sim_u.
  pose proof (Hsplit rng_key n) as Hlen.
  assert (E : forall (h : key -> mat) (v : vec) (T' : nat),
             (forall k, h k = repeat v T') ->
             stack_axis1 (map h (random_split_num rng_key n)) = repeat (repeat v n) T').
  { intros h v T' Hh. rewrite (map_ext _ (fun _ => repeat v T') Hh).
    rewrite map_const_repeat, Hlen. now apply stack_axis1_repeat. }
  rewrite (E _ (zeros x) T)
    by (intros k; apply (trial_origin key random_split random_normal Hnormal
                           x b u self L K Hs HV HW k T HT)).
  rewrite (E _ (zeros b) T)
    by (intros k; apply (trial_origin key random_split random_normal Hnormal
                           x b u self L K Hs HV HW k T HT)).
  rewrite (E _ (zeros x) 1%nat)
    by (intros k; apply (trial_origin key random_split random_normal Hnormal
                           x b u self L K Hs HV HW k T HT)).
  rewrite (E _ (zeros u) (T - 1)%nat)
    by (intros k; apply (trial_origin key random_split random_normal Hnormal
                           x b u self L K Hs HV HW k T HT)).
  reflexivity.
Qed.

(** The demo model with [V = W = 0]. *)
Lemma simulate_noise_free_stays_at_origin_witness :
  simulate Sample.random_split Sample.random_split_num Sample.random_normal
           (Sample.fixed_gain Sample.L2) (Sample.fixed_gain Sample.K2)
           Sample.lqg2_noiseless O 10 1000 None true
  = Ok (AllOutputs (repeat (repeat (zeros 2) 10) 1000) (repeat (repeat (zeros 2) 10) 1000)
                   (repeat (repeat (zeros 2) 10) 1)
                   (repeat (repeat (zeros 1) 10) (1000 - 1))).
Proof.
  apply (simulate_noise_free_stays_at_origin Sample.key Sample.random_split
           Sample.random_split_num Sample.random_normal
           (Sample.fixed_gain Sample.L2) (Sample.fixed_gain Sample.K2)
           2 2 1 Sample.lqg2_noiseless Sample.L2 Sample.K2 O 10 1000);
    first [ exact sample_normal_shape | exact sample_split_num_length
          | reflexivity | lia ].
Defined.

(** X7.  [simulate] fails on every model whose observation matrix [C] and
    process-noise matrix [V] differ in their number of rows (neither being
    1): the step-0 observation [C @ x0 + V @ eta[0]] adds vectors of these
    two lengths. *)
Theorem simulate_rejects_observation_count_mismatch :
  forall (key : Type) (random_split : key -> key * key)
         (random_split_num : key -> nat -> list key)
         (random_normal : key -> nat -> nat -> mat)
         (control_law kalman_gain : mat -> mat -> mat -> mat -> nat -> result mat)
         (self : System) (L K : mat) (rng_key : key) (n T : nat) (x0 : option vec)
         (return_all : bool),
    (forall k m, length (random_split_num k m) = m) ->
    Actor.L control_law (actor self) T = Ok L ->
    Actor.K kalman_gain (actor self) T = Ok K ->
    (0 < n)%nat ->
    nrows (Dynamics.C (dynamics self)) <> nrows (Dynamics.V (dynamics self)) ->
    nrows (Dynamics.C (dynamics self)) <> 1%nat ->
    nrows (Dynamics.V (dynamics self)) <> 1%nat ->
    simulate random_split random_split_num random_normal control_law kalman_gain
             self rng_key n T x0 return_all
    = Raise ShapeMismatch.
Proof.
  intros key random_split random_split_num random_normal control_law kalman_gain
         self L K rng_key n T x0 return_all Hsplit HL HK Hn Hne HC HV.
  unfold simulate. rewrite HL, HK. cbn [bind].
  pose proof (Hsplit rng_key n) as Hlen.
  destruct (random_split_num rng_key n) as [|k keys]; [simpl in Hlen; lia|].
  cbn [mapM].
  now rewrite (simulate_trial_observation_mismatch key random_split random_normal
                 self L K k T x0 None Hne HC HV).
Qed.

(** The demo model with a third observation, the sum of the two states. *)
Lemma simulate_rejects_observation_count_mismatch_witness :
  simulate Sample.random_split Sample.random_split_num Sample.random_normal
           (Sample.fixed_gain Sample.L2) (Sample.fixed_gain Variants.K3)
           Variants.lqg_three_observations O 10 1000 None false
  = Raise ShapeMismatch.
Proof.
  apply (simulate_rejects_observation_count_mismatch Sample.key Sample.random_split
           Sample.random_split_num Sample.random_normal
           (Sample.fixed_gain Sample.L2) (Sample.fixed_gain Variants.K3)
           Variants.lqg_three_observations Sample.L2 Variants.K3 O 10 1000 None false);
    first [ exact sample_split_num_length | reflexivity | lia | (vm_compute; lia) ].
Defined.

(** X8.  [simulate] draws process noise of the width of the initial state, so
    it fails on every model whose noise matrix [V] has another number of
    columns: the product [V @ epsilon[t]] of the loop body is rejected. *)
Theorem simulate_rejects_noise_width_mismatch :
  forall (key : Type) (random_split : key -> key * key)
         (random_split_num : key -> nat -> list key)
         (random_normal : key -> nat -> nat -> mat)
         (control_law kalman_gain : mat -> mat -> mat -> mat -> nat -> result mat)
         (self : System) (L K : mat) (rng_key : key) (n T r v : nat) (x0 : option vec)
         (return_all : bool),
    (forall k r c, is_mat r c (random_normal k r c) = true) ->
    (forall k m, length (random_split_num k m) = m) ->
    Actor.L control_law (actor self) T = Ok L ->
    Actor.K kalman_gain (actor self) T = Ok K ->
    (0 < n)%nat -> (0 < T)%nat ->
    is_mat r v (Dynamics.V (dynamics self)) = true -> (0 < r)%nat ->
    v <> length (match x0 with Some w => w | None => zeros (xdim self) end) ->
    simulate random_split random_split_num random_normal control_law kalman_gain
             self rng_key n T x0 return_all
    = Raise ShapeMismatch.
Proof.
  intros key random_split random_split_num random_normal control_law kalman_gain
         self L K rng_key n T r v x0 return_all Hnormal Hsplit HL HK Hn HT HV Hr Hv.
  unfold simulate. rewrite HL, HK. cbn [bind].
  pose proof (Hsplit rng_key n) as Hlen.
  destruct (random_split_num rng_key n) as [|k keys]; [simpl in Hlen; lia|].
  cbn [mapM].
  now rewrite (simulate_trial_noise_mismatch key random_split random_normal
                 self L K k T x0 None r v Hnormal HV Hr HT Hv).
Qed.

(** The demo model with three sources of process noise. *)
Lemma simulate_rejects_noise_width_mismatch_witness :
  simulate Sample.random_split Sample.random_split_num Sample.random_normal
           (Sample.fixed_gain Sample.L2) (Sample.fixed_gain Sample.K2)
           Variants.lqg_three_noise_sources O 10 1000 None false
  = Raise ShapeMismatch.
Proof.
  apply (simulate_rejects_noise_width_mismatch Sample.key Sample.random_split
           Sample.random_split_num Sample.random_normal
           (Sample.fixed_gain Sample.L2) (Sample.fixed_gain Sample.K2)
           Variants.lqg_three_noise_sources Sample.L2 Sample.K2 O 10 1000 2 3 None false);
    first [ exact sample_normal_shape | exact sample_split_num_length
          | reflexivity | lia | (vm_compute; lia) ].
Defined.

(** ** The filter on several data arrays *)

Lemma arr3_Forall2 (T n n' d : nat) (xs xs' : arr3) :
  is_arr3 T n d xs = true -> is_arr3 T n' d xs' = true ->
  Forall2 (fun xt xt' => is_mat n d xt = true /\ is_mat n' d xt' = true) xs xs'.
Proof.
  intros Hxs Hxs'. apply is_arr3_iff in Hxs as [Hl Hall]. apply is_arr3_iff in Hxs' as [Hl' Hall'].
  apply Forall2_same_length_intro; [congruence|].
  intros t dd dd' Ht. split; [apply Hall | apply Hall']; apply nth_In; lia.
Qed.

(** The run of the filter behind a call of [conditional_moments]. *)
Lemma conditional_moments_run
  (control_law kalman_gain : mat -> mat -> mat -> mat -> nat -> result mat)
  (linalg_inv : mat -> mat)
  (x b u y v n d T : nat) (self : System) (L K F G : mat) (xs : arr3) (mu0 : option mat) :
  filter_shapes x b u y v self L K = true ->
  build_F self L K = Ok F -> build_G self K = Ok G ->
  Actor.L control_law (actor self) T = Ok L ->
  Actor.K kalman_gain (actor self) T = Ok K ->
  (0 < d <= x + b)%nat -> (0 < n)%nat -> (0 < T)%nat ->
  (forall M, is_mat d d M = true -> is_mat d d (linalg_inv M) = true) ->
  is_arr3 T n d xs = true ->
  (forall m, mu0 = Some m -> is_mat n (x + b) m = true) ->
  exists c outs,
    scan_from (f linalg_inv F G d) (initial_mean n self mu0, matmul_raw G (transpose G)) xs
    = Ok (c, outs)
    /\ length outs = T
    /\ carry_ok x b n (initial_mean n self mu0, matmul_raw G (transpose G))
    /\ conditional_moments control_law kalman_gain linalg_inv self xs mu0
       = Ok (map fst outs, map snd outs)
    /\ Forall (carry_ok x b n) outs.
Proof.
  intros Hs HF HG HL HK Hd Hn HT Hinv Hxs Hmu0.
  pose proof (initial_mean_shape x b u y v n self L K Hs mu0 Hmu0) as Hmu.
  destruct (filter_outs_spec linalg_inv x b u y v n d self L K F G Hs HF HG Hd Hn Hinv
              T mu0 xs Hxs Hmu) as ((c & E) & Hlen & Hall).
  exists c, (filter_outs linalg_inv n d self F G mu0 xs).
  split; [exact E|]. split; [exact Hlen|]. split; [|split; [|exact Hall]].
  - split; cbn [fst snd]; [exact Hmu|].
    exact (GGt_shape x b u y v n d self L K G Hs HG Hd Hn).
  - exact (conditional_moments_eq control_law kalman_gain linalg_inv
             x b u y v n d self L K F G Hs HF HG Hd Hn Hinv T mu0 xs HL HK Hxs HT Hmu0).
Qed.

(** X12.  The covariances [conditional_moments] returns do not depend on the
    data: two calls on data with the same number of steps and coordinates
    return the same covariance sequence, whatever the observed values, the
    numbers of trials and the initial means. *)
Theorem conditional_moments_covariances_ignore_data :
  forall (control_law kalman_gain : mat -> mat -> mat -> mat -> nat -> result mat)
         (linalg_inv : mat -> mat)
         (x b u y v n n' d T : nat) (self : System) (L K : mat) (xs xs' : arr3)
         (mu0 mu0' : option mat),
    filter_shapes x b u y v self L K = true ->
    Actor.L control_law (actor self) T = Ok L ->
    Actor.K kalman_gain (actor self) T = Ok K ->
    (0 < d <= x + b)%nat -> (0 < n)%nat -> (0 < n')%nat -> (0 < T)%nat ->
    (forall M, is_mat d d M = true -> is_mat d d (linalg_inv M) = true) ->
    is_arr3 T n d xs = true -> is_arr3 T n' d xs' = true ->
    (forall m, mu0 = Some m -> is_mat n (x + b) m = true) ->
    (forall m, mu0' = Some m -> is_mat n' (x + b) m = true) ->
    exists mus mus' Sigmas,
      conditional_moments control_law kalman_gain linalg_inv self xs mu0
      = Ok (mus, Sigmas)
      /\ conditional_moments control_law kalman_gain linalg_inv self xs' mu0'
         = Ok (mus', Sigmas).
Proof.
  intros control_law kalman_gain linalg_inv x b u y v n n' d T self L K xs xs' mu0 mu0'
         Hs HL HK Hd Hn Hn' HT Hinv Hxs Hxs' Hmu0 Hmu0'.
  destruct (build_F_ok x b u y v self L K Hs) as (F & HF & _).
  destruct (build_G_ok x b u y v self L K Hs) as (G & HG & _).
  destruct (conditional_moments_run control_law kalman_gain linalg_inv x b u y v n d T
              self L K F G xs mu0 Hs HF HG HL HK Hd Hn HT Hinv Hxs Hmu0)
    as (c & outs & E & _ & Hc & Hcm & _).
  destruct (conditional_moments_run control_law kalman_gain linalg_inv x b u y v n' d T
              self L K F G xs' mu0' Hs HF HG HL HK Hd Hn' HT Hinv Hxs' Hmu0')
    as (c' & outs' & E' & _ & Hc' & Hcm' & _).
  exists (map fst outs), (map fst outs'), (map snd outs).
  split; [exact Hcm|]. rewrite Hcm'. do 2 f_equal. symmetry.
  exact (filter_covariances_agree linalg_inv x b u y v d self L K F G Hs HF HG Hd Hinv
           n n' xs xs' _ _ c c' outs outs' Hn Hn' (arr3_Forall2 T n n' d xs xs' Hxs Hxs')
           Hc Hc' eq_refl E E').
Qed.

(** The demo model on the data of one trial and on the data of two. *)
Lemma conditional_moments_covariances_ignore_data_witness :
  exists mus mus' Sigmas,
    conditional_moments (Sample.fixed_gain Sample.L2) (Sample.fixed_gain Sample.K2)
      Sample.linalg_inv Sample.lqg2 Sample.xdata None
    = Ok (mus, Sigmas)
    /\ conditional_moments (Sample.fixed_gain Sample.L2) (Sample.fixed_gain Sample.K2)
         Sample.linalg_inv Sample.lqg2 Variants.xdata_pair None
       = Ok (mus', Sigmas).
Proof.
  apply (conditional_moments_covariances_ignore_data (Sample.fixed_gain Sample.L2)
           (Sample.fixed_gain Sample.K2) Sample.linalg_inv 2 2 1 2 2 1 2 2 3
           Sample.lqg2 Sample.L2 Sample.K2 Sample.xdata Variants.xdata_pair None None);
    first [ reflexivity | lia | exact (sample_inv_shape 2) | discriminate ].
Defined.

(** Two calls on data that agree on the first [k] steps agree on the first
    [k] steps of their results. *)
Lemma conditional_moments_prefix :
  forall (control_law kalman_gain : mat -> mat -> mat -> mat -> nat -> result mat)
         (linalg_inv : mat -> mat)
         (x b u y v n d T k : nat) (self : System) (L K : mat) (xs xs' : arr3)
         (mu0 : option mat),
    filter_shapes x b u y v self L K = true ->
    Actor.L control_law (actor self) T = Ok L ->
    Actor.K kalman_gain (actor self) T = Ok K ->
    (0 < d <= x + b)%nat -> (0 < n)%nat -> (0 < T)%nat ->
    (forall M, is_mat d d M = true -> is_mat d d (linalg_inv M) = true) ->
    is_arr3 T n d xs = true -> is_arr3 T n d xs' = true ->
    (forall m, mu0 = Some m -> is_mat n (x + b) m = true) ->
    firstn k xs = firstn k xs' ->
    exists mus Sigmas mus' Sigmas',
      conditional_moments control_law kalman_gain linalg_inv self xs mu0
      = Ok (mus, Sigmas)
      /\ conditional_moments control_law kalman_gain linalg_inv self xs' mu0
         = Ok (mus', Sigmas')
      /\ firstn k mus = firstn k mus' /\ firstn k Sigmas = firstn k Sigmas'.
Proof.
  intros control_law kalman_gain linalg_inv x b u y v n d T k self L K xs xs' mu0
         Hs HL HK Hd Hn HT Hinv Hxs Hxs' Hmu0 Hpre.
  destruct (build_F_ok x b u y v self L K Hs) as (F & HF & _).
  destruct (build_G_ok x b u y v self L K Hs) as (G & HG & _).
  destruct (conditional_moments_run control_law kalman_gain linalg_inv x b u y v n d T
              self L K F G xs mu0 Hs HF HG HL HK Hd Hn HT Hinv Hxs Hmu0)
    as (c & outs & E & _ & _ & Hcm & _).
  destruct (conditional_moments_run control_law kalman_gain linalg_inv x b u y v n d T
              self L K F G xs' mu0 Hs HF HG HL HK Hd Hn HT Hinv Hxs' Hmu0)
    as (c' & outs' & E' & _ & _ & Hcm' & _).
  exists (map fst outs), (map snd outs), (map fst outs'), (map snd outs').
  split; [exact Hcm|]. split; [exact Hcm'|].
  destruct (scan_from_firstn (f linalg_inv F G d) k xs _ c outs E) as (c1 & E1).
  destruct (scan_from_firstn (f linalg_inv F G d) k xs' _ c' outs' E') as (c1' & E1').
  rewrite Hpre, E1' in E1. apply Ok_inj in E1. inversion E1 as [[Hc Houts]].
  rewrite !firstn_map, Houts. split; reflexivity.
Qed.

(** X13.  The filter is causal: on two data arrays of the same shape that
    agree on their first [k] steps, [conditional_moments] returns means and
    covariances that agree on the first [k] steps. *)
Theorem conditional_moments_is_causal :
  forall (control_law kalman_gain : mat -> mat -> mat -> mat -> nat -> result mat)
         (linalg_inv : mat -> mat)
         (x b u y v n d T k : nat) (self : System) (L K : mat) (xs xs' : arr3)
         (mu0 : option mat),
    filter_shapes x b u y v self L K = true ->
    Actor.L control_law (actor self) T = Ok L ->
    Actor.K kalman_gain (actor self) T = Ok K ->
    (0 < d <= x + b)%nat -> (0 < n)%nat -> (0 < T)%nat ->
    (forall M, is_mat d d M = true -> is_mat d d (linalg_inv M) = true) ->
    is_arr3 T n d xs = true -> is_arr3 T n d xs' = true ->
    (forall m, mu0 = Some m -> is_mat n (x + b) m = true) ->
    firstn k xs = firstn k xs' ->
    exists mus Sigmas mus' Sigmas',
      conditional_moments control_law kalman_gain linalg_inv self xs mu0
      = Ok (mus, Sigmas)
      /\ conditional_moments control_law kalman_gain linalg_inv self xs' mu0
         = Ok (mus', Sigmas')
      /\ firstn k mus = firstn k mus' /\ firstn k Sigmas = firstn k Sigmas'.
Proof.
  intros control_law kalman_gain linalg_inv x b u y v n d T k self L K xs xs' mu0
         Hs HL HK Hd Hn HT Hinv Hxs Hxs' Hmu0 Hpre.
  exact (conditional_moments_prefix control_law kalman_gain linalg_inv x b u y v n d T k
           self L K xs xs' mu0 Hs HL HK Hd Hn HT Hinv Hxs Hxs' Hmu0 Hpre).
Qed.

(** The demo model on two data arrays that differ in the last step only. *)
Lemma conditional_moments_is_causal_witness :
  exists mus Sigmas mus' Sigmas',
    conditional_moments (Sample.fixed_gain Sample.L2) (Sample.fixed_gain Sample.K2)
      Sample.linalg_inv Sample.lqg2 Sample.xdata None
    = Ok (mus, Sigmas)
    /\ conditional_moments (Sample.fixed_gain Sample.L2) (Sample.fixed_gain Sample.K2)
         Sample.linalg_inv Sample.lqg2 Variants.xdata_late None
       = Ok (mus', Sigmas')
    /\ firstn 2 mus = firstn 2 mus' /\ firstn 2 Sigmas = firstn 2 Sigmas'.
Proof.
  apply (conditional_moments_is_causal (Sample.fixed_gain Sample.L2)
           (Sample.fixed_gain Sample.K2) Sample.linalg_inv 2 2 1 2 2 1 2 3 2
           Sample.lqg2 Sample.L2 Sample.K2 Sample.xdata Variants.xdata_late None);
    first [ reflexivity | lia | exact (sample_inv_shape 2) | discriminate ].
Defined.

Lemma zeros2_row r c i : (i < r)%nat -> nth i (zeros2 r c) [] = zeros c.
Proof. intros Hi. unfold zeros2. now apply nth_repeat_lt. Qed.

(** Two calls whose data agree on one trial: the means of that trial and
    the covariances are the same. *)
Lemma conditional_moments_trial :
  forall (control_law kalman_gain : mat -> mat -> mat -> mat -> nat -> result mat)
         (linalg_inv : mat -> mat)
         (x b u y v n n' d T i j : nat) (self : System) (L K : mat) (xs xs' : arr3),
    filter_shapes x b u y v self L K = true ->
    Actor.L control_law (actor self) T = Ok L ->
    Actor.K kalman_gain (actor self) T = Ok K ->
    (0 < d <= x + b)%nat -> (i < n)%nat -> (j < n')%nat -> (0 < T)%nat ->
    (forall M, is_mat d d M = true -> is_mat d d (linalg_inv M) = true) ->
    is_arr3 T n d xs = true -> is_arr3 T n' d xs' = true ->
    (forall t, (t < T)%nat -> nth i (nth t xs []) [] = nth j (nth t xs' []) []) ->
    exists mus mus' Sigmas,
      conditional_moments control_law kalman_gain linalg_inv self xs None
      = Ok (mus, Sigmas)
      /\ conditional_moments control_law kalman_gain linalg_inv self xs' None
         = Ok (mus', Sigmas)
      /\ is_arr3 T n (x + b) mus = true /\ is_arr3 T n' (x + b) mus' = true
      /\ length Sigmas = T
      /\ forall t, (t < T)%nat -> nth i (nth t mus []) [] = nth j (nth t mus' []) [].
Proof.
  intros control_law kalman_gain linalg_inv x b u y v n n' d T i j self L K xs xs'
         Hs HL HK Hd Hi Hj HT Hinv Hxs Hxs' Hrows.
  assert (Hn : (0 < n)%nat) by lia. assert (Hn' : (0 < n')%nat) by lia.
  destruct (build_F_ok x b u y v self L K Hs) as (F & HF & _).
  destruct (build_G_ok x b u y v self L K Hs) as (G & HG & _).
  destruct (conditional_moments_run control_law kalman_gain linalg_inv x b u y v n d T
              self L K F G xs None Hs HF HG HL HK Hd Hn HT Hinv Hxs ltac:(discriminate))
    as (c & outs & E & Hlen & Hc & Hcm & Houts).
  destruct (conditional_moments_run control_law kalman_gain linalg_inv x b u y v n' d T
              self L K F G xs' None Hs HF HG HL HK Hd Hn' HT Hinv Hxs' ltac:(discriminate))
    as (c' & outs' & E' & Hlen' & Hc' & Hcm' & Houts').
  assert (Hcov : map snd outs' = map snd outs).
  { symmetry.
    exact (filter_covariances_agree linalg_inv x b u y v d self L K F G Hs HF HG Hd Hinv
             n n' xs xs' _ _ c c' outs outs' Hn Hn' (arr3_Forall2 T n n' d xs xs' Hxs Hxs')
             Hc Hc' eq_refl E E'). }
  rewrite Hcov in Hcm'.
  exists (map fst outs), (map fst outs'), (map snd outs).
  split; [exact Hcm|]. split; [exact Hcm'|].
  split.
  { apply is_arr3_iff. split; [now rewrite length_map|].
    intros M Hin. apply in_map_iff in Hin as (o & <- & Hin).
    rewrite Forall_forall in Houts. now destruct (Houts o Hin). }
  split.
  { apply is_arr3_iff. split; [now rewrite length_map|].
    intros M Hin. apply in_map_iff in Hin as (o & <- & Hin).
    rewrite Forall_forall in Houts'. now destruct (Houts' o Hin). }
  split; [now rewrite length_map|].
  assert (HQ : Forall2 (fun xt xt' => (is_mat n d xt = true /\ is_mat n' d xt' = true)
                                      /\ nth i xt [] = nth j xt' []) xs xs').
  { pose proof Hxs as Hxs1. pose proof Hxs' as Hxs1'.
    apply is_arr3_iff in Hxs1 as [Hl Hall]. apply is_arr3_iff in Hxs1' as [Hl' Hall'].
    apply Forall2_same_length_intro; [congruence|].
    intros t dd dd' Ht. split.
    - split; [apply Hall | apply Hall']; apply nth_In; lia.
    - rewrite (nth_indep xs dd [] Ht), (nth_indep xs' dd' []) by lia.
      apply Hrows. lia. }
  assert (Hinit : nth i (fst (initial_mean n self None, matmul_raw G (transpose G))) []
                  = nth j (fst (initial_mean n' self None, matmul_raw G (transpose G))) []).
  { cbn [fst initial_mean]. now rewrite !zeros2_row. }
  pose proof (filter_trial_means_agree linalg_inv x b u y v d self L K F G Hs HF HG Hd Hinv
                n n' i j xs xs' _ _ c c' outs outs' Hi Hj HQ Hc Hc' eq_refl Hinit E E')
    as Hout.
  intros t Ht.
  rewrite (nth_map_lt fst outs ([], []) []) by lia.
  rewrite (nth_map_lt fst outs' ([], []) []) by lia.
  apply (Forall2_nth_rel _ outs outs' t ([], []) ([], []) Hout). lia.
Qed.

(** X14.  Trials are filtered independently: the means
    [conditional_moments] returns for a trial are determined by the data of
    that trial alone.  If trial [i] of one data array holds the same
    observations as trial [j] of another, the means of the two trials are
    the same at every step. *)
Theorem conditional_moments_trials_are_independent :
  forall (control_law kalman_gain : mat -> mat -> mat -> mat -> nat -> result mat)
         (linalg_inv : mat -> mat)
         (x b u y v n n' d T i j : nat) (self : System) (L K : mat) (xs xs' : arr3),
    filter_shapes x b u y v self L K = true ->
    Actor.L control_law (actor self) T = Ok L ->
    Actor.K kalman_gain (actor self) T = Ok K ->
    (0 < d <= x + b)%nat -> (i < n)%nat -> (j < n')%nat -> (0 < T)%nat ->
    (forall M, is_mat d d M = true -> is_mat d d (linalg_inv M) = true) ->
    is_arr3 T n d xs = true -> is_arr3 T n' d xs' = true ->
    (forall t, (t < T)%nat -> nth i (nth t xs []) [] = nth j (nth t xs' []) []) ->
    exists mus Sigmas mus' Sigmas',
      conditional_moments control_law kalman_gain linalg_inv self xs None
      = Ok (mus, Sigmas)
      /\ conditional_moments control_law kalman_gain linalg_inv self xs' None
         = Ok (mus', Sigmas')
      /\ forall t, (t < T)%nat -> nth i (nth t mus []) [] = nth j (nth t mus' []) [].
Proof.
  intros control_law kalman_gain linalg_inv x b u y v n n' d T i j self L K xs xs'
         Hs HL HK Hd Hi Hj HT Hinv Hxs Hxs' Hrows.
  destruct (conditional_moments_trial control_law kalman_gain linalg_inv
              x b u y v n n' d T i j self L K xs xs'
              Hs HL HK Hd Hi Hj HT Hinv Hxs Hxs' Hrows)
    as (mus & mus' & Sigmas & E & E' & _ & _ & _ & H).
  exists mus, Sigmas, mus', Sigmas. auto.
Qed.

(** The second of two trials, filtered with the first and alone. *)
Lemma conditional_moments_trials_are_independent_witness :
  exists mus Sigmas mus' Sigmas',
    conditional_moments (Sample.fixed_gain Sample.L2) (Sample.fixed_gain Sample.K2)
      Sample.linalg_inv Sample.lqg2 Variants.xdata_pair None
    = Ok (mus, Sigmas)
    /\ conditional_moments (Sample.fixed_gain Sample.L2) (Sample.fixed_gain Sample.K2)
         Sample.linalg_inv Sample.lqg2 Variants.xdata_second None
       = Ok (mus', Sigmas')
    /\ forall t, (t < 3)%nat -> nth 1 (nth t mus []) [] = nth 0 (nth t mus' []) [].
Proof.
  apply (conditional_moments_trials_are_independent (Sample.fixed_gain Sample.L2)
           (Sample.fixed_gain Sample.K2) Sample.linalg_inv 2 2 1 2 2 2 1 2 3 1 0
           Sample.lqg2 Sample.L2 Sample.K2 Variants.xdata_pair Variants.xdata_second);
    first [ reflexivity | lia | exact (sample_inv_shape 2)
          | (intros [|[|[|t]]] Ht; [reflexivity | reflexivity | reflexivity | lia]) ].
Defined.

Lemma arr3_head_dims (T n d : nat) (xs : arr3) :
  is_arr3 T n d xs = true -> (0 < T)%nat -> (0 < n)%nat ->
  length xs = T /\ is_mat n d (hd (zeros2 n d) xs) = true
  /\ nrows (hd [] xs) = n /\ ncols (hd [] xs) = d.
Proof.
  intros Hxs HT Hn. apply is_arr3_iff in Hxs as [Hlen Hall].
  destruct xs as [|x1 xs]; [simpl in Hlen; lia|]. cbn [hd].
  assert (H1 : is_mat n d x1 = true) by (apply Hall; now left).
  repeat split; [exact Hlen | exact H1 | exact (is_mat_length H1) | exact (is_mat_ncols H1 Hn)].
Qed.

(** X15.  [conditional_moments] fails on data with more coordinates than the
    joint state of plant and belief has: the innovation [xt - mu[:, :d]]
    subtracts rows of [state-dim + belief-dim] entries from rows of [d]
    entries. *)
Theorem conditional_moments_rejects_wide_data :
  forall (control_law kalman_gain : mat -> mat -> mat -> mat -> nat -> result mat)
         (linalg_inv : mat -> mat)
         (x b u y v n d T : nat) (self : System) (L K : mat) (xs : arr3)
         (mu0 : option mat),
    filter_shapes x b u y v self L K = true ->
    Actor.L control_law (actor self) T = Ok L ->
    Actor.K kalman_gain (actor self) T = Ok K ->
    (x + b < d)%nat -> (0 < n)%nat -> (0 < T)%nat ->
    is_arr3 T n d xs = true ->
    (forall m, mu0 = Some m -> is_mat n (x + b) m = true) ->
    conditional_moments control_law kalman_gain linalg_inv self xs mu0
    = Raise ShapeMismatch.
Proof.
  intros control_law kalman_gain linalg_inv x b u y v n d T self L K xs mu0
         Hs HL HK Hd Hn HT Hxs Hmu0.
  destruct (build_F_ok x b u y v self L K Hs) as (F & HF & HFs).
  destruct (build_G_ok x b u y v self L K Hs) as (G & HG & HGs).
  destruct (filter_shapes_spec _ _ _ _ _ _ _ _ Hs) as ((Hx & Hb & Hu & Hy & Hv) & _).
  destruct (arr3_head_dims T n d xs Hxs HT Hn) as (Hlen & Hhd & Hnr & Hnc).
  pose proof (initial_mean_shape x b u y v n self L K Hs mu0 Hmu0) as Hmu.
  assert (HFt : is_mat (x + b) (x + b) (transpose F) = true) by shapes.
  assert (HGt : is_mat (v + y) (x + b) (transpose G) = true) by shapes.
  unfold conditional_moments. rewrite Hlen, Hnr, Hnc, HL, HK. cbn [bind].
  rewrite HF, HG. cbn [bind].
  rewrite (matmul_ok2 HGs HGt). cbn [bind]. fold (initial_mean n self mu0).
  unfold scan, f.
  rewrite (matmul_ok2 Hmu HFt). cbn [bind].
  rewrite (cols_upto_all Hmu) by lia.
  unfold msub. rewrite (mzip_mismatch Qcminus n d (x + b) _ _ Hhd Hmu Hn) by lia.
  reflexivity.
Qed.

(** The demo model has a joint state of four coordinates; data with five
    coordinates are rejected. *)
Lemma conditional_moments_rejects_wide_data_witness :
  conditional_moments (Sample.fixed_gain Sample.L2) (Sample.fixed_gain Sample.K2)
    Sample.linalg_inv Sample.lqg2 Variants.xdata_wide None
  = Raise ShapeMismatch.
Proof.
  apply (conditional_moments_rejects_wide_data (Sample.fixed_gain Sample.L2)
           (Sample.fixed_gain Sample.K2) Sample.linalg_inv 2 2 1 2 2 1 5 2
           Sample.lqg2 Sample.L2 Sample.K2 Variants.xdata_wide None);
    first [ reflexivity | lia | discriminate ].
Defined.

Lemma swap_axes01_shape (T n w : nat) (a : arr3) :
  is_arr3 T n w a = true -> (0 < T)%nat -> is_arr3 n T w (swap_axes01 a) = true.
Proof.
  intros Ha HT. rewrite (swap_axes01_table T n w a Ha HT).
  apply is_arr3_iff in Ha as [Hlen Hall]. apply is_arr3_iff. split.
  - now rewrite length_map, length_seq.
  - intros M HM. apply in_map_iff in HM as (i & <- & Hi). apply in_seq in Hi.
    apply is_mat_iff. split; [now rewrite length_map, length_seq|].
    intros row Hrow. apply in_map_iff in Hrow as (t & <- & Ht). apply in_seq in Ht.
    apply (@is_mat_row n w); [apply Hall, nth_In; lia | lia].
Qed.

Lemma swap_axes01_entry (T n w : nat) (a : arr3) (i t : nat) :
  is_arr3 T n w a = true -> (i < n)%nat -> (t < T)%nat ->
  nth t (nth i (swap_axes01 a) []) [] = nth i (nth t a []) [].
Proof.
  intros Ha Hi Ht. rewrite (swap_axes01_table T n w a Ha) by lia.
  rewrite (nth_map_seq (fun i' => map (fun t' => nth i' (nth t' a []) []) (seq 0 T))
             n i [] Hi).
  exact (nth_map_seq (fun t' => nth i (nth t' a []) []) T t [] Ht).
Qed.

(** X16.  [conditional_distribution] returns a Gaussian with one mean for
    each trial and step, of shape (n, T, d), and one covariance for each
    step, of shape (T, d, d): the mean of trial [i] at step [t] is the
    observed part [mu[t, i, :d]] of the filter mean, the covariance of step
    [t] the observed block [Sigma[t, :d, :d]]. *)
Theorem conditional_distribution_shapes :
  forall (control_law kalman_gain : mat -> mat -> mat -> mat -> nat -> result mat)
         (linalg_inv : mat -> mat)
         (x b u y v n d T : nat) (self : System) (L K : mat) (xs : arr3),
    filter_shapes x b u y v self L K = true ->
    Actor.L control_law (actor self) T = Ok L ->
    Actor.K kalman_gain (actor self) T = Ok K ->
    (0 < d <= x + b)%nat -> (0 < n)%nat -> (0 < T)%nat ->
    (forall M, is_mat d d M = true -> is_mat d d (linalg_inv M) = true) ->
    is_arr3 T n d xs = true ->
    exists mus Sigmas dist,
      conditional_moments control_law kalman_gain linalg_inv self xs None
      = Ok (mus, Sigmas)
      /\ conditional_distribution control_law kalman_gain linalg_inv self xs = Ok dist
      /\ is_arr3 n T d (loc dist) = true
      /\ is_arr3 T d d (covariance_matrix dist) = true
      /\ (forall i t, (i < n)%nat -> (t < T)%nat ->
            nth t (nth i (loc dist) []) [] = firstn d (nth i (nth t mus []) []))
      /\ (forall t, (t < T)%nat ->
            nth t (covariance_matrix dist) [] = block_upto d (nth t Sigmas [])).
Proof.
  intros control_law kalman_gain linalg_inv x b u y v n d T self L K xs
         Hs HL HK Hd Hn HT Hinv Hxs.
  destruct (conditional_moments_shapes control_law kalman_gain linalg_inv
              x b u y v n d T self L K xs Hs HL HK Hd Hn HT Hinv Hxs)
    as (mus & Sigmas & E & Hmus & HSig).
  destruct (arr3_head_dims T n d xs Hxs HT Hn) as (_ & _ & _ & Hnc).
  pose proof Hmus as Hmus'. pose proof HSig as HSig'.
  apply is_arr3_iff in Hmus' as [Hlen Hall]. apply is_arr3_iff in HSig' as [HlenS HallS].
  assert (Hlocs : is_arr3 T n d (map (cols_upto d) mus) = true).
  { apply is_arr3_iff. split; [now rewrite length_map|].
    intros M Hin. apply in_map_iff in Hin as (M' & <- & Hin).
    apply (@cols_upto_shape n (x + b)); [now apply Hall | lia]. }
  exists mus, Sigmas,
    (Build_MultivariateNormal (swap_axes01 (map (cols_upto d) mus))
                              (map (block_upto d) Sigmas)).
  split; [exact E|]. split; [|split; [|split; [|split]]]; cbn [loc covariance_matrix].
  - unfold conditional_distribution. rewrite E, Hnc. reflexivity.
  - exact (swap_axes01_shape T n d _ Hlocs HT).
  - apply is_arr3_iff. split; [now rewrite length_map|].
    intros M Hin. apply in_map_iff in Hin as (M' & <- & Hin).
    apply (@block_upto_shape (x + b) (x + b)); [now apply HallS | lia | lia].
  - intros i t Hi Ht. rewrite (swap_axes01_entry T n d _ i t Hlocs Hi Ht).
    rewrite (nth_map_lt (cols_upto d) mus [] []) by lia.
    unfold cols_upto.
    assert (Hrow : is_mat n (x + b) (nth t mus []) = true) by (apply Hall, nth_In; lia).
    now rewrite (nth_map_lt (firstn d) (nth t mus []) [] [])
      by (rewrite (is_mat_length Hrow); lia).
  - intros t Ht. now rewrite (nth_map_lt (block_upto d) Sigmas [] []) by lia.
Qed.

(** The demo model on three observed steps of one trial. *)
Lemma conditional_distribution_shapes_witness :
  exists mus Sigmas dist,
    conditional_moments (Sample.fixed_gain Sample.L2) (Sample.fixed_gain Sample.K2)
      Sample.linalg_inv Sample.lqg2 Sample.xdata None
    = Ok (mus, Sigmas)
    /\ conditional_distribution (Sample.fixed_gain Sample.L2) (Sample.fixed_gain Sample.K2)
         Sample.linalg_inv Sample.lqg2 Sample.xdata
       = Ok dist
    /\ is_arr3 1 3 2 (loc dist) = true
    /\ is_arr3 3 2 2 (covariance_matrix dist) = true
    /\ (forall i t, (i < 1)%nat -> (t < 3)%nat ->
          nth t (nth i (loc dist) []) [] = firstn 2 (nth i (nth t mus []) []))
    /\ (forall t, (t < 3)%nat ->
          nth t (covariance_matrix dist) [] = block_upto 2 (nth t Sigmas [])).
Proof.
  apply (conditional_distribution_shapes (Sample.fixed_gain Sample.L2)
           (Sample.fixed_gain Sample.K2) Sample.linalg_inv 2 2 1 2 2 1 2 3
           Sample.lqg2 Sample.L2 Sample.K2 Sample.xdata);
    first [ reflexivity | lia | exact (sample_inv_shape 2) ].
Defined.

(** ** The table of log-densities *)

Lemma log_likelihood_table
  (control_law kalman_gain : mat -> mat -> mat -> mat -> nat -> result mat)
  (linalg_inv : mat -> mat) (logp : Type) (mvn_log_prob : vec -> mat -> vec -> logp)
  (n d T : nat) (m : nat) (self : System) (xs mus Sigmas : arr3) :
  (0 < d <= m)%nat -> (0 < n)%nat -> (2 <= T)%nat ->
  is_arr3 T n d xs = true ->
  conditional_moments control_law kalman_gain linalg_inv self (removelast xs) None
  = Ok (mus, Sigmas) ->
  is_arr3 (T - 1) n m mus = true -> length Sigmas = (T - 1)%nat ->
  log_likelihood control_law kalman_gain linalg_inv mvn_log_prob self xs
  = Ok (map (fun i =>
               map (fun t => mvn_log_prob (firstn d (nth i (nth t mus []) []))
                                          (block_upto d (nth t Sigmas []))
                                          (nth i (nth (S t) xs []) []))
                   (seq 0 (T - 1)))
            (seq 0 n)).
Proof.
  intros Hd Hn HT Hxs E Hmus HSig.
  pose proof (removelast_shape T n d xs Hxs) as Hrl.
  pose proof (tl_shape T n d xs Hxs) as Htl.
  assert (HT1 : (0 < T - 1)%nat) by lia.
  destruct (arr3_head_dims (T - 1) n d (removelast xs) Hrl HT1 Hn) as (_ & _ & _ & Hnc).
  unfold log_likelihood, conditional_distribution. rewrite E, Hnc. cbn [bind].
  pose proof Hmus as Hmus'. apply is_arr3_iff in Hmus' as [Hlen Hall].
  assert (Hlocs : is_arr3 (T - 1) n d (map (cols_upto d) mus) = true).
  { apply is_arr3_iff. split; [now rewrite length_map|].
    intros M Hin. apply in_map_iff in Hin as (M' & <- & Hin).
    apply (@cols_upto_shape n m); [now apply Hall | lia]. }
  assert (Hcovs : length (map (block_upto d) Sigmas) = (T - 1)%nat)
    by now rewrite length_map.
  rewrite (log_prob_table mvn_log_prob (T - 1) n d _ _ _ Hlocs Htl Hcovs HT1).
  f_equal. apply map_ext_in. intros i Hi. apply in_seq in Hi.
  apply map_ext_in. intros t Ht. apply in_seq in Ht.
  rewrite (nth_map_lt (cols_upto d) mus [] []) by lia.
  rewrite (nth_map_lt (block_upto d) Sigmas [] []) by lia.
  rewrite nth_tl. unfold cols_upto.
  assert (Hrow : is_mat n m (nth t mus []) = true) by (apply Hall, nth_In; lia).
  rewrite (nth_map_lt (firstn d) (nth t mus []) [] [])
    by (rewrite (is_mat_length Hrow); lia).
  reflexivity.
Qed.

Lemma nth_firstn_eq {A : Type} (k t : nat) (l l' : list A) (d : A) :
  firstn k l = firstn k l' -> (t < k)%nat -> nth t l d = nth t l' d.
Proof.
  intros H Ht. rewrite <- (nth_firstn_lt l d Ht), <- (nth_firstn_lt l' d Ht). now rewrite H.
Qed.

Lemma firstn_removelast {A : Type} (k : nat) (l : list A) :
  (k < length l)%nat -> firstn k (removelast l) = firstn k l.
Proof.
  intros Hk. rewrite removelast_firstn_len, firstn_firstn. f_equal. lia.
Qed.

Lemma firstn_weaken {A : Type} (k k' : nat) (l l' : list A) :
  firstn k' l = firstn k' l' -> (k <= k')%nat -> firstn k l = firstn k l'.
Proof.
  intros H Hk.
  replace k with (Nat.min k k') by lia. rewrite <- !firstn_firstn. now rewrite H.
Qed.

Lemma in_firstn_seq (k s m t : nat) : In t (firstn k (seq s m)) -> (t < s + k)%nat.
Proof.
  revert s m. induction k as [|k IH]; intros s m H; [contradiction|].
  destruct m as [|m]; [contradiction|]. cbn [seq firstn] in H.
  destruct H as [<-|H]; [lia|]. apply IH in H. lia.
Qed.

(** X17.  The likelihood is one-step-ahead: entry [t] of a trial's row of
    [log_likelihood] is computed from the trajectory up to step [t + 1]
    only.  On two trajectories of the same shape that agree on their first
    [k + 1] steps, the first [k] entries of every row are the same. *)
Theorem log_likelihood_is_one_step_ahead :
  forall (control_law kalman_gain : mat -> mat -> mat -> mat -> nat -> result mat)
         (linalg_inv : mat -> mat)
         (logp : Type) (mvn_log_prob : vec -> mat -> vec -> logp)
         (x b u y v n d T k : nat) (self : System) (L K : mat) (xs xs' : arr3),
    filter_shapes x b u y v self L K = true ->
    Actor.L control_law (actor self) (T - 1) = Ok L ->
    Actor.K kalman_gain (actor self) (T - 1) = Ok K ->
    (0 < d <= x + b)%nat -> (0 < n)%nat -> (2 <= T)%nat -> (k < T)%nat ->
    (forall M, is_mat d d M = true -> is_mat d d (linalg_inv M) = true) ->
    is_arr3 T n d xs = true -> is_arr3 T n d xs' = true ->
    firstn (S k) xs = firstn (S k) xs' ->
    exists ll ll',
      log_likelihood control_law kalman_gain linalg_inv mvn_log_prob self xs = Ok ll
      /\ log_likelihood control_law kalman_gain linalg_inv mvn_log_prob self xs' = Ok ll'
      /\ map (firstn k) ll = map (firstn k) ll'.
Proof.
  intros control_law kalman_gain linalg_inv logp mvn_log_prob x b u y v n d T k
         self L K xs xs' Hs HL HK Hd Hn HT Hk Hinv Hxs Hxs' Hpre.
  pose proof (removelast_shape T n d xs Hxs) as Hrl.
  pose proof (removelast_shape T n d xs' Hxs') as Hrl'.
  assert (HT1 : (0 < T - 1)%nat) by lia.
  pose proof Hxs as Hx1. apply is_arr3_iff in Hx1 as [Hlen _].
  pose proof Hxs' as Hx1'. apply is_arr3_iff in Hx1' as [Hlen' _].
  assert (Hpre' : firstn k (removelast xs) = firstn k (removelast xs')).
  { rewrite !firstn_removelast by lia. apply (firstn_weaken k (S k)); [exact Hpre | lia]. }
  destruct (conditional_moments_prefix control_law kalman_gain linalg_inv x b u y v n d
              (T - 1) k self L K (removelast xs) (removelast xs') None
              Hs HL HK Hd Hn HT1 Hinv Hrl Hrl' ltac:(discriminate) Hpre')
    as (mus & Sigmas & mus' & Sigmas' & E & E' & Hmus & HSig).
  destruct (conditional_moments_shapes control_law kalman_gain linalg_inv
              x b u y v n d (T - 1) self L K (removelast xs) Hs HL HK Hd Hn HT1 Hinv Hrl)
    as (m1 & S1 & E1 & Hm1 & HS1).
  destruct (conditional_moments_shapes control_law kalman_gain linalg_inv
              x b u y v n d (T - 1) self L K (removelast xs') Hs HL HK Hd Hn HT1 Hinv Hrl')
    as (m1' & S1' & E1' & Hm1' & HS1').
  rewrite E in E1. apply Ok_inj in E1. inversion E1; subst m1 S1.
  rewrite E' in E1'. apply Ok_inj in E1'. inversion E1'; subst m1' S1'.
  apply is_arr3_iff in HS1 as [HlS _]. apply is_arr3_iff in HS1' as [HlS' _].
  rewrite (log_likelihood_table control_law kalman_gain linalg_inv logp mvn_log_prob
             n d T (x + b) self xs mus Sigmas Hd Hn HT Hxs E Hm1 HlS).
  rewrite (log_likelihood_table control_law kalman_gain linalg_inv logp mvn_log_prob
             n d T (x + b) self xs' mus' Sigmas' Hd Hn HT Hxs' E' Hm1' HlS').
  eexists. eexists. split; [reflexivity|]. split; [reflexivity|].
  rewrite !map_map. apply map_ext. intros i.
  rewrite !firstn_map. apply map_ext_in. intros t Ht.
  apply (in_firstn k) in Ht as Ht'. apply in_seq in Ht'.
  assert (Htk : (t < k)%nat) by (apply in_firstn_seq in Ht; lia).
  rewrite (nth_firstn_eq k t mus mus' [] Hmus Htk).
  rewrite (nth_firstn_eq k t Sigmas Sigmas' [] HSig Htk).
  rewrite (nth_firstn_eq (S k) (S t) xs xs' [] Hpre) by lia.
  reflexivity.
Qed.

(** The demo model on two trajectories that differ in the last step only:
    the first entry of the row is the same. *)
Lemma log_likelihood_is_one_step_ahead_witness :
  exists ll ll',
    log_likelihood (Sample.fixed_gain Sample.L2) (Sample.fixed_gain Sample.K2)
      Sample.linalg_inv Sample.LogDensity Sample.lqg2 Sample.xdata = Ok ll
    /\ log_likelihood (Sample.fixed_gain Sample.L2) (Sample.fixed_gain Sample.K2)
         Sample.linalg_inv Sample.LogDensity Sample.lqg2 Variants.xdata_late = Ok ll'
    /\ map (firstn 1) ll = map (firstn 1) ll'.
Proof.
  apply (log_likelihood_is_one_step_ahead (Sample.fixed_gain Sample.L2)
           (Sample.fixed_gain Sample.K2) Sample.linalg_inv Sample.density Sample.LogDensity
           2 2 1 2 2 1 2 3 1 Sample.lqg2 Sample.L2 Sample.K2 Sample.xdata
           Variants.xdata_late);
    first [ reflexivity | lia | exact (sample_inv_shape 2) ].
Defined.

Lemma nth_removelast {A : Type} (l : list A) (t : nat) (d : A) :
  (t < length l - 1)%nat -> nth t (removelast l) d = nth t l d.
Proof.
  intros Ht. rewrite removelast_firstn_len. apply nth_firstn_lt. lia.
Qed.

(** X18.  The row [log_likelihood] returns for a trial is determined by the
    trajectory of that trial alone: if trial [i] of one array of
    trajectories equals trial [j] of another with the same number of steps,
    row [i] of the first result equals row [j] of the second. *)
Theorem log_likelihood_rows_are_independent :
  forall (control_law kalman_gain : mat -> mat -> mat -> mat -> nat -> result mat)
         (linalg_inv : mat -> mat)
         (logp : Type) (mvn_log_prob : vec -> mat -> vec -> logp)
         (x b u y v n n' d T i j : nat) (self : System) (L K : mat) (xs xs' : arr3),
    filter_shapes x b u y v self L K = true ->
    Actor.L control_law (actor self) (T - 1) = Ok L ->
    Actor.K kalman_gain (actor self) (T - 1) = Ok K ->
    (0 < d <= x + b)%nat -> (i < n)%nat -> (j < n')%nat -> (2 <= T)%nat ->
    (forall M, is_mat d d M = true -> is_mat d d (linalg_inv M) = true) ->
    is_arr3 T n d xs = true -> is_arr3 T n' d xs' = true ->
    (forall t, (t < T)%nat -> nth i (nth t xs []) [] = nth j (nth t xs' []) []) ->
    exists ll ll',
      log_likelihood control_law kalman_gain linalg_inv mvn_log_prob self xs = Ok ll
      /\ log_likelihood control_law kalman_gain linalg_inv mvn_log_prob self xs' = Ok ll'
      /\ nth i ll [] = nth j ll' [].
Proof.
  intros control_law kalman_gain linalg_inv logp mvn_log_prob x b u y v n n' d T i j
         self L K xs xs' Hs HL HK Hd Hi Hj HT Hinv Hxs Hxs' Hrows.
  assert (HT1 : (0 < T - 1)%nat) by lia.
  pose proof Hxs as Hx1. apply is_arr3_iff in Hx1 as [Hlen _].
  pose proof Hxs' as Hx1'. apply is_arr3_iff in Hx1' as [Hlen' _].
  assert (Hrows' : forall t, (t < T - 1)%nat ->
            nth i (nth t (removelast xs) []) [] = nth j (nth t (removelast xs') []) []).
  { intros t Ht. rewrite !nth_removelast by lia. apply Hrows. lia. }
  destruct (conditional_moments_trial control_law kalman_gain linalg_inv
              x b u y v n n' d (T - 1) i j self L K (removelast xs) (removelast xs')
              Hs HL HK Hd Hi Hj HT1 Hinv (removelast_shape T n d xs Hxs)
              (removelast_shape T n' d xs' Hxs') Hrows')
    as (mus & mus' & Sigmas & E & E' & Hmus & Hmus' & HlS & Hmeans).
  rewrite (log_likelihood_table control_law kalman_gain linalg_inv logp mvn_log_prob
             n d T (x + b) self xs mus Sigmas Hd ltac:(lia) HT Hxs E Hmus HlS).
  rewrite (log_likelihood_table control_law kalman_gain linalg_inv logp mvn_log_prob
             n' d T (x + b) self xs' mus' Sigmas Hd ltac:(lia) HT Hxs' E' Hmus' HlS).
  eexists. eexists. split; [reflexivity|]. split; [reflexivity|].
  rewrite (nth_map_seq
             (fun i' => map (fun t => mvn_log_prob (firstn d (nth i' (nth t mus []) []))
                                        (block_upto d (nth t Sigmas []))
                                        (nth i' (nth (S t) xs []) []))
                            (seq 0 (T - 1))) n i [] Hi).
  rewrite (nth_map_seq
             (fun j' => map (fun t => mvn_log_prob (firstn d (nth j' (nth t mus' []) []))
                                        (block_upto d (nth t Sigmas []))
                                        (nth j' (nth (S t) xs' []) []))
                            (seq 0 (T - 1))) n' j [] Hj).
  apply map_ext_in. intros t Ht. apply in_seq in Ht.
  rewrite (Hmeans t) by lia. rewrite (Hrows (S t)) by lia. reflexivity.
Qed.

(** The second of two trials, scored with the first and alone. *)
Lemma log_likelihood_rows_are_independent_witness :
  exists ll ll',
    log_likelihood (Sample.fixed_gain Sample.L2) (Sample.fixed_gain Sample.K2)
      Sample.linalg_inv Sample.LogDensity Sample.lqg2 Variants.xdata_pair = Ok ll
    /\ log_likelihood (Sample.fixed_gain Sample.L2) (Sample.fixed_gain Sample.K2)
         Sample.linalg_inv Sample.LogDensity Sample.lqg2 Variants.xdata_second = Ok ll'
    /\ nth 1 ll [] = nth 0 ll' [].
Proof.
  apply (log_likelihood_rows_are_independent (Sample.fixed_gain Sample.L2)
           (Sample.fixed_gain Sample.K2) Sample.linalg_inv Sample.density Sample.LogDensity
           2 2 1 2 2 2 1 2 3 1 0 Sample.lqg2 Sample.L2 Sample.K2
           Variants.xdata_pair Variants.xdata_second);
    first [ reflexivity | lia | exact (sample_inv_shape 2)
          | (intros [|[|[|t]]] Ht; [reflexivity | reflexivity | reflexivity | lia]) ].
Defined.

(** X19.  The states [simulate] returns can be scored by [log_likelihood] of
    the same model: for a model with as many observations and noise sources
    as states, [T >= 2] steps and [n] trials, the call on the simulated
    states returns one row for each trial with [T - 1] entries. *)
Theorem simulated_states_can_be_scored :
  forall (key : Type) (random_split : key -> key * key)
         (random_split_num : key -> nat -> list key)
         (random_normal : key -> nat -> nat -> mat)
         (control_law kalman_gain : mat -> mat -> mat -> mat -> nat -> result mat)
         (linalg_inv : mat -> mat)
         (logp : Type) (mvn_log_prob : vec -> mat -> vec -> logp)
         (x b u : nat) (self : System) (L K L' K' : mat)
         (rng_key : key) (n T : nat) (x0 : option vec),
    (forall k r c, is_mat r c (random_normal k r c) = true) ->
    (forall k m, length (random_split_num k m) = m) ->
    simulate_shapes x b u x self L K = true ->
    filter_shapes x b u x x self L' K' = true ->
    Actor.L control_law (actor self) T = Ok L ->
    Actor.K kalman_gain (actor self) T = Ok K ->
    Actor.L control_law (actor self) (T - 1) = Ok L' ->
    Actor.K kalman_gain (actor self) (T - 1) = Ok K' ->
    (2 <= T)%nat -> (0 < n)%nat ->
    (forall M, is_mat x x M = true -> is_mat x x (linalg_inv M) = true) ->
    (forall v, x0 = Some v -> length v = x) ->
    exists xs ll,
      simulate random_split random_split_num random_normal control_law kalman_gain
               self rng_key n T x0 false
      = Ok (StatesOnly xs)
      /\ log_likelihood control_law kalman_gain linalg_inv mvn_log_prob self xs = Ok ll
      /\ length ll = n
      /\ (forall row, In row ll -> length row = (T - 1)%nat).
Proof.
  intros key random_split random_split_num random_normal control_law kalman_gain
         linalg_inv logp mvn_log_prob x b u self L K L' K' rng_key n T x0
         Hnormal Hsplit Hs Hf HL HK HL' HK' HT Hn Hinv Hx0.
  pose proof (initial_state_length x b u self L K x0 Hs Hx0) as Hinit.
  destruct (filter_shapes_spec _ _ _ _ _ _ _ _ Hf) as ((Hx & Hb & _) & _).
  assert (HT0 : (0 < T)%nat) by lia. assert (HT1 : (0 < T - 1)%nat) by lia.
  assert (Hd : (0 < x <= x + b)%nat) by lia.
  set (xs := sim_x key random_split random_split_num random_normal x self L K rng_key n T x0).
  assert (Hxs : is_arr3 T n x xs = true).
  { apply (sim_x_shape key random_split random_split_num random_normal Hnormal Hsplit
             x b u self L K Hs); assumption. }
  destruct (conditional_moments_shapes control_law kalman_gain linalg_inv
              x b u x x n x (T - 1) self L' K' (removelast xs) Hf HL' HK' Hd Hn HT1 Hinv
              (removelast_shape T n x xs Hxs))
    as (mus & Sigmas & E & Hmus & HSig).
  apply is_arr3_iff in HSig as [HlS _].
  exists xs. eexists. split; [|split; [|split]].
  - exact (simulate_eq key random_split random_split_num random_normal control_law
             kalman_gain Hnormal x b u self L K Hs rng_key n T x0 false HL HK HT0 Hinit).
  - exact (log_likelihood_table control_law kalman_gain linalg_inv logp mvn_log_prob
             n x T (x + b) self xs mus Sigmas Hd Hn HT Hxs E Hmus HlS).
  - now rewrite length_map, length_seq.
  - intros row Hrow. apply in_map_iff in Hrow as (i & <- & _).
    now rewrite length_map, length_seq.
Qed.

(** Ten trials of a thousand steps of the demo model. *)
Lemma simulated_states_can_be_scored_witness :
  exists xs ll,
    simulate Sample.random_split Sample.random_split_num Sample.random_normal
             (Sample.fixed_gain Sample.L2) (Sample.fixed_gain Sample.K2)
             Sample.lqg2 O 10 1000 None false
    = Ok (StatesOnly xs)
    /\ log_likelihood (Sample.fixed_gain Sample.L2) (Sample.fixed_gain Sample.K2)
         Sample.linalg_inv Sample.LogDensity Sample.lqg2 xs = Ok ll
    /\ length ll = 10%nat
    /\ (forall row, In row ll -> length row = (1000 - 1)%nat).
Proof.
  apply (simulated_states_can_be_scored Sample.key Sample.random_split
           Sample.random_split_num Sample.random_normal
           (Sample.fixed_gain Sample.L2) (Sample.fixed_gain Sample.K2)
           Sample.linalg_inv Sample.density Sample.LogDensity
           2 2 1 Sample.lqg2 Sample.L2 Sample.K2 Sample.L2 Sample.K2 O 10 1000 None);
    first [ exact sample_normal_shape | exact sample_split_num_length
          | reflexivity | lia | exact (sample_inv_shape 2) | discriminate ].
Defined.
